(* ===== verification/_CoqProject ===== *)
-Q . S2P
Prelude.v
JsString.v
Service.v
MemoryService.v
Auth.v
Screens.v
Layout.v
App.v
Drain.v
Bounds.v
Accounts.v
Journeys.v
Views.v
Navigation.v
Scenarios.v
