(* ===== verification/Prelude.v ===== *)
(** * A verification library for appwrite-expo-auth

    The program (TypeScript, React Native with expo-router) is a thin
    client of a remote authentication service (Appwrite).  Its parts:

    - [src/appwrite/client.ts]: the SDK [Account] object, the only
      gateway to the remote service, and the [User] type.
    - [src/appwrite/auth.ts]: three flows over the SDK, [register]
      (create account, create session, get user), [login] (create
      session, get user) and [logout] (delete the "current" session).
    - [src/app/_layout.tsx]: the root layout.  It owns the process-wide
      auth state [user] (a nullable [User]) and the flag [checking]; on
      mount it runs the startup resolver ([account.get()], success sets
      the user, failure clears it, both end [checking]); while
      [checking] it renders only a spinner; afterwards it provides
      [{user, setUser}] through [AuthContext] to the screens of a Stack.
    - [src/app/index.tsx], [(auth)/login.tsx], [(auth)/register.tsx],
      [home.tsx]: the screens.  Each reads [user] and redirects (the
      view gate); login and register validate their form (JavaScript
      truthiness of the raw fields), trim the email (and the name),
      call the flow, and write the result into [user] or raise an
      alert; home signs out.  Each handler sets a [loading] flag that
      disables its button while the flow is in flight.
    - [src/components/TextInputField.tsx]: presentational only.

    How the files model them (each file opens with its own summary):

    - [Prelude] (this file): the effect model shared by all files.  A
      settled JavaScript promise is an [outcome] ([Resolved] or
      [Rejected] with an [Exception] whose [message] is optional, as
      [e?.message] is); an async function over a state [S] is the
      state-and-error monad [M S] (with stdpp's [mret]/[mbind] and the
      notation [x ← m; k]).  Rejection keeps the state reached so far,
      as a JavaScript rejection does not undo earlier remote effects.
    - [JsString]: [String.prototype.trim] on Latin-1 code units and the
      truthiness test [!s] of the forms.
    - [Service]: the SDK boundary.  [call] lists the four SDK methods
      the code uses, [prog] is a free monad of awaited SDK calls (each
      [Await] is one [await] of the source), and the class
      [SessionService] states what the code relies on from the remote
      service (laws about each call).  Client theorems are proved
      against the class only.
    - [MemoryService]: an executable in-memory instance of the class
      (accounts by email, the current session, id generation, a
      network switch), modelled from the spec since the service is not
      code of this repository; it discharges every law and gives the
      witnesses concrete runs.
    - [Auth]: [register], [login], [logout] of [auth.ts] as [prog]s,
      their sequential meaning [run_prog], and their functional
      contracts (success, every error path, the orphaned account).
    - [Screens]: the view gate of every screen, the form validation,
      the handlers [onLogin]/[onRegister]/[onLogout] of the screens
      split at their await (start: guard, [setLoading(true)], the flow
      to run; finish: [setUser] or the alert, [setLoading(false)]),
      [fillTestCredentials], the greeting of [home.tsx].
    - [Layout]: the root layout's startup resolver and render decision.
    - [App]: the running application as a state machine.  Its state is
      the service, the root layout's [user]/[checking], the stack of
      mounted screens (expo-router's Stack: each [Frame] holds a
      screen's local [useState]s under a mount key), the flows
      suspended at an await (each remembers the screen that started
      it), the alerts shown, and the [ID.unique()] counter.  [handle]
      runs one [Event]: a user action on the top screen (typing, the
      test-credentials button, the button, a [Link], back), one awaited
      SDK call of one flow settling ([step_prog]; the rest of the
      handler runs when its flow ends), or the environment (network,
      session expiry); then the top screen's [<Redirect>] is applied.
      [reachable] is the closure of [handle] from [app_init].
    - [Drain]: a bound on the awaits a flow can still make
      ([depth_le]); every flow of the source makes at most three.
    - [Bounds]: how many flows can be in flight (one per screen
      instance, counted by mount keys).
    - [Accounts]: what the app stores on the service: the forms trim
      the email and name they send, so every account the app creates
      has them trimmed ([prog_trimmed] over the flows in flight).
    - [Journeys]: sign-in, create-account and sign-out composed end to
      end: a press of the button on top and the replies to the awaits
      of the flow it starts, from any reachable state.
    - [Views]: what each screen renders (the JSX of [index.tsx],
      [login.tsx], [register.tsx], [home.tsx], the spinner of
      [_layout.tsx]) and [TextInputField], as the list of texts,
      inputs with their props, buttons with label, [disabled] and
      handler, and links.
    - [Navigation]: the shape of the stack ([shape_ok] on its routes:
      every modal sits above the screen that linked to it), and what
      the user can do while a sign-in is pending.
    - [Scenarios]: "alerts are output only" ([handle_alerts]: an event
      does the same whatever alerts were shown), and two concrete runs
      of the whole app.

    [Service] also holds the client's fixed configuration
    ([client.ts]).

    Theorems, by group: the service laws hold for the in-memory
    instance (refinement of the interface); the auth flows meet the spec's contracts on every path;
    the screens' handlers never reach the service on an empty field,
    reach it on a whitespace-only one, and write the auth state as the
    spec says; the gate sends each screen where the spec's table says;
    the startup resolver never surfaces an error; sign-out is stuck
    once the remote session is gone.  In [App], an invariant proved by
    induction on [reachable] (every event, in every interleaving)
    gives: the top screen always renders under the gate once
    [checking] ends, [checking] holds exactly while the startup effect
    is in flight and blocks the user, a mounted screen has at most one
    flow in flight, and every alert has a handler's title.  [Drain]:
    from every reachable state no run of resumptions, in any order, is longer than four
    per flow in flight, and if the service answers the flows all
    finish and [checking] ends (termination).  [Bounds]: a screen
    instance never has two flows in flight, even after it is
    dismissed, so the flows in flight are at most [next_key + 1].
    [Accounts]: for any service that keeps the SDK laws, every account
    created in a reachable state has an email and a name that [trim]
    leaves unchanged.  [Journeys]: from every reachable state and for
    any such service, sign-in with the credentials of an account,
    create-account with a fresh email, and sign-out with a live
    session each end with the expected user on the app and on the
    server, the screen replaced by its gate's target, no alert, and
    the other flows in flight untouched.
    [Navigation]: in every reachable state with a sign-in pending on
    top, the "Create an account" link still opens an enabled
    create-account screen, and dismissing and reopening the sign-in
    screen gives an enabled button while the first sign-in is still in
    flight (spec 5 says the disabled controls prevent both).
    [Views]: the password is the only masked field, typing is a round
    trip through the view, the submit button is disabled exactly
    while loading and then inert, and the app shows the spinner
    exactly while [checking].  Concrete runs show what only the
    running app produces: a create-account flow that resolves with
    another user, the orphaned account of spec 4.2, two sign-ins in
    flight at once after the modal is dismissed and reopened, and the
    stack growing by one welcome screen per sign-in and sign-out.
    [Scenarios] also proves that alerts are output only and, from it,
    that sign-out is stuck for good in every reachable state where the
    server has no session while home shows a user, for any service
    that keeps the SDK laws: every round of press and reply leaves the
    app as it was plus one "Logout failed" alert.

    Bounds and fuel: every definition is structurally recursive
    (strings, [prog] trees, stacks, event lists); no fuel is needed.
    The drain bound is
    [S max_awaits] resumptions per flow, [max_awaits = 3] being the
    awaits of [register], the longest body ([Drain.register_depth]);
    a run of resumptions in any order is bounded by the sum over the
    flows of one more than their bounds, which each resumption
    lowers ([Drain.settles_bounded]).
    Integers are counters ([nat]) with no width in the source.

    Not modelled: styling and the [View] containers (presentation
    only; the views keep order, text, props and handlers), the network
    transport of the SDK (a call is atomic and either resolves or
    rejects), React's rendering schedule beyond the order of state
    updates written in the handlers (an event's updates are rendered
    together, as React batches them), the remote service itself
    (spec-modelled by [MemoryService]; where the spec is silent the
    in-memory service lets a new sign-in replace an active session,
    and the concrete run of [App.register_returns_other_user] relies
    on that reading, while every theorem stated against the class
    holds for any service that keeps its laws), and the module imports of
    every file (React, React Native, expo-router, the SDK and the
    [react-native-url-polyfill/auto] side-effect import), which have
    no behaviour of the program's own.

    Left open: the stack growth is shown on a concrete run (three
    cycles); a proof for every number of cycles would have to follow
    the in-memory service's session counter through each cycle, which
    the concrete run does not need. *)

From stdpp Require Export base strings gmap list pretty.
From Stdlib Require Export String.

Declare Scope auth_scope.
Delimit Scope auth_scope with auth.
Open Scope string_scope.

(** ** Exceptions and settled promises *)

(** A thrown value as the handlers read it: [e?.message]. *)
Record Exception := mkException { message : option string }.

Inductive outcome (A : Type) : Type :=
| Resolved (a : A)
| Rejected (e : Exception).
Arguments Resolved {A} a.
Arguments Rejected {A} e.

(** An async function over the state [S]: it returns the state it
    reached and how its promise settled. *)
Definition M (S A : Type) : Type := S → S * outcome A.

#[export] Instance M_ret S : MRet (M S) := λ A a s, (s, Resolved a).
#[export] Instance M_bind S : MBind (M S) := λ A B f m s,
  match m s with
  | (s', Resolved a) => f a s'
  | (s', Rejected e) => (s', Rejected e)
  end.

Definition throw {S A} (e : Exception) : M S A := λ s, (s, Rejected e).

(** ** Shared lemmas *)

Create HintDb auth discriminated.
Create Rewrite HintDb auth_rw.

Section MonadLemmas.
Context {S : Type}.

Lemma bind_resolved {A B} (m : M S A) (f : A → M S B) s s' a :
  m s = (s', Resolved a) → (x ← m; f x) s = f a s'.
Proof. intros H. cbv [mbind M_bind]. by rewrite H. Qed.

Lemma bind_rejected {A B} (m : M S A) (f : A → M S B) s s' e :
  m s = (s', Rejected e) → (x ← m; f x) s = (s', Rejected e).
Proof. intros H. cbv [mbind M_bind]. by rewrite H. Qed.

Lemma bind_ret {A B} (a : A) (f : A → M S B) s :
  (x ← mret a; f x) s = f a s.
Proof. reflexivity. Qed.

(** Inversion of a bind by how its first promise settled. *)
Lemma bind_inv {A B} (m : M S A) (f : A → M S B) s r :
  (x ← m; f x) s = r →
  (∃ s1 a, m s = (s1, Resolved a) ∧ f a s1 = r) ∨
  (∃ s1 e, m s = (s1, Rejected e) ∧ r = (s1, Rejected e)).
Proof.
  cbv [mbind M_bind]. destruct (m s) as [s1 [a|e]]; intros <-; eauto 10.
Qed.
End MonadLemmas.

#[export] Hint Rewrite @bind_ret : auth_rw.

Lemma outcome_resolved_inj {A} (a b : A) : Resolved a = Resolved b → a = b.
Proof. by inversion 1. Qed.

Lemma pair_outcome_inj {S A} (s s' : S) (r r' : outcome A) :
  (s, r) = (s', r') → s = s' ∧ r = r'.
Proof. by inversion 1. Qed.

(** [invc H]: invert, substitute, clear. *)
Ltac invc H := inversion H; subst; clear H.

(** Split the equations between pairs of state and outcome. *)
Ltac split_outcomes :=
  repeat match goal with
  | H : (_, _) = (_, _) |- _ => apply pair_outcome_inj in H as [? ?]
  | H : Resolved _ = Resolved _ |- _ => apply outcome_resolved_inj in H
  | H : Resolved _ = Rejected _ |- _ => discriminate H
  | H : Rejected _ = Resolved _ |- _ => discriminate H
  end; subst.

#[export] Hint Resolve outcome_resolved_inj : auth.

(** stdpp makes [String.append] [simpl never]; these are its equations. *)
Lemma append_String c (s t : string) : String c s ++ t = String c (s ++ t).
Proof. reflexivity. Qed.

Lemma append_EmptyString (t : string) : EmptyString ++ t = t.
Proof. reflexivity. Qed.

#[export] Hint Rewrite append_String append_EmptyString : auth_rw.

(** ** Counting in lists *)

(** How many elements of [l] satisfy [p]. *)
Fixpoint count_where {A} (p : A → bool) (l : list A) : nat :=
  match l with
  | [] => 0
  | x :: l' => (if p x then 1 else 0) + count_where p l'
  end.

Section CountWhere.
Context {A : Type} (p : A → bool).

Lemma count_where_app (l1 l2 : list A) :
  count_where p (l1 ++ l2) = count_where p l1 + count_where p l2.
Proof. induction l1 as [|x l1 IH]; simpl; [done|]. rewrite IH. lia. Qed.

(** Replacing an element by one [p] judges alike keeps the count. *)
Lemma count_where_insert (l : list A) i x y :
  l !! i = Some y → p x = p y → count_where p (<[i := x]> l) = count_where p l.
Proof.
  revert i. induction l as [|z l IH]; intros [|i]; simpl; try done.
  - intros [= ->] ->. done.
  - intros Hi Hp. by rewrite (IH i Hi Hp).
Qed.

(** Deleting an element removes its share of the count. *)
Lemma count_where_delete (l : list A) i y :
  l !! i = Some y →
  count_where p (delete i l) + (if p y then 1 else 0) = count_where p l.
Proof.
  revert i. induction l as [|z l IH]; intros [|i]; simpl; try done.
  - intros [= ->]. lia.
  - intros Hi. rewrite <- (IH i Hi). lia.
Qed.

Lemma count_where_zero (l : list A) :
  (∀ x, x ∈ l → p x = false) → count_where p l = 0.
Proof.
  induction l as [|x l IH]; intros Hl; simpl; [done|].
  rewrite (Hl x); [|by left]. rewrite IH; [done|]. intros y Hy. apply Hl. by right.
Qed.

Lemma count_where_pos (l : list A) x :
  x ∈ l → p x = true → (1 ≤ count_where p l)%nat.
Proof.
  induction l as [|z l IH]; intros Hx Hp; [by apply elem_of_nil in Hx|].
  apply elem_of_cons in Hx as [->|Hx]; simpl; [rewrite Hp; lia|].
  specialize (IH Hx Hp). lia.
Qed.
End CountWhere.

#[export] Hint Rewrite @count_where_app : auth_rw.
