(* ===== verification/JsString.v ===== *)
(** * JavaScript strings as the forms use them

    The screens read their fields with two JavaScript operations: the
    truthiness test [!email] (a string is falsy exactly when it is
    empty) and [String.prototype.trim] ([email.trim()], [name.trim()]).
    Strings are modelled as Rocq strings of 8-bit code units (Latin-1);
    [is_js_space] is JavaScript's WhiteSpace and LineTerminator sets
    restricted to that range: TAB, LF, VT, FF, CR, SPACE and NBSP.

    Lemmas: [trim] leaves nothing to strip at either end, so it is
    idempotent, and it sends an all-whitespace field to [""]; the
    screens' and the accounts' theorems use them. *)

From S2P Require Import Prelude.

Module JsString.

(** [WhiteSpace] and [LineTerminator] of ECMA-262 in the range 0..255. *)
Definition is_js_space (c : Ascii.ascii) : bool :=
  match Ascii.nat_of_ascii c with
  | 9 | 10 | 11 | 12 | 13 | 32 | 160 => true
  | _ => false
  end.

(** [!s] on a string: falsy iff empty. *)
Definition is_falsy (s : string) : bool :=
  match s with EmptyString => true | String _ _ => false end.

(** [String.prototype.trimStart]. *)
Fixpoint trim_start (s : string) : string :=
  match s with
  | EmptyString => EmptyString
  | String c s' => if is_js_space c then trim_start s' else s
  end.

(** [String.prototype.trimEnd]: a code unit survives unless it and
    everything after it is whitespace. *)
Fixpoint trim_end (s : string) : string :=
  match s with
  | EmptyString => EmptyString
  | String c s' =>
      let t := trim_end s' in
      if is_js_space c && is_falsy t then EmptyString else String c t
  end.

(** [String.prototype.trim]. *)
Definition trim (s : string) : string := trim_end (trim_start s).

(** Every code unit of [s] is whitespace. *)
Fixpoint all_space (s : string) : bool :=
  match s with
  | EmptyString => true
  | String c s' => is_js_space c && all_space s'
  end.

(** First and last code units, for the "nothing left to strip" facts. *)
Definition starts_with_space (s : string) : bool :=
  match s with EmptyString => false | String c _ => is_js_space c end.

Fixpoint ends_with_space (s : string) : bool :=
  match s with
  | EmptyString => false
  | String c EmptyString => is_js_space c
  | String _ s' => ends_with_space s'
  end.

(** ** Lemmas *)

Lemma trim_start_id (s : string) :
  starts_with_space s = false → trim_start s = s.
Proof. destruct s as [|c s]; simpl; [done|]. by intros ->. Qed.

Lemma trim_end_id (s : string) :
  ends_with_space s = false → trim_end s = s.
Proof.
  induction s as [|c s IH]; simpl; [done|].
  destruct s as [|c' s'].
  - by intros ->.
  - intros H. rewrite (IH H). by rewrite andb_false_r.
Qed.

(** [trimStart] drops a whitespace prefix and stops at a non-space. *)
Lemma trim_start_split (s : string) :
  ∃ pre, all_space pre = true ∧ s = pre ++ trim_start s ∧
         starts_with_space (trim_start s) = false.
Proof.
  induction s as [|c s (pre & Hpre & Hs & Hst)]; simpl.
  - by exists EmptyString.
  - destruct (is_js_space c) eqn:Hc.
    + exists (String c pre). simpl. rewrite Hc, Hpre. split; [done|].
      split; [rewrite append_String; by f_equal|done].
    + by exists EmptyString.
Qed.

(** [trimEnd] drops a whitespace suffix and stops at a non-space. *)
Lemma trim_end_split (s : string) :
  ∃ suf, all_space suf = true ∧ s = trim_end s ++ suf ∧
         ends_with_space (trim_end s) = false.
Proof.
  induction s as [|c s (suf & Hsuf & Hs & Hend)]; simpl.
  - by exists EmptyString.
  - destruct (is_js_space c) eqn:Hc; simpl;
      destruct (trim_end s) as [|c' t] eqn:Ht; simpl in *.
    + exists (String c s). simpl. rewrite Hc. by subst.
    + exists suf. split; [done|]. split; [by rewrite Hs|done].
    + exists suf. split; [done|]. split; [by rewrite Hs|done].
    + exists suf. split; [done|]. split; [by rewrite Hs|done].
Qed.

(** [trimEnd] keeps a non-space first code unit. *)
Lemma trim_end_starts (s : string) :
  starts_with_space s = false → starts_with_space (trim_end s) = false.
Proof. destruct s as [|c s]; simpl; [done|]. intros H. by rewrite H; simpl; rewrite H. Qed.

Lemma trim_start_all_space (s : string) :
  all_space s = true → trim_start s = EmptyString.
Proof.
  induction s as [|c s IH]; simpl; [done|].
  intros [-> Hs]%andb_prop. by apply IH.
Qed.

#[export] Hint Resolve trim_start_id trim_end_id trim_end_starts : auth.

(** Nothing is left to strip at either end of [trim s]. *)
Lemma trim_bounds (s : string) :
  starts_with_space (trim s) = false ∧ ends_with_space (trim s) = false.
Proof.
  destruct (trim_start_split s) as (_ & _ & _ & Hst).
  destruct (trim_end_split (trim_start s)) as (_ & _ & _ & Hend).
  unfold trim. auto with auth.
Qed.

(** An all-whitespace string trims to the empty string. *)
Lemma trim_all_space (s : string) : all_space s = true → trim s = EmptyString.
Proof. intros H. unfold trim. by rewrite (trim_start_all_space s H). Qed.

(** Trimming twice is trimming once: what a form passed through
    [trim] is left alone by a second [trim]. *)
Lemma trim_idempotent (s : string) : trim (trim s) = trim s.
Proof.
  destruct (trim_bounds s) as [Hst Hend].
  unfold trim at 1. rewrite (trim_start_id _ Hst). by apply trim_end_id.
Qed.

End JsString.
