(* ===== verification/Service.v ===== *)
(** * The SDK boundary: [src/appwrite/client.ts]

    [client.ts] builds one [Account] object; every remote effect of the
    program goes through four of its methods, listed by [call] with the
    type their promise resolves to ([reply]).  A flow of [auth.ts] is a
    [prog]: a tree of awaited calls ([Await c k] is [await c] followed
    by [k] on the resolved value), ending in [Done].  A rejected call
    aborts the flow with its exception, as an [await] outside a [try]
    does.

    [SessionService] is the interface the client relies on: the state
    of the remote service, [perform] (one call, atomically), and three
    observations (the user of the current session, the account stored
    under an email with its password, whether the network is up).
    [SessionServiceLaws] are the laws of each call; every client
    theorem is proved from them, and [MemoryService] implements them. *)

From S2P Require Import Prelude.

(** [Models.User<Models.Preferences>], with the fields the code reads. *)
Record User := mkUser {
  user_id : string;
  user_email : string;
  user_name : string;
  user_prefs : gmap string string;
}.

#[export] Instance User_eq_dec : EqDecision User.
Proof. solve_decision. Defined.

(** [client.ts] lines 4-7: the SDK client is built once, from three
    constants (spec 6: fixed endpoint, project and platform, not
    configurable at run time); [account] (line 9) sends every [call]
    through it. *)
Record ClientConfig := mkClientConfig {
  endpoint : string; project : string; platform : string }.

Definition client : ClientConfig :=
  mkClientConfig "https://fra.cloud.appwrite.io/v1" "68b83baf0025a8047e32"
                 "com.liongatetechnology.authapp".

(** [Models.Session]: only its owner matters to the client. *)
Record Session := mkSession { session_id : string; session_user : string }.

(** The four [Account] methods used by the code. *)
Inductive call : Type :=
| AccountCreate (userId email password name : string)
| CreateEmailPasswordSession (email password : string)
| AccountGet
| DeleteSession (sessionId : string).

Definition reply (c : call) : Type :=
  match c with
  | AccountCreate _ _ _ _ => User
  | CreateEmailPasswordSession _ _ => Session
  | AccountGet => User
  | DeleteSession _ => unit
  end.

(** A flow of awaited SDK calls. *)
Inductive prog (A : Type) : Type :=
| Done (a : A)
| Await (c : call) (k : reply c → prog A).
Arguments Done {A} a.
Arguments Await {A} c k.

Notation "x <- 'await' c ;; k" := (Await c (λ x, k))
  (at level 100, c at next level, right associativity) : auth_scope.
Open Scope auth_scope.

(** The remote service as the client sees it. *)
Class SessionService (S : Type) := {
  perform : ∀ c : call, S → S * outcome (reply c);
  sv_user : S → option User;
  sv_account : S → string → option (User * string);
  sv_online : S → bool;
}.

(** What the client relies on, call by call. *)
Class SessionServiceLaws (S : Type) `{SessionService S} := {
  (** a rejected call has no remote effect *)
  rejected_no_effect c s s' e :
    perform c s = (s', Rejected e) → s' = s;
  (** without network every call rejects *)
  offline_rejects c s :
    sv_online s = false → ∃ e, perform c s = (s, Rejected e);
  (** [account.get()] returns the user of the current session *)
  get_sound s s' (u : User) :
    perform AccountGet s = (s', Resolved u) → s' = s ∧ sv_user s = Some u;
  get_complete s (u : User) :
    sv_online s = true → sv_user s = Some u →
    perform AccountGet s = (s, Resolved u);
  get_guest s :
    sv_user s = None → ∃ e, perform AccountGet s = (s, Rejected e);
  (** [createEmailPasswordSession] logs in the account with these
      credentials and changes nothing else *)
  session_sound e p s s' ses :
    perform (CreateEmailPasswordSession e p) s = (s', Resolved ses) →
    ∃ u, sv_account s e = Some (u, p) ∧ sv_user s' = Some u ∧
         sv_account s' = sv_account s ∧ sv_online s' = sv_online s;
  session_complete e p s u :
    sv_online s = true → sv_account s e = Some (u, p) →
    ∃ s' ses, perform (CreateEmailPasswordSession e p) s = (s', Resolved ses);
  session_unknown e p s :
    sv_account s e = None →
    ∃ err, perform (CreateEmailPasswordSession e p) s = (s, Rejected err);
  (** [account.create] stores a new account under a fresh email and
      leaves the session alone *)
  create_sound uid e p n s s' u :
    perform (AccountCreate uid e p n) s = (s', Resolved u) →
    sv_account s e = None ∧ sv_account s' e = Some (u, p) ∧
    user_email u = e ∧ user_name u = n ∧ sv_user s' = sv_user s ∧
    (∀ e', e' ≠ e → sv_account s' e' = sv_account s e') ∧
    sv_online s' = sv_online s;
  create_complete uid e p n s :
    sv_online s = true → sv_account s e = None →
    ∃ s' u, perform (AccountCreate uid e p n) s = (s', Resolved u);
  create_duplicate uid e p n s a :
    sv_account s e = Some a →
    ∃ err, perform (AccountCreate uid e p n) s = (s, Rejected err);
  (** [deleteSession] ends the current session *)
  delete_sound sid s s' r :
    perform (DeleteSession sid) s = (s', Resolved r) →
    sv_user s' = None ∧ sv_account s' = sv_account s ∧ sv_online s' = sv_online s;
  delete_complete s u :
    sv_online s = true → sv_user s = Some u →
    ∃ s', perform (DeleteSession "current") s = (s', Resolved tt);
  delete_guest sid s :
    sv_user s = None → ∃ e, perform (DeleteSession sid) s = (s, Rejected e);
}.

(** What the environment does to the service between two steps of the
    app: the network goes up or down, the server ends the session
    (expiry, or a sign-out on another device).  Neither touches the
    accounts. *)
Class ServiceEnv (S : Type) `{SessionService S} := {
  set_online : bool → S → S;
  expire : S → S;
  set_online_spec b s :
    sv_online (set_online b s) = b ∧ sv_user (set_online b s) = sv_user s ∧
    sv_account (set_online b s) = sv_account s;
  expire_spec s :
    sv_user (expire s) = None ∧ sv_online (expire s) = sv_online s ∧
    sv_account (expire s) = sv_account s;
}.

(** The sequential meaning of a flow: perform its calls in order. *)
Fixpoint run_prog {S} `{SessionService S} {A} (p : prog A) : M S A :=
  match p with
  | Done a => mret a
  | Await c k => x ← perform c; run_prog (k x)
  end.

(** Whether a flow reaches the service at all: [Done] issues no call. *)
Definition prog_issues_call {A} (p : prog A) : bool :=
  match p with Done _ => false | Await _ _ => true end.

Section RunLemmas.
Context {S : Type} `{SessionService S}.

Lemma run_prog_done {A} (a : A) s : run_prog (Done a) s = (s, Resolved a).
Proof. reflexivity. Qed.

Lemma run_prog_await_resolved {A} c (k : reply c → prog A) s s' v :
  perform c s = (s', Resolved v) → run_prog (Await c k) s = run_prog (k v) s'.
Proof. intros Hc. cbn [run_prog]. exact (bind_resolved _ (λ x, run_prog (k x)) _ _ _ Hc). Qed.

Lemma run_prog_await_rejected {A} c (k : reply c → prog A) s s' e :
  perform c s = (s', Rejected e) → run_prog (Await c k) s = (s', Rejected e).
Proof. intros Hc. cbn [run_prog]. exact (bind_rejected _ (λ x, run_prog (k x)) _ _ _ Hc). Qed.

(** Inversion of one awaited call. *)
Lemma run_prog_await_inv {A} c (k : reply c → prog A) s r :
  run_prog (Await c k) s = r →
  (∃ s1 v, perform c s = (s1, Resolved v) ∧ run_prog (k v) s1 = r) ∨
  (∃ s1 e, perform c s = (s1, Rejected e) ∧ r = (s1, Rejected e)).
Proof. cbn [run_prog]. apply (bind_inv _ (λ x, run_prog (k x))). Qed.
End RunLemmas.

#[export] Hint Rewrite @run_prog_done : auth_rw.

Section LawLemmas.
Context {S : Type} `{SessionServiceLaws S}.

(** A call that resolved was made with the network up. *)
Lemma resolved_online c s s' v :
  perform c s = (s', Resolved v) → sv_online s = true.
Proof.
  intros Hc. destruct (sv_online s) eqn:Ho; [done|].
  destruct (offline_rejects c s Ho) as [e He]. congruence.
Qed.

(** One awaited call that rejects rejects the whole flow, unchanged. *)
Lemma run_prog_await_rejected_id {A} c (k : reply c → prog A) s e :
  perform c s = (s, Rejected e) → run_prog (Await c k) s = (s, Rejected e).
Proof. apply run_prog_await_rejected. Qed.
End LawLemmas.

(** [run_inv H]: split a hypothesis [run_prog (Await c k) s = r] on how
    [c] settled, down to [Done]. *)
Ltac run_inv H :=
  repeat (cbv beta in H; match type of H with
  | run_prog (Await _ _) _ = _ =>
      let Hc := fresh "Hc" in
      apply run_prog_await_inv in H as [(? & ? & Hc & H) | (? & ? & Hc & H)]
  | run_prog (Done _) _ = _ => rewrite run_prog_done in H
  end); split_outcomes.
