(* ===== verification/MemoryService.v ===== *)
(** * An in-memory remote service

    The remote service is not code of this repository: this instance of
    [SessionService] is modelled from the spec (sections 4.1 and 6): a
    map of accounts keyed by email, at most one current session, a
    session counter for session ids, and a network switch.  Every call
    rejects when the network is down; [AccountCreate] rejects a known
    email, [CreateEmailPasswordSession] wrong credentials, and
    [AccountGet] / [DeleteSession] a guest.  It proves that the laws of
    [SessionServiceLaws] are consistent and gives the witnesses of the
    client theorems concrete states to run on. *)

From S2P Require Import Prelude Service.

Module MemoryService.

Record Account := mkAccount { acc_user : User; acc_password : string }.

Record Remote := mkRemote {
  accounts : gmap string Account;
  session : option (string * User);   (* session id, its user *)
  next_session : nat;
  online : bool;
}.

Definition err_network : Exception := mkException (Some "Network request failed").
Definition err_conflict : Exception :=
  mkException (Some "A user with the same id, email, or phone already exists in this project.").
Definition err_credentials : Exception :=
  mkException (Some "Invalid credentials. Please check the email and password.").
Definition err_guest : Exception :=
  mkException (Some "User (role: guests) missing scope (account)").
Definition err_session_missing : Exception :=
  mkException (Some "Session not found").

Definition with_accounts (r : Remote) (m : gmap string Account) : Remote :=
  mkRemote m (session r) (next_session r) (online r).

Definition with_session (r : Remote) (o : option (string * User)) (n : nat) : Remote :=
  mkRemote (accounts r) o n (online r).

Definition create (uid e p n : string) (r : Remote) : Remote * outcome User :=
  match accounts r !! e with
  | Some _ => (r, Rejected err_conflict)
  | None =>
      let u := mkUser uid e n ∅ in
      (with_accounts r (<[e := mkAccount u p]> (accounts r)), Resolved u)
  end.

Definition create_session (e p : string) (r : Remote) : Remote * outcome Session :=
  match accounts r !! e with
  | Some a =>
      if String.eqb (acc_password a) p then
        let sid := "s" +:+ pretty (next_session r) in
        (with_session r (Some (sid, acc_user a)) (S (next_session r)),
         Resolved (mkSession sid (user_id (acc_user a))))
      else (r, Rejected err_credentials)
  | None => (r, Rejected err_credentials)
  end.

Definition get (r : Remote) : Remote * outcome User :=
  match session r with
  | Some (_, u) => (r, Resolved u)
  | None => (r, Rejected err_guest)
  end.

Definition delete_session (sid : string) (r : Remote) : Remote * outcome unit :=
  match session r with
  | Some (cur, _) =>
      if String.eqb sid "current" || String.eqb sid cur then
        (with_session r None (next_session r), Resolved tt)
      else (r, Rejected err_session_missing)
  | None => (r, Rejected err_guest)
  end.

Definition perform_call (c : call) (r : Remote) : Remote * outcome (reply c) :=
  if online r then
    match c return Remote * outcome (reply c) with
    | AccountCreate uid e p n => create uid e p n r
    | CreateEmailPasswordSession e p => create_session e p r
    | AccountGet => get r
    | DeleteSession sid => delete_session sid r
    end
  else (r, Rejected err_network).

#[export] Instance memory_service : SessionService Remote := {
  perform := perform_call;
  sv_user r := option_map snd (session r);
  sv_account r e := option_map (λ a, (acc_user a, acc_password a)) (accounts r !! e);
  sv_online := online;
}.

(** ** The laws of the interface hold *)

Ltac law_tac :=
  repeat intro; repeat match goal with H : ∃ _, _ |- _ => destruct H end;
  cbn [perform memory_service sv_user sv_account sv_online] in *;
  unfold perform_call, create, create_session, get, delete_session,
    with_accounts, with_session in *;
  repeat (match goal with
  | H : context [match ?x with _ => _ end] |- _ => destruct x eqn:?
  | |- context [match ?x with _ => _ end] => destruct x eqn:?
  | H : context [if ?b then _ else _] |- _ => destruct b eqn:?
  | |- context [if ?b then _ else _] => destruct b eqn:?
  end; simplify_eq/=); eauto 10.

Lemma mem_rejected_no_effect c (r r' : Remote) e :
  perform c r = (r', Rejected e) → r' = r.
Proof. destruct c; law_tac. Qed.

Lemma mem_offline_rejects c (r : Remote) :
  sv_online r = false → ∃ e, perform c r = (r, Rejected e).
Proof. law_tac. Qed.

Lemma mem_get_sound (r r' : Remote) u :
  perform AccountGet r = (r', Resolved u) → r' = r ∧ sv_user r = Some u.
Proof. law_tac. Qed.

Lemma mem_get_complete (r : Remote) u :
  sv_online r = true → sv_user r = Some u → perform AccountGet r = (r, Resolved u).
Proof. law_tac. Qed.

Lemma mem_get_guest (r : Remote) :
  sv_user r = None → ∃ e, perform AccountGet r = (r, Rejected e).
Proof. law_tac. Qed.

Lemma mem_session_sound e p (r r' : Remote) ses :
  perform (CreateEmailPasswordSession e p) r = (r', Resolved ses) →
  ∃ u, sv_account r e = Some (u, p) ∧ sv_user r' = Some u ∧
       sv_account r' = sv_account r ∧ sv_online r' = sv_online r.
Proof. law_tac. apply String.eqb_eq in Heqb0. subst. eexists; split; [done|]. done. Qed.

Lemma mem_session_complete e p (r : Remote) u :
  sv_online r = true → sv_account r e = Some (u, p) →
  ∃ r' ses, perform (CreateEmailPasswordSession e p) r = (r', Resolved ses).
Proof. law_tac. by rewrite String.eqb_refl in Heqb0. Qed.

Lemma mem_session_unknown e p (r : Remote) :
  sv_account r e = None →
  ∃ err, perform (CreateEmailPasswordSession e p) r = (r, Rejected err).
Proof. law_tac. Qed.

Lemma mem_create_sound uid e p n (r r' : Remote) u :
  perform (AccountCreate uid e p n) r = (r', Resolved u) →
  sv_account r e = None ∧ sv_account r' e = Some (u, p) ∧
  user_email u = e ∧ user_name u = n ∧ sv_user r' = sv_user r ∧
  (∀ e', e' ≠ e → sv_account r' e' = sv_account r e') ∧
  sv_online r' = sv_online r.
Proof.
  law_tac. split_and!; try done; [by rewrite lookup_insert_eq|].
  intros e' Hne. by rewrite lookup_insert_ne.
Qed.

Lemma mem_create_complete uid e p n (r : Remote) :
  sv_online r = true → sv_account r e = None →
  ∃ r' u, perform (AccountCreate uid e p n) r = (r', Resolved u).
Proof. law_tac. Qed.

Lemma mem_create_duplicate uid e p n (r : Remote) a :
  sv_account r e = Some a →
  ∃ err, perform (AccountCreate uid e p n) r = (r, Rejected err).
Proof. law_tac. Qed.

Lemma mem_delete_sound sid (r r' : Remote) x :
  perform (DeleteSession sid) r = (r', Resolved x) →
  sv_user r' = None ∧ sv_account r' = sv_account r ∧ sv_online r' = sv_online r.
Proof. law_tac. Qed.

Lemma mem_delete_complete (r : Remote) u :
  sv_online r = true → sv_user r = Some u →
  ∃ r', perform (DeleteSession "current") r = (r', Resolved tt).
Proof. law_tac. Qed.

Lemma mem_delete_guest sid (r : Remote) :
  sv_user r = None → ∃ e, perform (DeleteSession sid) r = (r, Rejected e).
Proof. law_tac. Qed.

#[export] Instance memory_service_laws : SessionServiceLaws Remote := {
  rejected_no_effect := mem_rejected_no_effect;
  offline_rejects := mem_offline_rejects;
  get_sound := mem_get_sound;
  get_complete := mem_get_complete;
  get_guest := mem_get_guest;
  session_sound := mem_session_sound;
  session_complete := mem_session_complete;
  session_unknown := mem_session_unknown;
  create_sound := mem_create_sound;
  create_complete := mem_create_complete;
  create_duplicate := mem_create_duplicate;
  delete_sound := mem_delete_sound;
  delete_complete := mem_delete_complete;
  delete_guest := mem_delete_guest;
}.

Definition mem_set_online (b : bool) (r : Remote) : Remote :=
  mkRemote (accounts r) (session r) (next_session r) b.

Definition mem_expire (r : Remote) : Remote := with_session r None (next_session r).

#[export] Instance memory_env : ServiceEnv Remote := {
  set_online := mem_set_online;
  expire := mem_expire;
  set_online_spec b s := conj eq_refl (conj eq_refl eq_refl);
  expire_spec s := conj eq_refl (conj eq_refl eq_refl);
}.

(** A fresh service: no accounts, no session, network up. *)
Definition empty_remote : Remote := mkRemote ∅ None 0 true.

(** A service holding one account and no session. *)
Definition alice : User := mkUser "u1" "alice@example.com" "Alice" ∅.

Definition alice_remote : Remote :=
  mkRemote {[ "alice@example.com" := mkAccount alice "secret-pw" ]} None 0 true.

(** The same service after Alice signed in. *)
Definition alice_signed_in : Remote :=
  with_session alice_remote (Some ("s0", alice)) 1.

(** Alice signed out again. *)
Definition alice_signed_out : Remote := with_session alice_remote None 1.

(** Bob registered next to Alice and signed in. *)
Definition bob : User := mkUser "u2" "bob@example.com" "Bob" ∅.

Definition bob_registered : Remote :=
  mkRemote (<[ "bob@example.com" := mkAccount bob "pw-bob" ]> (accounts alice_remote))
           (Some ("s0", bob)) 1 true.

End MemoryService.
