(* ===== verification/Auth.v ===== *)
(** * The auth flows: [src/appwrite/auth.ts]

    [register], [login] and [logout] as flows of awaited SDK calls, in
    the order the source awaits them, with no [try]: a rejection of any
    call rejects the flow with the same exception.  [ID.unique()] is
    evaluated by the caller of [register] and passed in as [uid].

    The theorems hold for every service that satisfies
    [SessionServiceLaws] (the section's context): the success
    contracts, completeness when the network is up and the credentials
    are right, every error path (unknown account, duplicate email,
    guest logout), and the absence of rollback in [register]. *)

From S2P Require Import Prelude Service MemoryService.

Module Auth.

(** [auth.ts] lines 4-8. *)
Definition register (uid email password name : string) : prog User :=
  _ <- await AccountCreate uid email password name ;;
  _ <- await CreateEmailPasswordSession email password ;;
  me <- await AccountGet ;;
  Done me.

(** [auth.ts] lines 10-13. *)
Definition login (email password : string) : prog User :=
  _ <- await CreateEmailPasswordSession email password ;;
  me <- await AccountGet ;;
  Done me.

(** [auth.ts] lines 15-17. *)
Definition logout : prog unit :=
  r <- await DeleteSession "current" ;;
  Done r.

Section Contracts.
Context {S : Type} `{SessionServiceLaws S}.

(** Once [createEmailPasswordSession] resolved, the [account.get()]
    that follows it resolves with the session's user in the same
    state: the tail shared by [login] and [register]. *)
Lemma session_then_get e p s s1 ses :
  perform (CreateEmailPasswordSession e p) s = (s1, Resolved ses) →
  ∃ u, sv_account s e = Some (u, p) ∧ sv_user s1 = Some u ∧
       sv_account s1 = sv_account s ∧ perform AccountGet s1 = (s1, Resolved u).
Proof.
  intros Hc. pose proof (resolved_online _ _ _ _ Hc) as Hon.
  destruct (session_sound _ _ _ _ _ Hc) as (u & Ha & Hu & Hacc & Ho).
  exists u. split_and!; [done|done|done|]. apply get_complete; [congruence|done].
Qed.

(** Every run of [login]: it resolves with the stored user, who is now
    the session's user, or it rejects with no effect. *)
Lemma login_run_inv e p s s' o :
  run_prog (login e p) s = (s', o) →
  (∃ u, o = Resolved u ∧ sv_account s e = Some (u, p) ∧ sv_user s' = Some u ∧
        sv_account s' = sv_account s) ∨
  (∃ err, o = Rejected err ∧ s' = s).
Proof.
  intros Hrun. unfold login in Hrun. run_inv Hrun;
    try (destruct (session_then_get _ _ _ _ _ Hc) as (u & Ha & Hu & Hacc & Hg)).
  - rewrite Hg in Hc0. split_outcomes. left. eauto 10.
  - congruence.
  - right. eauto using rejected_no_effect.
Qed.

(** Every run of [register]: it resolves with a user carrying the
    submitted email and name, stored under that email where there was
    none and now the session's user, or it rejects with no effect. *)
Lemma register_run_inv uid e p n s s' o :
  run_prog (register uid e p n) s = (s', o) →
  (∃ u, o = Resolved u ∧ user_email u = e ∧ user_name u = n ∧ sv_user s' = Some u ∧
        sv_account s' e = Some (u, p) ∧ sv_account s e = None) ∨
  (∃ err, o = Rejected err ∧ s' = s).
Proof.
  intros Hrun. unfold register in Hrun. run_inv Hrun;
    try (destruct (create_sound _ _ _ _ _ _ _ Hc) as (Hnone & Ha & He & Hn & _ & _ & Ho);
         pose proof (resolved_online _ _ _ _ Hc) as Hon);
    try (destruct (session_then_get _ _ _ _ _ Hc0) as (u & Ha' & Hu & Hacc & Hg)).
  - rewrite Hg in Hc1. injection Hc1 as <- <-. rewrite Ha in Ha'. injection Ha' as <-.
    left. eexists. split_and!; [done|done|done|done|by rewrite Hacc|done].
  - congruence.
  - destruct (session_complete e p x x0) as (s2 & ses & Hc2); [congruence|done|].
    congruence.
  - right. eauto using rejected_no_effect.
Qed.

(** Every run of [logout]: it resolves and the session is gone, or it
    rejects with no effect. *)
Lemma logout_run_inv s s' o :
  run_prog logout s = (s', o) →
  (o = Resolved tt ∧ sv_user s' = None ∧ sv_account s' = sv_account s) ∨
  (∃ err, o = Rejected err ∧ s' = s).
Proof.
  intros Hrun. unfold logout in Hrun. run_inv Hrun.
  - destruct (delete_sound _ _ _ _ Hc) as (? & ? & _). destruct x0. by left.
  - right. eauto using rejected_no_effect.
Qed.

(** Without a session, [logout] rejects and changes nothing. *)
Lemma logout_guest s :
  sv_user s = None → ∃ err, run_prog logout s = (s, Rejected err).
Proof.
  intros Hu. destruct (delete_guest "current" s Hu) as [err Hc].
  exists err. by apply run_prog_await_rejected_id.
Qed.

(** [C29] A successful [login] returns the user of the account stored
    under that email with that password, makes it the user of the
    current session, and changes no account. *)
Theorem login_ok e p s s' u :
  run_prog (login e p) s = (s', Resolved u) →
  sv_account s e = Some (u, p) ∧ sv_user s' = Some u ∧ sv_account s' = sv_account s.
Proof.
  intros Hrun. destruct (login_run_inv _ _ _ _ _ Hrun) as [(u' & Hu' & Hrest)|(err & ? & _)];
    [injection Hu' as <-; done | discriminate].
Qed.

(** [C31] [login] succeeds, with the stored user, whenever the network
    is up and the credentials match an account. *)
Theorem login_complete e p s u :
  sv_online s = true → sv_account s e = Some (u, p) →
  ∃ s', run_prog (login e p) s = (s', Resolved u).
Proof.
  intros Hon Ha. destruct (session_complete _ _ _ _ Hon Ha) as (s1 & ses & Hc).
  destruct (session_then_get _ _ _ _ _ Hc) as (u' & Ha' & _ & _ & Hg).
  rewrite Ha in Ha'. simplify_eq. exists s1. unfold login.
  rewrite (run_prog_await_resolved _ _ _ _ _ Hc). cbv beta.
  by rewrite (run_prog_await_resolved _ _ _ _ _ Hg).
Qed.

(** [C30] [login] with the email of no account rejects and changes
    nothing (spec 8, second property, at the level of [auth.ts]). *)
Theorem login_unknown e p s :
  sv_account s e = None → ∃ err, run_prog (login e p) s = (s, Rejected err).
Proof.
  intros Ha. destruct (session_unknown e p s Ha) as [err Hc].
  exists err. by apply run_prog_await_rejected_id.
Qed.

(** [C35] Run alone, [login] is all-or-nothing: when it rejects, the
    remote state is the one it started from. *)
Theorem login_rejected_no_effect e p s s' err :
  run_prog (login e p) s = (s', Rejected err) → s' = s.
Proof.
  intros Hrun. by destruct (login_run_inv _ _ _ _ _ Hrun) as [(u & ? & _)|(? & _ & ->)].
Qed.

(** [C1] A successful [register] returns a user whose email and name
    are the ones submitted, that user is the user of the current
    session, and the account is stored under that email with that
    password where there was none (spec 8, first property). *)
Theorem register_ok uid e p n s s' u :
  run_prog (register uid e p n) s = (s', Resolved u) →
  user_email u = e ∧ user_name u = n ∧ sv_user s' = Some u ∧
  sv_account s' e = Some (u, p) ∧ sv_account s e = None.
Proof.
  intros Hrun.
  destruct (register_run_inv _ _ _ _ _ _ _ Hrun) as [(u' & Hu' & Hrest)|(err & ? & _)];
    [injection Hu' as <-; done | discriminate].
Qed.

(** [C32] [register] succeeds whenever the network is up and no
    account uses the email. *)
Theorem register_complete uid e p n s :
  sv_online s = true → sv_account s e = None →
  ∃ s' u, run_prog (register uid e p n) s = (s', Resolved u).
Proof.
  intros Hon Hnone.
  destruct (create_complete uid e p n s Hon Hnone) as (s1 & u & Hc).
  destruct (create_sound _ _ _ _ _ _ _ Hc) as (_ & Ha & _ & _ & _ & _ & Ho).
  destruct (session_complete e p s1 u) as (s2 & ses & Hc2); [congruence|done|].
  destruct (session_then_get _ _ _ _ _ Hc2) as (u' & _ & _ & _ & Hg).
  exists s2, u'. unfold register.
  rewrite (run_prog_await_resolved _ _ _ _ _ Hc). cbv beta.
  rewrite (run_prog_await_resolved _ _ _ _ _ Hc2). cbv beta.
  by rewrite (run_prog_await_resolved _ _ _ _ _ Hg).
Qed.

(** [C33] [register] with an email already in use rejects before
    anything changes. *)
Theorem register_duplicate uid e p n s a :
  sv_account s e = Some a →
  ∃ err, run_prog (register uid e p n) s = (s, Rejected err).
Proof.
  intros Ha. destruct (create_duplicate uid e p n s a Ha) as [err Hc].
  exists err. by apply run_prog_await_rejected_id.
Qed.

(** [C34] Run alone, [register] is all-or-nothing: there is no
    rollback in the source, yet once [account.create] resolved the
    session and the user fetch that follow cannot fail, so a rejected
    [register] leaves the remote state as it found it.  An orphaned
    account needs a failure between the awaits, which only an
    interleaving (a network drop) produces. *)
Theorem register_rejected_no_effect uid e p n s s' err :
  run_prog (register uid e p n) s = (s', Rejected err) → s' = s.
Proof.
  intros Hrun.
  by destruct (register_run_inv _ _ _ _ _ _ _ Hrun) as [(u & ? & _)|(? & _ & ->)].
Qed.

(** [C36] A successful [logout] ends the session and keeps every
    account. *)
Theorem logout_ok s s' r :
  run_prog logout s = (s', Resolved r) →
  sv_user s' = None ∧ sv_account s' = sv_account s.
Proof.
  intros Hrun. by destruct (logout_run_inv _ _ _ Hrun) as [(_ & ? & ?)|(? & ? & _)].
Qed.

(** [C37] [logout] without a session rejects and changes nothing;
    with a session and the network up it resolves. *)
Theorem logout_guest_or_complete s :
  (sv_user s = None → ∃ err, run_prog logout s = (s, Rejected err)) ∧
  (sv_online s = true → sv_user s ≠ None → ∃ s', run_prog logout s = (s', Resolved tt)).
Proof.
  split; [apply logout_guest|].
  intros Hon Hu. destruct (sv_user s) as [u|] eqn:Hu'; [|done].
  destruct (delete_complete s u Hon Hu') as [s' Hc]. exists s'.
  unfold logout. by rewrite (run_prog_await_resolved _ _ _ _ _ Hc).
Qed.

End Contracts.

(** ** Witnesses on the in-memory service *)

Section Witnesses.
Import MemoryService.

Lemma register_ok_witness :
  run_prog (register "u2" "bob@example.com" "pw-bob" "Bob") alice_remote =
    (bob_registered, Resolved bob) ∧
  (user_email bob = "bob@example.com" ∧ user_name bob = "Bob" ∧
   sv_user bob_registered = Some bob ∧
   sv_account bob_registered "bob@example.com" = Some (bob, "pw-bob") ∧
   sv_account alice_remote "bob@example.com" = None).
Proof.
  assert (H : run_prog (register "u2" "bob@example.com" "pw-bob" "Bob") alice_remote =
              (bob_registered, Resolved bob)) by (vm_compute; reflexivity).
  split; [exact H | exact (register_ok _ _ _ _ _ _ _ H)].
Defined.

Lemma login_ok_witness :
  run_prog (login "alice@example.com" "secret-pw") alice_remote =
    (alice_signed_in, Resolved alice) ∧
  (sv_account alice_remote "alice@example.com" = Some (alice, "secret-pw") ∧
   sv_user alice_signed_in = Some alice ∧
   sv_account alice_signed_in = sv_account alice_remote).
Proof.
  assert (H : run_prog (login "alice@example.com" "secret-pw") alice_remote =
              (alice_signed_in, Resolved alice)) by (vm_compute; reflexivity).
  split; [exact H | exact (login_ok _ _ _ _ _ H)].
Defined.

Lemma login_complete_witness :
  sv_online alice_remote = true ∧
  sv_account alice_remote "alice@example.com" = Some (alice, "secret-pw") ∧
  ∃ s', run_prog (login "alice@example.com" "secret-pw") alice_remote = (s', Resolved alice).
Proof.
  assert (H1 : sv_online alice_remote = true) by reflexivity.
  assert (H2 : sv_account alice_remote "alice@example.com" = Some (alice, "secret-pw"))
    by reflexivity.
  split_and!; [exact H1 | exact H2 | exact (login_complete _ _ _ _ H1 H2)].
Defined.

Lemma login_unknown_witness :
  sv_account alice_remote "bob@example.com" = None ∧
  ∃ err, run_prog (login "bob@example.com" "pw") alice_remote = (alice_remote, Rejected err).
Proof.
  assert (H : sv_account alice_remote "bob@example.com" = None) by reflexivity.
  split; [exact H | exact (login_unknown _ "pw" _ H)].
Defined.

Lemma login_rejected_no_effect_witness :
  run_prog (login "alice@example.com" "wrong") alice_remote =
    (alice_remote, Rejected err_credentials) ∧ alice_remote = alice_remote.
Proof.
  assert (H : run_prog (login "alice@example.com" "wrong") alice_remote =
              (alice_remote, Rejected err_credentials)) by (vm_compute; reflexivity).
  split; [exact H | exact (login_rejected_no_effect _ _ _ _ _ H)].
Defined.

Lemma register_complete_witness :
  sv_online alice_remote = true ∧ sv_account alice_remote "bob@example.com" = None ∧
  ∃ s' u, run_prog (register "u2" "bob@example.com" "pw-bob" "Bob") alice_remote =
          (s', Resolved u).
Proof.
  assert (H1 : sv_online alice_remote = true) by reflexivity.
  assert (H2 : sv_account alice_remote "bob@example.com" = None) by reflexivity.
  split_and!; [exact H1 | exact H2 | exact (register_complete "u2" _ "pw-bob" "Bob" _ H1 H2)].
Defined.

Lemma register_duplicate_witness :
  sv_account alice_remote "alice@example.com" = Some (alice, "secret-pw") ∧
  ∃ err, run_prog (register "u9" "alice@example.com" "other" "Eve") alice_remote =
         (alice_remote, Rejected err).
Proof.
  assert (H : sv_account alice_remote "alice@example.com" = Some (alice, "secret-pw"))
    by reflexivity.
  split; [exact H | exact (register_duplicate "u9" _ "other" "Eve" _ _ H)].
Defined.

Lemma register_rejected_no_effect_witness :
  run_prog (register "u9" "alice@example.com" "other" "Eve") alice_remote =
    (alice_remote, Rejected err_conflict) ∧ alice_remote = alice_remote.
Proof.
  assert (H : run_prog (register "u9" "alice@example.com" "other" "Eve") alice_remote =
              (alice_remote, Rejected err_conflict)) by (vm_compute; reflexivity).
  split; [exact H | exact (register_rejected_no_effect _ _ _ _ _ _ _ H)].
Defined.

Lemma logout_ok_witness :
  run_prog logout alice_signed_in = (alice_signed_out, Resolved tt) ∧
  (sv_user alice_signed_out = None ∧ sv_account alice_signed_out = sv_account alice_signed_in).
Proof.
  assert (H : run_prog logout alice_signed_in = (alice_signed_out, Resolved tt))
    by (vm_compute; reflexivity).
  split; [exact H | exact (logout_ok _ _ _ H)].
Defined.

Lemma logout_guest_or_complete_witness :
  sv_user alice_remote = None ∧
  (∃ err, run_prog logout alice_remote = (alice_remote, Rejected err)) ∧
  sv_online alice_signed_in = true ∧ sv_user alice_signed_in ≠ None ∧
  (∃ s', run_prog logout alice_signed_in = (s', Resolved tt)).
Proof.
  assert (H1 : sv_user alice_remote = None) by reflexivity.
  assert (H2 : sv_online alice_signed_in = true) by reflexivity.
  assert (H3 : sv_user alice_signed_in ≠ None) by discriminate.
  split_and!; [exact H1 | exact (proj1 (logout_guest_or_complete _) H1) | exact H2 | exact H3 |
               exact (proj2 (logout_guest_or_complete _) H2 H3)].
Defined.
End Witnesses.

End Auth.
