(* ===== verification/Screens.v ===== *)
(** * The screens: [src/app/index.tsx], [(auth)/login.tsx],
      [(auth)/register.tsx], [home.tsx]

    Each screen is a React component reading [user] from [AuthContext].
    Its first decision is the view gate ([if (user) return <Redirect
    href="/home" />] or its converse on [home]): [gate].  Its local
    state ([useState]) is a record per screen.  Each async handler is
    split at its [await], the only point where other events can run:
    - [*_start]: the synchronous prefix: the validation guard with its
      "Missing info" alert and early return, [setLoading(true)], and
      the flow to await (with the arguments the source passes:
      [email.trim()], [password], [name.trim()]);
    - [*_finish]: what runs when the flow settles: [setUser(me)] or
      [setUser(null)] in [try], the failure alert in [catch],
      [setLoading(false)] in [finally].
    The [disabled={loading}] of each button is [press_*]: a press while
    loading does nothing.  [*_run] composes start, the flow run alone on
    the service ([run_prog]) and finish: the behaviour of one press
    when nothing else happens meanwhile. *)

From S2P Require Import Prelude JsString Service MemoryService Auth.

Module Screens.
Import JsString.

(** The routes of the Stack in [_layout.tsx]. *)
Inductive route := RIndex | RLogin | RRegister | RHome.

#[export] Instance route_eq_dec : EqDecision route.
Proof. solve_decision. Defined.

(** What a screen component returns. *)
Inductive view := Redirect (to : route) | Render.

(** The view gate of each screen: [index.tsx] line 8, [login.tsx]
    line 14 and [register.tsx] line 15 ([if (user) return <Redirect
    href="/home" />]), [home.tsx] line 11 ([if (!user) return <Redirect
    href="/" />]). *)
Definition index_gate (user : option User) : view :=
  match user with Some _ => Redirect RHome | None => Render end.

Definition login_gate (user : option User) : view :=
  match user with Some _ => Redirect RHome | None => Render end.

Definition register_gate (user : option User) : view :=
  match user with Some _ => Redirect RHome | None => Render end.

Definition home_gate (user : option User) : view :=
  match user with Some _ => Render | None => Redirect RIndex end.

(** The screen the Stack mounts for each route. *)
Definition gate (r : route) (user : option User) : view :=
  match r with
  | RIndex => index_gate user
  | RLogin => login_gate user
  | RRegister => register_gate user
  | RHome => home_gate user
  end.

(** [Alert.alert(title, body)]. *)
Record Alert := mkAlert { alert_title : string; alert_body : string }.

(** [e?.message ?? 'Unknown error']. *)
Definition error_text (e : Exception) : string :=
  match message e with Some m => m | None => "Unknown error" end.

(** ** [login.tsx] *)

Record LoginForm := mkLoginForm {
  lf_email : string; lf_password : string; lf_loading : bool }.

Definition login_init : LoginForm := mkLoginForm "" "" false.

Definition set_lf_loading (f : LoginForm) (b : bool) : LoginForm :=
  mkLoginForm (lf_email f) (lf_password f) b.

(** [onChangeText={setEmail}] and [onChangeText={setPassword}], lines
    40-41: the fields hold the text exactly as typed. *)
Definition lf_setEmail (f : LoginForm) (v : string) : LoginForm :=
  mkLoginForm v (lf_password f) (lf_loading f).

Definition lf_setPassword (f : LoginForm) (v : string) : LoginForm :=
  mkLoginForm (lf_email f) v (lf_loading f).

(** [fillTestCredentials], lines 16-19. *)
Definition fillTestCredentials (f : LoginForm) : LoginForm :=
  mkLoginForm "jimmuell@aol.com" "12345678" (lf_loading f).

Definition missing_login : Alert := mkAlert "Missing info" "Please enter email and password.".

(** [onLogin] up to its await, lines 21-28. *)
Definition onLogin_start (f : LoginForm) : LoginForm * list Alert * option (prog User) :=
  if is_falsy (lf_email f) || is_falsy (lf_password f) then (f, [missing_login], None)
  else (set_lf_loading f true, [], Some (Auth.login (trim (lf_email f)) (lf_password f))).

(** [onLogin] after its await, lines 28-34. *)
Definition onLogin_finish (o : outcome User) (user : option User) (f : LoginForm)
    : option User * LoginForm * list Alert :=
  match o with
  | Resolved me => (Some me, set_lf_loading f false, [])
  | Rejected e => (user, set_lf_loading f false, [mkAlert "Login failed" (error_text e)])
  end.

(** The sign-in button, line 45: [onPress={onLogin} disabled={loading}]. *)
Definition press_login (f : LoginForm) : LoginForm * list Alert * option (prog User) :=
  if lf_loading f then (f, [], None) else onLogin_start f.

(** ** [register.tsx] *)

Record RegisterForm := mkRegisterForm {
  rf_name : string; rf_email : string; rf_password : string; rf_loading : bool }.

Definition register_init : RegisterForm := mkRegisterForm "" "" "" false.

Definition set_rf_loading (f : RegisterForm) (b : bool) : RegisterForm :=
  mkRegisterForm (rf_name f) (rf_email f) (rf_password f) b.

(** The three fields, lines 36-38. *)
Definition rf_setName (f : RegisterForm) (v : string) : RegisterForm :=
  mkRegisterForm v (rf_email f) (rf_password f) (rf_loading f).

Definition rf_setEmail (f : RegisterForm) (v : string) : RegisterForm :=
  mkRegisterForm (rf_name f) v (rf_password f) (rf_loading f).

Definition rf_setPassword (f : RegisterForm) (v : string) : RegisterForm :=
  mkRegisterForm (rf_name f) (rf_email f) v (rf_loading f).

Definition missing_register : Alert :=
  mkAlert "Missing info" "Please enter name, email, and password.".

(** [onRegister] up to its await, lines 17-24; [uid] is the value of
    [ID.unique()] evaluated inside [register]. *)
Definition onRegister_start (uid : string) (f : RegisterForm)
    : RegisterForm * list Alert * option (prog User) :=
  if is_falsy (rf_name f) || is_falsy (rf_email f) || is_falsy (rf_password f)
  then (f, [missing_register], None)
  else (set_rf_loading f true, [],
        Some (Auth.register uid (trim (rf_email f)) (rf_password f) (trim (rf_name f)))).

(** [onRegister] after its await, lines 24-30. *)
Definition onRegister_finish (o : outcome User) (user : option User) (f : RegisterForm)
    : option User * RegisterForm * list Alert :=
  match o with
  | Resolved me => (Some me, set_rf_loading f false, [])
  | Rejected e => (user, set_rf_loading f false, [mkAlert "Register failed" (error_text e)])
  end.

(** The create button, line 39. *)
Definition press_register (uid : string) (f : RegisterForm)
    : RegisterForm * list Alert * option (prog User) :=
  if rf_loading f then (f, [], None) else onRegister_start uid f.

(** ** [home.tsx] *)

Record HomeState := mkHomeState { hs_loading : bool }.

Definition home_init : HomeState := mkHomeState false.

(** [onLogout] up to its await, lines 13-16: no guard. *)
Definition onLogout_start (h : HomeState) : HomeState * option (prog unit) :=
  (mkHomeState true, Some Auth.logout).

(** [onLogout] after its await, lines 16-22. *)
Definition onLogout_finish (o : outcome unit) (user : option User) (h : HomeState)
    : option User * HomeState * list Alert :=
  match o with
  | Resolved _ => (None, mkHomeState false, [])
  | Rejected e => (user, mkHomeState false, [mkAlert "Logout failed" (error_text e)])
  end.

(** The sign-out button, line 29. *)
Definition press_logout (h : HomeState) : HomeState * option (prog unit) :=
  if hs_loading h then (h, None) else onLogout_start h.

(** The greeting, line 27: [Hello{user?.name ? `, ${user.name}` : ''}!]. *)
Definition greeting (u : User) : string :=
  "Hello" ++ (if is_falsy (user_name u) then "" else ", " ++ user_name u) ++ "!".

(** ** One press run alone against the service *)

Section Run.
Context {S : Type} `{SessionService S}.

Definition onLogin_run (f : LoginForm) (user : option User) (s : S)
    : option User * LoginForm * list Alert * S :=
  match press_login f with
  | (f1, al, None) => (user, f1, al, s)
  | (f1, al, Some p) =>
      let '(s', o) := run_prog p s in
      let '(user', f2, al') := onLogin_finish o user f1 in
      (user', f2, (al ++ al')%list, s')
  end.

Definition onRegister_run (uid : string) (f : RegisterForm) (user : option User) (s : S)
    : option User * RegisterForm * list Alert * S :=
  match press_register uid f with
  | (f1, al, None) => (user, f1, al, s)
  | (f1, al, Some p) =>
      let '(s', o) := run_prog p s in
      let '(user', f2, al') := onRegister_finish o user f1 in
      (user', f2, (al ++ al')%list, s')
  end.

Definition onLogout_run (h : HomeState) (user : option User) (s : S)
    : option User * HomeState * list Alert * S :=
  match press_logout h with
  | (h1, None) => (user, h1, [], s)
  | (h1, Some p) =>
      let '(s', o) := run_prog p s in
      let '(user', h2, al) := onLogout_finish o user h1 in
      (user', h2, al, s')
  end.
End Run.

(** ** The view gate *)

(** Where a gate redirects, the screen renders. *)
Lemma gate_target_renders (r : route) (user : option User) r' :
  gate r user = Redirect r' → gate r' user = Render.
Proof. destruct r, user; simpl; intros H; by simplify_eq. Qed.

(** [C13] The gate follows the spec's table (4.4): a screen renders
    exactly when it is [home] with a user or another screen without
    one, and every redirect lands on a screen that renders, so
    redirects never chain or loop. *)
Theorem gate_spec (r : route) (user : option User) :
  (gate r user = Render ↔ (r = RHome ↔ is_Some user)) ∧
  (∀ r', gate r user = Redirect r' → gate r' user = Render).
Proof.
  split; [|apply gate_target_renders].
  destruct r, user as [u|]; simpl; (split; [intros H0; try discriminate H0; split; intros; done|]);
    intros [H1 H2]; try done; exfalso;
    first [exact (is_Some_None (H1 eq_refl)) | discriminate (H2 (mk_is_Some _ _ eq_refl))].
Qed.

(** ** Validation and the disabled buttons *)

(** A press on a disabled (loading) button does nothing. *)
Lemma press_loading_noop (f : LoginForm) (g : RegisterForm) uid (h : HomeState) :
  (lf_loading f = true → press_login f = (f, [], None)) ∧
  (rf_loading g = true → press_register uid g = (g, [], None)) ∧
  (hs_loading h = true → press_logout h = (h, None)).
Proof. unfold press_login, press_register, press_logout. split_and!; by intros ->. Qed.

Lemma is_falsy_empty (s : string) : is_falsy s = true ↔ s = "".
Proof. destruct s; simpl; split; congruence. Qed.

(** With the button enabled and both fields non-empty, a press starts
    [login] on the trimmed email and the password as typed. *)
Lemma press_login_submits (f : LoginForm) :
  lf_loading f = false → lf_email f ≠ "" → lf_password f ≠ "" →
  press_login f = (set_lf_loading f true, [],
                   Some (Auth.login (trim (lf_email f)) (lf_password f))).
Proof.
  intros Hl He Hp. unfold press_login, onLogin_start. rewrite Hl.
  destruct (is_falsy (lf_email f)) eqn:E1; [by apply is_falsy_empty in E1|].
  destruct (is_falsy (lf_password f)) eqn:E2; [by apply is_falsy_empty in E2|]. done.
Qed.

(** An enabled sign-in press either stops at the guard or starts
    [login] on the trimmed email. *)
Lemma press_login_cases (f : LoginForm) :
  lf_loading f = false →
  press_login f = (f, [missing_login], None) ∨
  press_login f = (set_lf_loading f true, [],
                   Some (Auth.login (trim (lf_email f)) (lf_password f))).
Proof. intros Hl. unfold press_login, onLogin_start. rewrite Hl. case_match; auto. Qed.

(** An enabled create-account press either stops at the guard or starts
    [register] on the trimmed email and name. *)
Lemma press_register_cases uid (f : RegisterForm) :
  rf_loading f = false →
  press_register uid f = (f, [missing_register], None) ∨
  press_register uid f = (set_rf_loading f true, [],
    Some (Auth.register uid (trim (rf_email f)) (rf_password f) (trim (rf_name f)))).
Proof. intros Hl. unfold press_register, onRegister_start. rewrite Hl. case_match; auto. Qed.

(** [C6] Sign-in validation: with the button enabled, an empty email
    or password never reaches the service and raises "Missing info";
    otherwise the press starts [login] with the trimmed email and the
    password as typed, and sets [loading]. *)
Theorem onLogin_validation (f : LoginForm) :
  lf_loading f = false →
  ((lf_email f = "" ∨ lf_password f = "") → press_login f = (f, [missing_login], None)) ∧
  (lf_email f ≠ "" → lf_password f ≠ "" →
     press_login f = (set_lf_loading f true, [],
                      Some (Auth.login (trim (lf_email f)) (lf_password f)))).
Proof.
  intros Hl. split; [|by apply press_login_submits].
  unfold press_login, onLogin_start. rewrite Hl.
  intros [He|Hp]; [rewrite He|rewrite Hp, orb_true_r]; done.
Qed.

(** [C14] A whitespace-only email passes the sign-in validation and
    reaches the service as the empty string: the check reads the raw
    field, the call gets [email.trim()]. *)
Theorem onLogin_blank_email (f : LoginForm) :
  lf_loading f = false → lf_email f ≠ "" → all_space (lf_email f) = true →
  lf_password f ≠ "" →
  press_login f = (set_lf_loading f true, [], Some (Auth.login "" (lf_password f))).
Proof.
  intros Hl He Hs Hp. rewrite (press_login_submits f Hl He Hp).
  by rewrite (trim_all_space _ Hs).
Qed.

(** ** One press, run alone *)

Section RunContracts.
Context {S : Type} `{SessionServiceLaws S}.

(** [C2] One sign-in press with the button enabled ends in exactly
    one of two ways.  Success: no alert, the auth state holds the user
    the service stored under the trimmed email with that password,
    that user is the remote session's user, and the gate now sends the
    login screen home (spec 8, third property).  Failure: exactly one
    alert ("Missing info" or "Login failed"), the auth state and the
    remote state unchanged.  Either way the button is enabled again. *)
Theorem onLogin_run_cases (f : LoginForm) user (s : S) :
  lf_loading f = false →
  let '(user', f', al, s') := onLogin_run f user s in
  lf_loading f' = false ∧
  ((al = [] ∧ ∃ me, user' = Some me ∧ sv_user s' = Some me ∧
      sv_account s (trim (lf_email f)) = Some (me, lf_password f) ∧
      gate RLogin user' = Redirect RHome) ∨
   (user' = user ∧ s' = s ∧
      ∃ a, al = [a] ∧ (a = missing_login ∨ alert_title a = "Login failed"))).
Proof.
  intros Hl. unfold onLogin_run.
  destruct (press_login_cases f Hl) as [-> | ->].
  { simpl. split; [done|]. right. split_and!; [done|done|]. eexists; split; [done|by left]. }
  destruct (run_prog (Auth.login _ _) s) as [s' o] eqn:Hrun.
  destruct (Auth.login_run_inv _ _ _ _ _ Hrun) as [(me & -> & Ha & Hu & _)|(e & -> & ->)]; simpl.
  - split; [done|]. left. split; [done|]. eauto 10.
  - split; [done|]. right. split_and!; [done|done|]. eexists; split; [done|by right].
Qed.

(** [C25] One create-account press with the button enabled ends in
    one of two ways.  Success: no alert, the auth state holds the new
    user, whose email and name are the trimmed fields (not the fields
    as typed), it is the remote session's user, no account had that
    email before, and the gate sends the register screen home.
    Failure: exactly one alert, auth state and remote state
    unchanged.  Either way the button is enabled again. *)
Theorem onRegister_run_cases uid (f : RegisterForm) user (s : S) :
  rf_loading f = false →
  let '(user', f', al, s') := onRegister_run uid f user s in
  rf_loading f' = false ∧
  ((al = [] ∧ ∃ me, user' = Some me ∧ sv_user s' = Some me ∧
      user_email me = trim (rf_email f) ∧ user_name me = trim (rf_name f) ∧
      sv_account s (trim (rf_email f)) = None ∧
      gate RRegister user' = Redirect RHome) ∨
   (user' = user ∧ s' = s ∧
      ∃ a, al = [a] ∧ (a = missing_register ∨ alert_title a = "Register failed"))).
Proof.
  intros Hl. unfold onRegister_run.
  destruct (press_register_cases uid f Hl) as [-> | ->].
  { simpl. split; [done|]. right. split_and!; [done|done|]. eexists; split; [done|by left]. }
  destruct (run_prog (Auth.register _ _ _ _) s) as [s' o] eqn:Hrun.
  destruct (Auth.register_run_inv _ _ _ _ _ _ _ Hrun)
    as [(me & -> & He & Hn & Hu & _ & Hnone)|(e & -> & ->)]; simpl.
  - split; [done|]. left. split; [done|]. eauto 10.
  - split; [done|]. right. split_and!; [done|done|]. eexists; split; [done|by right].
Qed.

(** [C26] One sign-out press with the button enabled: on success the
    auth state is cleared, the remote session ended, and the gate
    sends home to the welcome screen (spec 8, fourth property); on
    failure the auth state is kept and a "Logout failed" alert is
    raised. *)
Theorem onLogout_run_cases (h : HomeState) user (s : S) :
  hs_loading h = false →
  let '(user', h', al, s') := onLogout_run h user s in
  hs_loading h' = false ∧
  ((user' = None ∧ al = [] ∧ sv_user s' = None ∧ gate RHome user' = Redirect RIndex) ∨
   (user' = user ∧ s' = s ∧ ∃ e, al = [mkAlert "Logout failed" (error_text e)])).
Proof.
  intros Hl. unfold onLogout_run, press_logout, onLogout_start. rewrite Hl.
  destruct (run_prog Auth.logout s) as [s' o] eqn:Hrun.
  destruct (Auth.logout_run_inv _ _ _ Hrun) as [(-> & Hu & _)|(e & -> & ->)]; simpl.
  - split; [done|]. by left.
  - split; [done|]. right. eauto.
Qed.

(** [C4] Sign-out is stuck once the remote session is gone (expired
    or deleted elsewhere) while the app still holds a user: every
    press raises "Logout failed" and returns to exactly the same
    state, so the user stays on [home] with no way out; the spec's
    "after logout, Auth State is null regardless of its prior value"
    fails. *)
Theorem onLogout_guest_stuck u (s : S) :
  sv_user s = None →
  ∃ e, onLogout_run home_init (Some u) s =
         (Some u, home_init, [mkAlert "Logout failed" (error_text e)], s) ∧
       gate RHome (Some u) = Render.
Proof.
  intros Hu. destruct (Auth.logout_guest s Hu) as [e Hrun].
  exists e. unfold onLogout_run, press_logout, onLogout_start.
  cbn [home_init hs_loading]. by rewrite Hrun.
Qed.

End RunContracts.

(** ** Witnesses on the in-memory service *)

Section Witnesses.
Import MemoryService.

Lemma gate_spec_witness :
  login_gate (Some alice) = Redirect RHome ∧ gate RHome (Some alice) = Render ∧
  (gate RHome None = Render ↔ (RHome = RHome ↔ is_Some (@None User))).
Proof.
  assert (H : gate RLogin (Some alice) = Redirect RHome) by reflexivity.
  split_and!; [exact H | exact (proj2 (gate_spec RLogin (Some alice)) RHome H) |
               exact (proj1 (gate_spec RHome None))].
Defined.

Lemma onLogin_validation_witness :
  lf_loading (mkLoginForm "" "secret-pw" false) = false ∧
  press_login (mkLoginForm "" "secret-pw" false) =
    (mkLoginForm "" "secret-pw" false, [missing_login], None).
Proof.
  assert (H : lf_loading (mkLoginForm "" "secret-pw" false) = false) by reflexivity.
  split; [exact H | exact (proj1 (onLogin_validation _ H) (or_introl eq_refl))].
Defined.

Lemma onLogin_blank_email_witness :
  press_login (mkLoginForm "  " "secret-pw" false) =
    (mkLoginForm "  " "secret-pw" true, [], Some (Auth.login "" "secret-pw")).
Proof.
  exact (onLogin_blank_email (mkLoginForm "  " "secret-pw" false)
           eq_refl ltac:(discriminate) eq_refl ltac:(discriminate)).
Defined.

Lemma onLogin_run_cases_witness :
  lf_loading (mkLoginForm " alice@example.com " "secret-pw" false) = false ∧
  onLogin_run (mkLoginForm " alice@example.com " "secret-pw" false) None alice_remote =
    (Some alice, mkLoginForm " alice@example.com " "secret-pw" false, [], alice_signed_in) ∧
  (let '(user', f', al, s') :=
     onLogin_run (mkLoginForm " alice@example.com " "secret-pw" false) None alice_remote in
   lf_loading f' = false ∧
   ((al = [] ∧ ∃ me, user' = Some me ∧ sv_user s' = Some me ∧
       sv_account alice_remote "alice@example.com" = Some (me, "secret-pw") ∧
       gate RLogin user' = Redirect RHome) ∨
    (user' = None ∧ s' = alice_remote ∧
       ∃ a, al = [a] ∧ (a = missing_login ∨ alert_title a = "Login failed")))).
Proof.
  assert (H : lf_loading (mkLoginForm " alice@example.com " "secret-pw" false) = false)
    by reflexivity.
  assert (Hr : onLogin_run (mkLoginForm " alice@example.com " "secret-pw" false) None alice_remote =
    (Some alice, mkLoginForm " alice@example.com " "secret-pw" false, [], alice_signed_in))
    by (vm_compute; reflexivity).
  split_and!; [exact H | exact Hr | exact (onLogin_run_cases _ None alice_remote H)].
Defined.

Lemma onRegister_run_cases_witness :
  rf_loading (mkRegisterForm "   " "bob@example.com" "pw-bob" false) = false ∧
  (let '(user', f', al, s') :=
     onRegister_run "u2" (mkRegisterForm "   " "bob@example.com" "pw-bob" false) None alice_remote in
   rf_loading f' = false ∧
   ((al = [] ∧ ∃ me, user' = Some me ∧ sv_user s' = Some me ∧
       user_email me = "bob@example.com" ∧ user_name me = "" ∧
       sv_account alice_remote "bob@example.com" = None ∧
       gate RRegister user' = Redirect RHome) ∨
    (user' = None ∧ s' = alice_remote ∧
       ∃ a, al = [a] ∧ (a = missing_register ∨ alert_title a = "Register failed")))).
Proof.
  assert (H : rf_loading (mkRegisterForm "   " "bob@example.com" "pw-bob" false) = false)
    by reflexivity.
  split; [exact H | exact (onRegister_run_cases "u2" _ None alice_remote H)].
Defined.

Lemma onLogout_run_cases_witness :
  hs_loading home_init = false ∧
  onLogout_run home_init (Some alice) alice_signed_in = (None, home_init, [], alice_signed_out) ∧
  (let '(user', h', al, s') := onLogout_run home_init (Some alice) alice_signed_in in
   hs_loading h' = false ∧
   ((user' = None ∧ al = [] ∧ sv_user s' = None ∧ gate RHome user' = Redirect RIndex) ∨
    (user' = Some alice ∧ s' = alice_signed_in ∧
       ∃ e, al = [mkAlert "Logout failed" (error_text e)]))).
Proof.
  assert (H : hs_loading home_init = false) by reflexivity.
  assert (Hr : onLogout_run home_init (Some alice) alice_signed_in =
               (None, home_init, [], alice_signed_out)) by (vm_compute; reflexivity).
  split_and!; [exact H | exact Hr | exact (onLogout_run_cases home_init (Some alice) alice_signed_in H)].
Defined.

Lemma onLogout_guest_stuck_witness :
  sv_user alice_remote = None ∧
  ∃ e, onLogout_run home_init (Some alice) alice_remote =
         (Some alice, home_init, [mkAlert "Logout failed" (error_text e)], alice_remote) ∧
       gate RHome (Some alice) = Render.
Proof.
  assert (H : sv_user alice_remote = None) by reflexivity.
  split; [exact H | exact (onLogout_guest_stuck alice alice_remote H)].
Defined.
End Witnesses.

End Screens.
