(* ===== verification/Layout.v ===== *)
(** * The root layout: [src/app/_layout.tsx]

    [RootLayout] owns the auth state: [user] ([useState<User | null>(null)])
    and [checking] ([useState(true)]).  Its mount effect is the startup
    resolver: [await account.get()], then [setUser(me)] on success,
    [setUser(null)] on any failure (swallowed, never shown), and
    [setChecking(false)] in [finally].  While [checking] it renders a
    spinner and no screen; afterwards the screen of the current route,
    whose first decision is the gate of [Screens].

    Theorems: the resolver always ends [checking], raises nothing, and
    leaves the auth state equal to the remote session's user whenever
    the network is up or there is no session (spec 4.3). *)

From S2P Require Import Prelude Service MemoryService Screens.

Module Layout.
Import Screens.

Record Root := mkRoot { user : option User; checking : bool }.

(** Lines 13-14. *)
Definition root_init : Root := mkRoot None true.

(** What [useContext(AuthContext)] gives a screen: the user and its
    setter ([React.Dispatch] on the root's state). *)
Record AuthCtx := mkAuthCtx {
  ctx_user : option User;
  ctx_setUser : option User → Root → Root }.

(** [AuthContext], lines 7-10: outside the provider, no user and a
    [setUser] that does nothing. *)
Definition AuthContext : AuthCtx := mkAuthCtx None (λ _ r, r).

(** Line 29: the provider's value, [{ user, setUser }]; [setUser]
    replaces the user and leaves [checking] alone. *)
Definition ctx (r : Root) : AuthCtx :=
  mkAuthCtx (user r) (λ u r', mkRoot u (checking r')).

(** The awaited part of the effect, line 19. *)
Definition startup_flow : prog User :=
  me <- await AccountGet ;;
  Done me.

(** Lines 20-25: [try]/[catch]/[finally] after the await. *)
Definition startup_finish (o : outcome User) (r : Root) : Root :=
  match o with
  | Resolved me => mkRoot (Some me) false
  | Rejected _ => mkRoot None false
  end.

(** What the layout shows, lines 31-40. *)
Inductive Rendered := Spinner | Screen (rt : route) (v : view).

Definition render (r : Root) (rt : route) : Rendered :=
  if checking r then Spinner else Screen rt (gate rt (user r)).

(** The effect run alone on the service. *)
Definition startup_run {S} `{SessionService S} (s : S) : Root * S :=
  let '(s', o) := run_prog startup_flow s in (startup_finish o root_init, s').

Section Startup.
Context {S : Type} `{SessionServiceLaws S}.

(** [C15] The startup resolver always settles: it ends [checking],
    changes nothing remotely, and leaves the auth state equal to the
    remote session's user when the network is up; with no session it
    leaves it null (spec 8, fifth property).  Its failure is
    swallowed: the resolver's result has no error to surface. *)
Theorem startup_resolves (s : S) :
  let '(r, s') := startup_run s in
  s' = s ∧ checking r = false ∧
  (sv_online s = true → user r = sv_user s) ∧
  (sv_user s = None → user r = None).
Proof.
  unfold startup_run, startup_flow.
  destruct (run_prog _ s) as [s' [me|e]] eqn:Hrun; run_inv Hrun; simpl.
  - apply get_sound in Hc as [-> Hu]. split_and!; [done|done| |]; intros; congruence.
  - split_and!; [eauto using rejected_no_effect|done| |done].
    intros Hon. destruct (sv_user s) as [u|] eqn:Hu; [|done].
    rewrite (get_complete s u Hon Hu) in Hc. congruence.
Qed.

(** While [checking], every route shows the spinner: no screen, so no
    handler, exists before the resolver settles. *)
Lemma render_checking (r : Root) rt : checking r = true → render r rt = Spinner.
Proof. unfold render. by intros ->. Qed.
End Startup.

Section Witnesses.
Import MemoryService.

Lemma startup_resolves_witness :
  startup_run alice_signed_in = (mkRoot (Some alice) false, alice_signed_in) ∧
  startup_run alice_remote = (mkRoot None false, alice_remote) ∧
  (sv_online alice_signed_in = true → Some alice = sv_user alice_signed_in) ∧
  (sv_user alice_remote = None → @None User = None).
Proof.
  assert (H1 : startup_run alice_signed_in = (mkRoot (Some alice) false, alice_signed_in))
    by (vm_compute; reflexivity).
  assert (H2 : startup_run alice_remote = (mkRoot None false, alice_remote))
    by (vm_compute; reflexivity).
  pose proof (startup_resolves alice_signed_in) as R1. rewrite H1 in R1.
  pose proof (startup_resolves alice_remote) as R2. rewrite H2 in R2.
  split_and!; [exact H1 | exact H2 | apply R1 | apply R2].
Defined.
End Witnesses.

End Layout.
