(* ===== verification/App.v ===== *)
(** * The running application: navigation, flows in flight, environment

    The app is a state machine.  Its state [App] holds the remote
    service, the root layout's [Root] ([user], [checking]), the
    navigation stack of mounted screens (top first; each [Frame] has a
    mount key and the screen's local state), the flows in flight (each
    remembers the key of the screen that started it), the alerts shown
    so far, and the counters for mount keys and [ID.unique()].

    One [Event] is one thing that can happen next: the user types into
    a field, fills the test credentials, presses the screen's button,
    follows a [Link] (push), goes back (pop, the modals' dismissal), an
    awaited SDK call of some flow settles ([EvSettle i]: JavaScript
    resumes one suspended async function), or the environment acts on
    the service (network up or down, session expiry).  [handle] is the
    executable transition function; after every event the top screen
    renders and its gate's [<Redirect>] replaces it ([redirect]).
    While [checking] only the flows and the environment move: no
    screen is mounted for the user to act on.

    A flow that settles runs the rest of its handler at once ([setUser],
    the alert, [setLoading(false)] on its screen if that screen is still
    mounted: React ignores a state update of an unmounted component,
    but [setUser] and [Alert.alert] still happen). *)

From S2P Require Import Prelude JsString Service MemoryService Auth Screens Layout.

Module App.
Import Screens Layout.
Open Scope nat_scope.

(** [ID.unique()] of the SDK: a fresh identifier per call. *)
Definition ID_unique (n : nat) : string := "id" +:+ pretty n.

(** The local state of a mounted screen. *)
Inductive Local :=
| LIndex
| LLogin (f : LoginForm)
| LRegister (f : RegisterForm)
| LHome (h : HomeState).

Definition local_route (l : Local) : route :=
  match l with
  | LIndex => RIndex | LLogin _ => RLogin | LRegister _ => RRegister | LHome _ => RHome
  end.

(** A freshly mounted screen: its [useState] initial values. *)
Definition mount (r : route) : Local :=
  match r with
  | RIndex => LIndex
  | RLogin => LLogin login_init
  | RRegister => LRegister register_init
  | RHome => LHome home_init
  end.

Definition local_loading (l : Local) : bool :=
  match l with
  | LIndex => false
  | LLogin f => lf_loading f
  | LRegister f => rf_loading f
  | LHome h => hs_loading h
  end.

Record Frame := mkFrame { fr_key : nat; fr_local : Local }.

(** A suspended async function: the startup effect, or a handler of the
    screen mounted under [key]. *)
Inductive Flow :=
| FStartup (p : prog User)
| FLogin (key : nat) (p : prog User)
| FRegister (key : nat) (p : prog User)
| FLogout (key : nat) (p : prog unit).

Definition flow_key (fl : Flow) : option nat :=
  match fl with
  | FStartup _ => None
  | FLogin k _ | FRegister k _ => Some k
  | FLogout k _ => Some k
  end.

Definition is_startup (fl : Flow) : bool :=
  match fl with FStartup _ => true | _ => false end.

(** The screen a handler's flow belongs to. *)
Definition flow_route (fl : Flow) : option route :=
  match fl with
  | FStartup _ => None
  | FLogin _ _ => Some RLogin
  | FRegister _ _ => Some RRegister
  | FLogout _ _ => Some RHome
  end.

Record App (S : Type) := mkApp {
  remote : S;
  root : Root;
  stack : list Frame;
  flows : list Flow;
  alerts : list Alert;
  next_key : nat;
  next_id : nat;
}.
Arguments mkApp {S}.
Arguments remote {S}. Arguments root {S}. Arguments stack {S}. Arguments flows {S}.
Arguments alerts {S}. Arguments next_key {S}. Arguments next_id {S}.

Inductive Field := FName | FEmail | FPassword.

Inductive Event :=
| EvType (fld : Field) (v : string)
| EvFillTest
| EvPress
| EvLink (to : route)
| EvBack
| EvSettle (i : nat)
| EvNetwork (up : bool)
| EvExpire.

(** [onChangeText] of the field [fld] of the top screen. *)
Definition type_field (fld : Field) (v : string) (l : Local) : option Local :=
  match l, fld with
  | LLogin f, FEmail => Some (LLogin (lf_setEmail f v))
  | LLogin f, FPassword => Some (LLogin (lf_setPassword f v))
  | LRegister f, FName => Some (LRegister (rf_setName f v))
  | LRegister f, FEmail => Some (LRegister (rf_setEmail f v))
  | LRegister f, FPassword => Some (LRegister (rf_setPassword f v))
  | _, _ => None
  end.

(** The [Link]s of each screen: [index.tsx] lines 12 and 17,
    [login.tsx] line 48. *)
Definition link_allowed (l : Local) (to : route) : bool :=
  match l, to with
  | LIndex, RLogin | LIndex, RRegister | LLogin _, RRegister => true
  | _, _ => false
  end.

(** The button of the top screen (mounted under [key]); [uid] is what
    [ID.unique()] returns if [register] is called. *)
Definition press (key : nat) (uid : string) (l : Local)
    : option (Local * list Alert * option Flow) :=
  match l with
  | LIndex => None
  | LLogin f =>
      let '(f', al, p) := press_login f in Some (LLogin f', al, FLogin key <$> p)
  | LRegister f =>
      let '(f', al, p) := press_register uid f in Some (LRegister f', al, FRegister key <$> p)
  | LHome h =>
      let '(h', p) := press_logout h in Some (LHome h', [], FLogout key <$> p)
  end.

Section Machine.
Context {Sv : Type} `{SessionService Sv} `{!ServiceEnv Sv}.

(** One awaited call of a flow settles: the flow goes on with the rest
    of its body, or it is over with an outcome. *)
Definition step_prog {A} (p : prog A) (s : Sv) : Sv * (prog A + outcome A) :=
  match p with
  | Done a => (s, inr (Resolved a))
  | Await c k =>
      match perform c s with
      | (s', Resolved v) =>
          (s', match k v with Done a => inr (Resolved a) | p' => inl p' end)
      | (s', Rejected e) => (s', inr (Rejected e))
      end
  end.

Definition with_remote (s : Sv) (a : App Sv) : App Sv :=
  mkApp s (root a) (stack a) (flows a) (alerts a) (next_key a) (next_id a).

Definition with_stack (st : list Frame) (a : App Sv) : App Sv :=
  mkApp (remote a) (root a) st (flows a) (alerts a) (next_key a) (next_id a).

(** The local state of the screen mounted under [k], if it still is. *)
Fixpoint local_of (k : nat) (st : list Frame) : option Local :=
  match st with
  | [] => None
  | fr :: st' => if decide (fr_key fr = k) then Some (fr_local fr) else local_of k st'
  end.

(** Apply [g] to the screen mounted under [k]. *)
Definition update_key (k : nat) (g : Local → Local) (st : list Frame) : list Frame :=
  map (λ fr, if decide (fr_key fr = k) then mkFrame k (g (fr_local fr)) else fr) st.

Definition login_form_of (k : nat) (st : list Frame) : LoginForm :=
  match local_of k st with Some (LLogin f) => f | _ => login_init end.

Definition register_form_of (k : nat) (st : list Frame) : RegisterForm :=
  match local_of k st with Some (LRegister f) => f | _ => register_init end.

Definition home_of (k : nat) (st : list Frame) : HomeState :=
  match local_of k st with Some (LHome h) => h | _ => home_init end.

(** The end of a handler once its flow settled with [o]. *)
Definition finish_login (k : nat) (o : outcome User) (a : App Sv) : App Sv :=
  let '(user', f', al) := onLogin_finish o (user (root a)) (login_form_of k (stack a)) in
  mkApp (remote a) (mkRoot user' (checking (root a)))
        (update_key k (λ l, match l with LLogin _ => LLogin f' | _ => l end) (stack a))
        (flows a) (alerts a ++ al) (next_key a) (next_id a).

Definition finish_register (k : nat) (o : outcome User) (a : App Sv) : App Sv :=
  let '(user', f', al) := onRegister_finish o (user (root a)) (register_form_of k (stack a)) in
  mkApp (remote a) (mkRoot user' (checking (root a)))
        (update_key k (λ l, match l with LRegister _ => LRegister f' | _ => l end) (stack a))
        (flows a) (alerts a ++ al) (next_key a) (next_id a).

Definition finish_logout (k : nat) (o : outcome unit) (a : App Sv) : App Sv :=
  let '(user', h', al) := onLogout_finish o (user (root a)) (home_of k (stack a)) in
  mkApp (remote a) (mkRoot user' (checking (root a)))
        (update_key k (λ l, match l with LHome _ => LHome h' | _ => l end) (stack a))
        (flows a) (alerts a ++ al) (next_key a) (next_id a).

Definition finish_startup (o : outcome User) (a : App Sv) : App Sv :=
  mkApp (remote a) (startup_finish o (root a)) (stack a) (flows a) (alerts a)
        (next_key a) (next_id a).

(** The flow [fl] (removed from the list) takes one step on [a]. *)
Definition settle_flow (fl : Flow) (a : App Sv) : App Sv * option Flow :=
  match fl with
  | FStartup p =>
      let '(s', r) := step_prog p (remote a) in
      match r with
      | inl p' => (with_remote s' a, Some (FStartup p'))
      | inr o => (finish_startup o (with_remote s' a), None)
      end
  | FLogin k p =>
      let '(s', r) := step_prog p (remote a) in
      match r with
      | inl p' => (with_remote s' a, Some (FLogin k p'))
      | inr o => (finish_login k o (with_remote s' a), None)
      end
  | FRegister k p =>
      let '(s', r) := step_prog p (remote a) in
      match r with
      | inl p' => (with_remote s' a, Some (FRegister k p'))
      | inr o => (finish_register k o (with_remote s' a), None)
      end
  | FLogout k p =>
      let '(s', r) := step_prog p (remote a) in
      match r with
      | inl p' => (with_remote s' a, Some (FLogout k p'))
      | inr o => (finish_logout k o (with_remote s' a), None)
      end
  end.

(** The [i]-th flow in flight settles its awaited call. *)
Definition settle (i : nat) (a : App Sv) : option (App Sv) :=
  fl ← flows a !! i;
  let '(a', nfl) := settle_flow fl a in
  Some (mkApp (remote a') (root a') (stack a')
              (match nfl with Some fl' => <[i := fl']> (flows a) | None => delete i (flows a) end)
              (alerts a') (next_key a') (next_id a')).

(** The top screen renders; its gate may replace it ([router.replace]). *)
Definition redirect (a : App Sv) : App Sv :=
  if checking (root a) then a else
  match stack a with
  | fr :: rest =>
      match gate (local_route (fr_local fr)) (user (root a)) with
      | Redirect r =>
          mkApp (remote a) (root a) (mkFrame (next_key a) (mount r) :: rest) (flows a)
                (alerts a) (S (next_key a)) (next_id a)
      | Render => a
      end
  | [] => a
  end.

(** What the user does to the top screen [fr] (the rest of the stack is
    [rest]). *)
Definition user_event (ev : Event) (fr : Frame) (rest : list Frame) (a : App Sv)
    : option (App Sv) :=
  match ev with
  | EvType fld v =>
      l' ← type_field fld v (fr_local fr);
      Some (with_stack (mkFrame (fr_key fr) l' :: rest) a)
  | EvFillTest =>
      match fr_local fr with
      | LLogin f => Some (with_stack (mkFrame (fr_key fr) (LLogin (fillTestCredentials f)) :: rest) a)
      | _ => None
      end
  | EvPress =>
      '(l', al, nfl) ← press (fr_key fr) (ID_unique (next_id a)) (fr_local fr);
      let used := match nfl with Some (FRegister _ _) => 1 | _ => 0 end in
      Some (mkApp (remote a) (root a) (mkFrame (fr_key fr) l' :: rest)
                  (flows a ++ option_list nfl) (alerts a ++ al) (next_key a)
                  (next_id a + used))
  | EvLink r =>
      if link_allowed (fr_local fr) r then
        Some (mkApp (remote a) (root a) (mkFrame (next_key a) (mount r) :: fr :: rest)
                    (flows a) (alerts a) (S (next_key a)) (next_id a))
      else None
  | EvBack =>
      match rest with [] => None | _ => Some (with_stack rest a) end
  | _ => None
  end.

(** The transition function: [None] when the event cannot happen. *)
Definition handle (ev : Event) (a : App Sv) : option (App Sv) :=
  redirect <$>
  match ev with
  | EvSettle i => settle i a
  | EvNetwork b => Some (with_remote (set_online b (remote a)) a)
  | EvExpire => Some (with_remote (expire (remote a)) a)
  | _ =>
      if checking (root a) then None else
      match stack a with
      | fr :: rest => user_event ev fr rest a
      | [] => None
      end
  end.

(** The process starts with the welcome screen mounted under the
    spinner and the startup effect suspended on [account.get()]. *)
Definition app_init (s : Sv) : App Sv :=
  mkApp s root_init [mkFrame 1 LIndex] [FStartup startup_flow] [] 2 0.

(** A sequence of events, as long as each one can happen. *)
Fixpoint run_events (evs : list Event) (a : App Sv) : option (App Sv) :=
  match evs with
  | [] => Some a
  | ev :: evs' => a' ← handle ev a; run_events evs' a'
  end.

(** The states the app can reach from a start with service [s0]. *)
Inductive reachable (s0 : Sv) : App Sv → Prop :=
| reach_init : reachable s0 (app_init s0)
| reach_step a ev a' : reachable s0 a → handle ev a = Some a' → reachable s0 a'.

End Machine.

(** ** Lemmas on the stack *)

Lemma local_of_update_key k k' g (st : list Frame) :
  local_of k' (update_key k g st) =
  if decide (k' = k) then g <$> local_of k' st else local_of k' st.
Proof.
  induction st as [|fr st IH]; simpl; [by case_decide|].
  destruct (decide (fr_key fr = k)) as [Hk|Hk]; simpl.
  - subst k. destruct (decide (fr_key fr = k')) as [<-|Hne].
    + by rewrite !decide_True.
    + rewrite IH. by rewrite !decide_False by congruence.
  - destruct (decide (fr_key fr = k')) as [<-|Hne].
    + by rewrite decide_False by congruence.
    + by rewrite IH.
Qed.

Lemma keys_update_key k g (st : list Frame) :
  map fr_key (update_key k g st) = map fr_key st.
Proof. induction st as [|fr st IH]; simpl; [done|]. case_decide; simpl; congruence. Qed.

Lemma elem_of_update_key k g (st : list Frame) fr' :
  fr' ∈ update_key k g st →
  ∃ fr, fr ∈ st ∧ fr_key fr' = fr_key fr ∧
        (fr_key fr = k → fr_local fr' = g (fr_local fr)) ∧
        (fr_key fr ≠ k → fr' = fr).
Proof.
  unfold update_key. intros (fr & -> & Hin)%list_elem_of_fmap.
  exists fr. case_decide; simpl; split_and!; auto; congruence.
Qed.

Lemma local_of_Some k (st : list Frame) l :
  local_of k st = Some l → ∃ fr, fr ∈ st ∧ fr_key fr = k ∧ fr_local fr = l.
Proof.
  induction st as [|fr st IH]; simpl; [done|]. case_decide.
  - intros [= <-]. exists fr. split_and!; [by left|done|done].
  - intros (fr' & ? & ? & ?)%IH. exists fr'. split_and!; [by right|done|done].
Qed.

Lemma local_of_elem k (st : list Frame) fr :
  NoDup (map fr_key st) → fr ∈ st → fr_key fr = k → local_of k st = Some (fr_local fr).
Proof.
  induction st as [|fr' st IH]; simpl; [by intros _ ?%elem_of_nil|].
  intros (Hnot & Hnd)%NoDup_cons [->| Hin]%elem_of_cons Hk; [by rewrite decide_True|].
  rewrite decide_False; [by apply IH|]. intros Heq. apply Hnot.
  apply list_elem_of_fmap. exists fr. split; [congruence|done].
Qed.

Lemma local_of_cons_ne k fr (st : list Frame) :
  fr_key fr ≠ k → local_of k (fr :: st) = local_of k st.
Proof. intros Hk. simpl. by rewrite decide_False. Qed.

Lemma local_of_fresh k (st : list Frame) :
  Forall (λ fr, fr_key fr < k) st → local_of k st = None.
Proof.
  induction st as [|fr st IH]; simpl; [done|]. intros (Hlt & Hall)%Forall_cons.
  rewrite decide_False by lia. by apply IH.
Qed.

(** ** What one flow does when it settles *)

(** The alerts the app can show. *)
Definition allowed_titles : list string :=
  ["Missing info"; "Login failed"; "Register failed"; "Logout failed"].

Definition alert_ok (al : Alert) : Prop := alert_title al ∈ allowed_titles.

Section SettleShape.
Context {Sv : Type} `{SessionService Sv} `{!ServiceEnv Sv}.

(** A handler finished: only its own screen (key [k]) changes, its
    route is kept and its [loading] is cleared, the user may change,
    some allowed alerts are appended. *)
Definition finished_handler (fl : Flow) (a a' : App Sv) : Prop :=
  ∃ k g al u', flow_key fl = Some k ∧
    (∀ l, local_route (g l) = local_route l) ∧
    (∀ l, flow_route fl = Some (local_route l) → local_loading (g l) = false) ∧
    stack a' = update_key k g (stack a) ∧ root a' = mkRoot u' (checking (root a)) ∧
    flows a' = flows a ∧ alerts a' = (alerts a ++ al)%list ∧ Forall alert_ok al ∧
    next_key a' = next_key a.

Lemma finish_alert_ok title e :
  title ∈ allowed_titles → Forall alert_ok [mkAlert title (error_text e)].
Proof. intros Ht. by apply Forall_singleton. Qed.

Lemma finish_login_shape k p o (a : App Sv) :
  finished_handler (FLogin k p) a (finish_login k o a).
Proof.
  set (f' := set_lf_loading (login_form_of k (stack a)) false).
  exists k, (λ l, match l with LLogin _ => LLogin f' | _ => l end).
  unfold finish_login. destruct o as [me|e]; simpl;
    eexists _, _; split_and!; try done; try (by intros []); try (by intros [] ?; simplify_eq);
    repeat constructor; set_solver.
Qed.

Lemma finish_register_shape k p o (a : App Sv) :
  finished_handler (FRegister k p) a (finish_register k o a).
Proof.
  set (f' := set_rf_loading (register_form_of k (stack a)) false).
  exists k, (λ l, match l with LRegister _ => LRegister f' | _ => l end).
  unfold finish_register. destruct o as [me|e]; simpl;
    eexists _, _; split_and!; try done; try (by intros []); try (by intros [] ?; simplify_eq);
    repeat constructor; set_solver.
Qed.

Lemma finish_logout_shape k p o (a : App Sv) :
  finished_handler (FLogout k p) a (finish_logout k o a).
Proof.
  exists k, (λ l, match l with LHome _ => LHome (mkHomeState false) | _ => l end).
  unfold finish_logout. destruct o as [r|e]; simpl;
    eexists _, _; split_and!; try done; try (by intros []); try (by intros [] ?; simplify_eq);
    repeat constructor; set_solver.
Qed.

(** Settling a flow: it goes on (only the service moved), or the
    startup effect ends, or a handler ends. *)
Lemma settle_flow_cases fl (a a' : App Sv) nfl :
  settle_flow fl a = (a', nfl) →
  (∃ s' fl', nfl = Some fl' ∧ a' = with_remote s' a ∧ flow_key fl' = flow_key fl ∧
             flow_route fl' = flow_route fl ∧ is_startup fl' = is_startup fl) ∨
  (nfl = None ∧ is_startup fl = true ∧ ∃ s' o, a' = finish_startup o (with_remote s' a)) ∨
  (nfl = None ∧ is_startup fl = false ∧ ∃ s', finished_handler fl (with_remote s' a) a').
Proof.
  destruct fl; unfold settle_flow; destruct (step_prog _ _) as [s' [p'|o]];
    intros [= <- <-]; [left; eauto 10 | right; left; eauto 10 | ..];
    try (left; by eexists _, _); right; right; split_and!; try done; eexists;
    eauto using finish_login_shape, finish_register_shape, finish_logout_shape.
Qed.

End SettleShape.

(** ** The handlers write the user through the provider's [setUser] *)

Section Context.
Context {Sv : Type} `{SessionService Sv} `{!ServiceEnv Sv}.

(** A settled handler's root is what [setUser] of the context the
    screens read ([ctx]) makes of the root: the user it wrote, with
    [checking] as it was. *)
Lemma finish_handlers_setUser k (a : App Sv) o o' :
  root (finish_login k o a) =
    ctx_setUser (ctx (root a)) (fst (fst (onLogin_finish o (user (root a))
                                            (login_form_of k (stack a))))) (root a) ∧
  root (finish_register k o a) =
    ctx_setUser (ctx (root a)) (fst (fst (onRegister_finish o (user (root a))
                                            (register_form_of k (stack a))))) (root a) ∧
  root (finish_logout k o' a) =
    ctx_setUser (ctx (root a)) (fst (fst (onLogout_finish o' (user (root a))
                                            (home_of k (stack a))))) (root a).
Proof.
  unfold finish_login, finish_register, finish_logout.
  split_and!; by repeat case_match.
Qed.

End Context.

(** ** The invariant of the stack *)

Definition keyed (k : nat) (fl : Flow) : bool := bool_decide (flow_key fl = Some k).

(** A handler's flow belongs to a screen of its route. *)
Definition matches (fl : Flow) (l : Local) : Prop := flow_route fl = Some (local_route l).

(** Every flow's screen key was handed out already. *)
Definition flows_fresh (fls : list Flow) (nk : nat) : Prop :=
  Forall (λ fl, ∀ k, flow_key fl = Some k → k < nk) fls.

(** Mount keys are distinct and handed out already; a mounted screen
    shows [loading] exactly when one flow of its own is in flight (and
    never more); a flow whose screen is mounted belongs to a screen of
    its route. *)
Record stack_ok (st : list Frame) (fls : list Flow) (nk : nat) : Prop := {
  so_nodup : NoDup (map fr_key st);
  so_fresh : Forall (λ fr, fr_key fr < nk) st;
  so_pending : Forall (λ fr, count_where (keyed (fr_key fr)) fls =
                              if local_loading (fr_local fr) then 1 else 0) st;
  so_kind : Forall (λ fl, ∀ k l, flow_key fl = Some k → local_of k st = Some l → matches fl l) fls;
}.

Lemma local_of_tail k fr (st : list Frame) l :
  NoDup (map fr_key (fr :: st)) → local_of k st = Some l → local_of k (fr :: st) = Some l.
Proof.
  intros Hnd Hl. destruct (decide (fr_key fr = k)) as [<-|Hk]; [|by rewrite local_of_cons_ne].
  apply local_of_Some in Hl as (fr' & Hin & Hk & _).
  simpl in Hnd. apply NoDup_cons in Hnd as [Hnot _]. exfalso. apply Hnot.
  apply list_elem_of_fmap. by exists fr'.
Qed.

Lemma keyed_fresh k (fls : list Flow) :
  flows_fresh fls k → count_where (keyed k) fls = 0.
Proof.
  intros Hf. apply count_where_zero. intros fl Hin. unfold keyed.
  apply bool_decide_eq_false. intros Hk. eapply Forall_forall in Hf; [|done].
  specialize (Hf k Hk). lia.
Qed.

Lemma flows_fresh_mono (fls : list Flow) (nk nk' : nat) :
  nk ≤ nk' → flows_fresh fls nk → flows_fresh fls nk'.
Proof. intros Hle Hf. eapply Forall_impl; [exact Hf|]. intros fl Hfl k Hk. specialize (Hfl k Hk). lia. Qed.

Lemma stack_ok_tail fr (st : list Frame) fls nk :
  stack_ok (fr :: st) fls nk → stack_ok st fls nk.
Proof.
  intros [Hnd Hfr Hpend Hkind]. split.
  - by apply NoDup_cons in Hnd as [_ ?].
  - by apply Forall_cons in Hfr as [_ ?].
  - by apply Forall_cons in Hpend as [_ ?].
  - eapply Forall_impl; [done|]. intros fl Hfl k l Hk Hl.
    by apply (Hfl k l Hk), local_of_tail.
Qed.

Lemma stack_ok_mono (st : list Frame) fls (nk nk' : nat) :
  nk ≤ nk' → stack_ok st fls nk → stack_ok st fls nk'.
Proof.
  intros Hle [Hnd Hfr Hpend Hkind]. split; try done.
  eapply Forall_impl; [exact Hfr|]. simpl. lia.
Qed.

(** Mounting a fresh screen on top ([Link] or [Redirect]). *)
Lemma stack_ok_push (st : list Frame) fls nk r :
  stack_ok st fls nk → flows_fresh fls nk →
  stack_ok (mkFrame nk (mount r) :: st) fls (S nk).
Proof.
  intros [Hnd Hfr Hpend Hkind] Hff. split.
  - simpl. apply NoDup_cons. split; [|done].
    intros (fr & Hk & Hin)%list_elem_of_fmap. eapply Forall_forall in Hfr; [|done]. lia.
  - apply Forall_cons. split; [simpl; lia|]. eapply Forall_impl; [exact Hfr|]. simpl. lia.
  - apply Forall_cons. split; [|done]. simpl. rewrite keyed_fresh; [|done]. by destruct r.
  - eapply Forall_forall. intros fl Hin k l Hk Hl.
    eapply Forall_forall in Hff; [|done]. specialize (Hff k Hk).
    rewrite local_of_cons_ne in Hl by (simpl; lia).
    by eapply Forall_forall in Hkind; [apply (Hkind k l Hk Hl)|].
Qed.

(** Changing the top screen's state without changing its route nor its
    [loading] (typing, test credentials, a press stopped at the guard). *)
Lemma stack_ok_replace_top fr (st : list Frame) fls nk l' :
  stack_ok (fr :: st) fls nk →
  local_route l' = local_route (fr_local fr) → local_loading l' = local_loading (fr_local fr) →
  stack_ok (mkFrame (fr_key fr) l' :: st) fls nk.
Proof.
  intros [Hnd Hfr Hpend Hkind] Hr Hl. split; try done.
  - apply Forall_cons in Hfr as [? ?]. by apply Forall_cons.
  - apply Forall_cons in Hpend as [Htop ?]. apply Forall_cons. simpl. by rewrite Hl.
  - eapply Forall_impl; [done|]. intros fl Hfl k l Hk. simpl.
    case_decide as Hkey; [intros [= <-]|intros Hlk].
    + unfold matches. rewrite Hr. apply (Hfl k); [done|]. simpl. by rewrite decide_True.
    + apply (Hfl k); [done|]. simpl. by rewrite decide_False.
Qed.

(** The keys below the top differ from the top's. *)
Lemma stack_ok_other_key fr (st : list Frame) fls nk fr' :
  stack_ok (fr :: st) fls nk → fr' ∈ st → fr_key fr' ≠ fr_key fr.
Proof.
  intros [Hnd _ _ _] Hin Heq. simpl in Hnd. apply NoDup_cons in Hnd as [Hnot _].
  apply Hnot. apply list_elem_of_fmap. by exists fr'.
Qed.

(** A press that starts a flow: the top screen becomes [loading] and
    its flow joins the list. *)
Lemma stack_ok_press fr (st : list Frame) fls nk l' fl :
  stack_ok (fr :: st) fls nk →
  local_loading (fr_local fr) = false → local_loading l' = true →
  local_route l' = local_route (fr_local fr) →
  flow_key fl = Some (fr_key fr) → matches fl l' →
  stack_ok (mkFrame (fr_key fr) l' :: st) (fls ++ [fl]) nk.
Proof.
  intros Hok Hl Hl' Hr Hk Hm. pose proof Hok as [Hnd Hfr Hpend Hkind]. split; try done.
  - apply Forall_cons in Hfr as [? ?]. by apply Forall_cons.
  - apply Forall_cons in Hpend as [Htop Hrest]. rewrite Hl in Htop.
    apply Forall_cons. split.
    + simpl. rewrite count_where_app, Htop, Hl'. simpl. unfold keyed. rewrite Hk.
      by rewrite bool_decide_eq_true_2.
    + apply Forall_forall. intros fr' Hin. eapply Forall_forall in Hrest; [|done].
      rewrite count_where_app, Hrest. simpl. unfold keyed. rewrite Hk.
      rewrite bool_decide_eq_false_2; [lia|]. intros [= Heq].
      by apply (stack_ok_other_key fr st fls nk fr').
  - apply Forall_app. split.
    + apply Forall_forall. intros fl' Hin k l Hk' Hlk. simpl in Hlk.
      case_decide as Hkey.
      * exfalso. apply Forall_cons in Hpend as [Htop _]. rewrite Hl in Htop.
        pose proof (count_where_pos (keyed (fr_key fr)) fls fl' Hin) as Hpos.
        unfold keyed at 1 in Hpos. rewrite bool_decide_eq_true_2 in Hpos by congruence.
        specialize (Hpos eq_refl). lia.
      * eapply Forall_forall in Hkind; [|done]. apply (Hkind k l Hk').
        by rewrite local_of_cons_ne.
    + apply Forall_singleton. intros k l Hk' Hlk. simpl in Hlk.
      rewrite decide_True in Hlk by congruence. by injection Hlk as <-.
Qed.

Lemma keyed_same k fl fl' : flow_key fl' = flow_key fl → keyed k fl' = keyed k fl.
Proof. unfold keyed. by intros ->. Qed.

Lemma keyed_none k fl : flow_key fl = None → keyed k fl = false.
Proof. unfold keyed. intros ->. by apply bool_decide_eq_false_2. Qed.

Lemma keyed_eq k fl : flow_key fl = Some k → keyed k fl = true.
Proof. unfold keyed. intros ->. by apply bool_decide_eq_true_2. Qed.

Lemma keyed_ne k k' fl : flow_key fl = Some k → k' ≠ k → keyed k' fl = false.
Proof. unfold keyed. intros -> Hne. apply bool_decide_eq_false_2. congruence. Qed.

(** A flow goes on past one await: same screen, same kind. *)
Lemma stack_ok_continue (st : list Frame) fls nk i fl fl' :
  stack_ok st fls nk → fls !! i = Some fl →
  flow_key fl' = flow_key fl → flow_route fl' = flow_route fl →
  stack_ok (st) (<[i := fl']> fls) nk.
Proof.
  intros [Hnd Hfr Hpend Hkind] Hi Hk Hr. split; try done.
  - eapply Forall_impl; [exact Hpend|]. intros fr Hc. cbv beta in *.
    rewrite (count_where_insert _ _ _ _ fl Hi); [done|]. by apply keyed_same.
  - apply Forall_insert; [done|]. intros k l Hk' Hl. unfold matches. rewrite Hr.
    eapply Forall_lookup_1 in Hkind; [|done]. apply (Hkind k l); [congruence|done].
Qed.

(** The startup effect ends: no screen is concerned. *)
Lemma stack_ok_finish_startup (st : list Frame) fls nk i fl :
  stack_ok st fls nk → fls !! i = Some fl → flow_key fl = None →
  stack_ok st (delete i fls) nk.
Proof.
  intros [Hnd Hfr Hpend Hkind] Hi Hk. split; try done.
  - eapply Forall_impl; [exact Hpend|]. intros fr Hc. cbv beta in *.
    pose proof (count_where_delete (keyed (fr_key fr)) fls i fl Hi) as Hd.
    rewrite (keyed_none (fr_key fr) fl Hk) in Hd. simpl in Hd. cbv beta in *. lia.
  - by apply Forall_delete.
Qed.

(** A handler ends: its screen, if mounted, is no longer [loading]. *)
Lemma stack_ok_finish_handler (st : list Frame) fls nk i fl k g :
  stack_ok st fls nk → fls !! i = Some fl → flow_key fl = Some k →
  (∀ l, local_route (g l) = local_route l) →
  (∀ l, flow_route fl = Some (local_route l) → local_loading (g l) = false) →
  stack_ok (update_key k g st) (delete i fls) nk.
Proof.
  intros [Hnd Hfr Hpend Hkind] Hi Hk Hgr Hgl. split.
  - by rewrite keys_update_key.
  - apply Forall_forall. intros fr' (fr & Hin & Hkey & _ & _)%elem_of_update_key.
    rewrite Hkey. by eapply Forall_forall in Hfr.
  - apply Forall_forall. intros fr' (fr & Hin & Hkey & Hsame & Hother)%elem_of_update_key.
    eapply Forall_forall in Hpend; [|done]. rewrite Hkey.
    pose proof (count_where_delete (keyed (fr_key fr)) fls i fl Hi) as Hd.
    destruct (decide (fr_key fr = k)) as [Heq|Hne].
    + rewrite (Hsame Heq), Hgl.
      * rewrite (keyed_eq (fr_key fr) fl) in Hd by congruence. simpl in Hd.
        destruct (local_loading (fr_local fr)); lia.
      * eapply Forall_lookup_1 in Hkind; [|done]. apply (Hkind k); [done|].
        rewrite <- Heq. by apply local_of_elem.
    + rewrite (Hother Hne). rewrite (keyed_ne k) in Hd by done. simpl in Hd. lia.
  - apply Forall_delete. eapply Forall_impl; [exact Hkind|]. intros fl' Hfl' k' l Hk' Hl.
    rewrite local_of_update_key in Hl. case_decide.
    + apply fmap_Some in Hl as (l0 & Hl0 & ->). unfold matches. rewrite Hgr. by apply (Hfl' k').
    + by apply (Hfl' k').
Qed.

(** ** The invariant of the app *)

Section Invariant.
Context {Sv : Type} `{SessionService Sv} `{!ServiceEnv Sv}.

(** [checking] holds exactly while the startup effect is in flight
    (there is at most one); the stack is never empty and satisfies
    [stack_ok]; every flow's screen key was handed out; every alert
    shown comes from a handler. *)
Record inv_core (a : App Sv) : Prop := {
  inv_checking : checking (root a) = true ↔ count_where is_startup (flows a) = 1;
  inv_one_startup : count_where is_startup (flows a) ≤ 1;
  inv_stack : stack a ≠ [];
  inv_stack_ok : stack_ok (stack a) (flows a) (next_key a);
  inv_flows_fresh : flows_fresh (flows a) (next_key a);
  inv_alerts : Forall alert_ok (alerts a);
}.

(** The top screen is one its gate lets render. *)
Definition top_renders (a : App Sv) : Prop :=
  ∃ fr rest, stack a = fr :: rest ∧ gate (local_route (fr_local fr)) (user (root a)) = Render.

Lemma inv_init (s : Sv) : inv_core (app_init s).
Proof.
  split; simpl; try done.
  - split; [| |apply Forall_singleton|].
    + apply NoDup_singleton.
    + apply Forall_singleton. simpl. lia.
    + done.
    + by apply Forall_singleton.
  - by apply Forall_singleton.
Qed.

Lemma inv_with_remote (s : Sv) (a : App Sv) : inv_core a → inv_core (with_remote s a).
Proof. intros []. by split. Qed.

Lemma local_route_mount r : local_route (mount r) = r.
Proof. by destruct r. Qed.

(** The render after every event: the invariant is kept and, once
    [checking] is over, the top screen renders. *)
Lemma inv_redirect (a : App Sv) :
  inv_core a → inv_core (redirect a) ∧ (checking (root (redirect a)) = false → top_renders (redirect a)).
Proof.
  intros Hinv. pose proof Hinv as [Hc H1 Hst Hok Hff Hal]. unfold redirect.
  destruct (checking (root a)) eqn:Hck; [split; [done|congruence]|].
  destruct (stack a) as [|fr rest] eqn:Hs; [done|].
  destruct (gate (local_route (fr_local fr)) (user (root a))) as [r|] eqn:Hg.
  - split.
    + split; simpl; [by rewrite Hck|done|done| | |done].
      * apply stack_ok_push; [|done]. by apply (stack_ok_tail fr).
      * apply (flows_fresh_mono _ (next_key a)); [lia|done].
    + intros _. eexists _, _. split; [done|]. simpl. rewrite local_route_mount.
      by apply (gate_target_renders (local_route (fr_local fr))).
  - split; [done|]. intros _. by exists fr, rest.
Qed.

Lemma startup_key fl : is_startup fl = true → flow_key fl = None.
Proof. by destruct fl. Qed.

Lemma flows_fresh_lookup (fls : list Flow) nk i fl :
  flows_fresh fls nk → fls !! i = Some fl → ∀ k, flow_key fl = Some k → k < nk.
Proof. intros Hff Hi. by eapply Forall_lookup_1 in Hff. Qed.

(** A flow settles: the invariant is kept. *)
Lemma inv_settle i (a a' : App Sv) :
  inv_core a → settle i a = Some a' → inv_core a'.
Proof.
  intros [Hc H1 Hst Hok Hff Hal]. unfold settle.
  destruct (flows a !! i) as [fl|] eqn:Hi; [|done]. simpl.
  destruct (settle_flow fl a) as [a1 nfl] eqn:Hsf. intros [= <-].
  pose proof (count_where_delete is_startup (flows a) i fl Hi) as Hdel.
  apply settle_flow_cases in Hsf
    as [(s' & fl' & -> & -> & Hk & Hr & Hsu)
       |[(-> & Hsu & s' & o & ->) | (-> & Hsu & s' & k & g & al & u' & Hk & Hgr & Hgl & Hs1 & Hr1 & Hf1 & Ha1 & Hal1 & Hn1)]];
    simpl in *.
  - split; simpl; try done.
    + by rewrite (count_where_insert _ _ _ _ fl Hi).
    + by rewrite (count_where_insert _ _ _ _ fl Hi).
    + by apply (stack_ok_continue _ _ _ _ fl).
    + apply Forall_insert; [done|]. intros k' Hk'. rewrite Hk in Hk'.
      by apply (flows_fresh_lookup _ _ _ _ Hff Hi).
  - rewrite Hsu in Hdel.
    pose proof (count_where_pos is_startup (flows a) fl (list_elem_of_lookup_2 _ _ _ Hi) Hsu).
    split; simpl; try done.
    + destruct o; simpl; split; [done| lia | done | lia].
    + lia.
    + apply (stack_ok_finish_startup _ _ _ _ fl); [done|done|]. by apply startup_key.
    + by apply Forall_delete.
  - rewrite Hsu in Hdel. simpl in Hdel. split; simpl.
    + rewrite Hr1. simpl. rewrite Hc. lia.
    + lia.
    + rewrite Hs1. unfold update_key. by destruct (stack a).
    + rewrite Hs1, Hn1. by apply (stack_ok_finish_handler _ _ _ _ fl).
    + rewrite Hn1. by apply Forall_delete.
    + rewrite Ha1. by apply Forall_app.
Qed.

Lemma type_field_same fld v l l' :
  type_field fld v l = Some l' →
  local_route l' = local_route l ∧ local_loading l' = local_loading l.
Proof. destruct l, fld; simpl; intros; by simplify_eq. Qed.

(** What a press does to the top screen: it stops (same route and
    [loading], maybe a "Missing info" alert) or it starts a flow of its
    own kind and sets [loading]. *)
Lemma press_cases key uid l l' al nfl :
  press key uid l = Some (l', al, nfl) →
  (nfl = None ∧ local_route l' = local_route l ∧ local_loading l' = local_loading l ∧
   Forall alert_ok al) ∨
  (∃ fl, nfl = Some fl ∧ al = [] ∧ local_loading l = false ∧ local_loading l' = true ∧
   local_route l' = local_route l ∧ flow_key fl = Some key ∧ matches fl l' ∧
   is_startup fl = false).
Proof.
  destruct l as [|f|f|h]; simpl; [done| | |].
  - destruct (lf_loading f) eqn:Hl.
    + rewrite (proj1 (press_loading_noop f register_init "" home_init) Hl).
      intros [= <- <- <-]. left. by split_and!.
    + destruct (press_login_cases f Hl) as [-> | ->]; intros [= <- <- <-].
      * left. split_and!; try done. apply Forall_singleton. set_solver.
      * right. eexists. split_and!; done.
  - destruct (rf_loading f) eqn:Hl.
    + rewrite (proj1 (proj2 (press_loading_noop login_init f uid home_init)) Hl).
      intros [= <- <- <-]. left. by split_and!.
    + unfold press_register, onRegister_start. rewrite Hl.
      destruct (JsString.is_falsy (rf_name f) || JsString.is_falsy (rf_email f) || JsString.is_falsy (rf_password f));
        simpl; intros [= <- <- <-].
      * left. split_and!; try done. apply Forall_singleton. set_solver.
      * right. eexists. split_and!; done.
  - unfold press_logout, onLogout_start. destruct (hs_loading h) eqn:Hl; intros [= <- <- <-].
    + left. by split_and!.
    + right. eexists. split_and!; done.
Qed.

(** A user event on the top screen [fr] keeps the invariant. *)
Lemma inv_user_event ev fr rest (a a' : App Sv) :
  inv_core a → stack a = fr :: rest → user_event ev fr rest a = Some a' → inv_core a'.
Proof.
  intros [Hc H1 Hst Hok Hff Hal] Hs. rewrite Hs in Hok.
  destruct ev as [fld v| | |r| | | |]; simpl; try done.
  all: try (destruct rest as [|fr' rest]; [done|]; intros [= <-];
            split; simpl; try done; by apply (stack_ok_tail fr)).
  - destruct (type_field fld v (fr_local fr)) as [l'|] eqn:Ht; [|done]. intros [= <-].
    apply type_field_same in Ht as [Hr Hl].
    split; simpl; try done. by apply stack_ok_replace_top.
  - destruct (fr_local fr) as [|f| |] eqn:Hl; try done. intros [= <-].
    split; simpl; try done. apply stack_ok_replace_top; [done|by rewrite Hl..].
  - destruct (press (fr_key fr) _ (fr_local fr)) as [[[l' al] nfl]|] eqn:Hp; [|done].
    intros [= <-]. apply press_cases in Hp
      as [(-> & Hr & Hl & Hal') | (fl & -> & -> & Hl0 & Hl1 & Hr & Hk & Hm & Hsu)].
    + split; simpl; rewrite ?app_nil_r; try done.
      * by apply stack_ok_replace_top.
      * by apply Forall_app.
    + split; simpl; rewrite ?count_where_app; simpl; rewrite ?Hsu, ?Nat.add_0_r, ?app_nil_r; try done.
      * by apply stack_ok_press.
      * apply Forall_app. split; [done|]. apply Forall_singleton. intros k Hk'.
        rewrite Hk in Hk'. injection Hk' as <-.
        pose proof (so_fresh _ _ _ Hok) as Hfr. by apply Forall_cons in Hfr as [? _].
  - destruct (link_allowed (fr_local fr) r); [|done]. intros [= <-].
    split; simpl; try done.
    + by apply stack_ok_push.
    + apply (flows_fresh_mono _ (next_key a)); [lia|done].
Qed.

(** Every event keeps the invariant, and after it the top screen
    renders unless the app is still [checking]. *)
Lemma inv_handle ev (a a' : App Sv) :
  inv_core a → handle ev a = Some a' →
  inv_core a' ∧ (checking (root a') = false → top_renders a').
Proof.
  intros Hinv. unfold handle. intros (a1 & Ha1 & ->)%fmap_Some. apply inv_redirect.
  destruct ev; try (by eapply inv_settle); try (injection Ha1 as <-; by apply inv_with_remote);
    (destruct (checking (root a)); [done|]);
    (destruct (stack a) as [|fr rest] eqn:Hs; [done|]); by eapply inv_user_event.
Qed.

(** The invariant holds in every reachable state. *)
Lemma reachable_inv (s0 : Sv) (a : App Sv) :
  reachable s0 a → inv_core a ∧ (checking (root a) = false → top_renders a).
Proof.
  induction 1 as [|a ev a' Hreach [IH _] Hh].
  - split; [apply inv_init|done].
  - by apply (inv_handle ev a).
Qed.

End Invariant.

(** ** Properties of every reachable state *)

Section Reachable.
Context {Sv : Type} `{SessionService Sv} `{!ServiceEnv Sv}.

(** The events a user causes (as opposed to the flows and the
    environment). *)
Definition is_user_event (ev : Event) : bool :=
  match ev with EvSettle _ | EvNetwork _ | EvExpire => false | _ => true end.

Lemma run_events_reachable (s0 : Sv) evs (a a' : App Sv) :
  reachable s0 a → run_events evs a = Some a' → reachable s0 a'.
Proof.
  revert a. induction evs as [|ev evs IH]; simpl; intros a Ha.
  - by intros [= <-].
  - destruct (handle ev a) as [a1|] eqn:Hh; [|done]. simpl. apply IH.
    by apply (reach_step _ a ev).
Qed.

(** A screen on top with its button disabled has its flow in flight. *)
Lemma reachable_top_pending (s0 : Sv) (a : App Sv) fr rest :
  reachable s0 a → stack a = fr :: rest → local_loading (fr_local fr) = true →
  count_where (keyed (fr_key fr)) (flows a) = 1.
Proof.
  intros Hr Hs Hl. destruct (reachable_inv s0 a Hr) as [Hinv _].
  pose proof (so_pending _ _ _ (inv_stack_ok _ Hinv)) as Hp. rewrite Hs in Hp.
  apply Forall_cons in Hp as [Hp _]. by rewrite Hp, Hl.
Qed.

(** Any screen but home on top, once [checking] is over, means nobody
    is signed in. *)
Lemma reachable_top_guest (s0 : Sv) (a : App Sv) fr rest :
  reachable s0 a → checking (root a) = false → stack a = fr :: rest →
  local_route (fr_local fr) ≠ RHome → user (root a) = None.
Proof.
  intros Hr Hc Hs Hh. destruct (reachable_inv s0 a Hr) as [_ Htop].
  destruct (Htop Hc) as (fr' & rest' & Hs' & Hg). rewrite Hs in Hs'. injection Hs' as <- <-.
  destruct (local_route (fr_local fr)), (user (root a)); simpl in *; congruence.
Qed.

(** [C3] The view gate holds in every reachable state: once the
    startup check is over, the screen on top of the stack is always one
    its gate lets render: never [home] without a user, never welcome,
    sign-in or create-account with one (spec 4.4, as an invariant of
    the whole app, across every interleaving of flows, navigation and
    network events). *)
Theorem reachable_top_renders (s0 : Sv) (a : App Sv) :
  reachable s0 a → checking (root a) = false →
  ∃ fr rest, stack a = fr :: rest ∧ gate (local_route (fr_local fr)) (user (root a)) = Render.
Proof. intros Hr. apply (reachable_inv s0 a Hr). Qed.

(** [C16] [checking] holds exactly while the startup effect is in
    flight (exactly one of it), and during that time no user event can
    happen: only the spinner is shown (spec 4.3). *)
Theorem reachable_checking (s0 : Sv) (a : App Sv) :
  reachable s0 a →
  (checking (root a) = true ↔ count_where is_startup (flows a) = 1) ∧
  (checking (root a) = true → ∀ ev, is_user_event ev = true → handle ev a = None).
Proof.
  intros Hr. destruct (reachable_inv s0 a Hr) as [[Hc _ _ _ _ _] _]. split; [done|].
  intros Hck ev Hev. unfold handle. destruct ev; try done; by rewrite Hck.
Qed.

(** [C7] No duplicate submission: a mounted screen has at most one
    flow of its own in flight, and exactly one while its button shows
    [loading] (spec 5: "the triggering controls are disabled for the
    duration of an in-flight operation"). *)
Theorem reachable_one_flow_per_screen (s0 : Sv) (a : App Sv) fr :
  reachable s0 a → fr ∈ stack a →
  count_where (keyed (fr_key fr)) (flows a) = if local_loading (fr_local fr) then 1 else 0.
Proof.
  intros Hr Hin. destruct (reachable_inv s0 a Hr) as [[_ _ _ Hok _ _] _].
  by eapply Forall_forall in Hin; [|apply (so_pending _ _ _ Hok)].
Qed.

(** [C17] Every alert the app ever shows comes from a handler of a
    screen: "Missing info", "Login failed", "Register failed" or
    "Logout failed".  In particular the startup resolver never surfaces
    an error (spec 7 and 8, fifth property). *)
Theorem reachable_alerts (s0 : Sv) (a : App Sv) :
  reachable s0 a → Forall (λ al, alert_title al ∈ allowed_titles) (alerts a).
Proof. intros Hr. apply (reachable_inv s0 a Hr). Qed.

End Reachable.

(** ** Two interleavings on the in-memory service *)

Section Scenarios.
Import MemoryService.

(** Alice signs in; while her flow is in flight she follows the
    "Create an account" link of the sign-in screen (not disabled while
    loading) and registers Bob; Bob's account and session are created,
    then Alice's session, then Bob's flow fetches the current user. *)
Definition race_prefix : list Event :=
  [EvSettle 0; EvLink RLogin; EvType FEmail "alice@example.com";
   EvType FPassword "secret-pw"; EvPress; EvLink RRegister; EvType FName "Bob";
   EvType FEmail "bob@example.com"; EvType FPassword "pw-bob"; EvPress;
   EvSettle 1; EvSettle 1; EvSettle 0].

(** [C5] Two flows interleave: the create-account flow for Bob
    resolves with Alice's user, so the app signs in as Alice right
    after "creating" Bob, with no alert, while Bob's account exists.
    The spec's first property (register then get returns the submitted
    email) fails once a sign-in runs concurrently; spec 5's "no
    operation may run concurrently with itself" does not prevent two
    different operations from overlapping. *)
Theorem register_returns_other_user :
  ∃ b a k p, run_events race_prefix (app_init alice_remote) = Some b ∧
    user (root b) = None ∧ flows b !! 1 = Some (FRegister k p) ∧
    handle (EvSettle 1) b = Some a ∧
    user (root a) = Some alice ∧ alerts a = [] ∧
    is_Some (sv_account (remote a) "bob@example.com").
Proof.
  destruct (run_events race_prefix (app_init alice_remote)) as [b|] eqn:Hb;
    [|vm_compute in Hb; discriminate].
  vm_compute in Hb. injection Hb as <-.
  eexists _, _, _, _. split_and!; [done|done|vm_compute; reflexivity|vm_compute; reflexivity|..];
    vm_compute; try done; by eexists.
Qed.

(** Bob registers; the network drops between [account.create] and
    [createEmailPasswordSession]; it comes back and Bob presses again. *)
Definition orphan_events : list Event :=
  [EvSettle 0; EvLink RRegister; EvType FName "Bob"; EvType FEmail "bob@example.com";
   EvType FPassword "pw-bob"; EvPress; EvSettle 0; EvNetwork false; EvSettle 0;
   EvNetwork true; EvPress; EvSettle 0].

(** [C8] The orphaned account of spec 4.2 is reachable: after a
    network drop between the first two awaits of [register], the app
    reports "Register failed", nobody is signed in, yet Bob's account
    exists; pressing again then fails for good, because the email is
    taken. *)
Theorem orphaned_account_reachable :
  ∃ a, run_events orphan_events (app_init alice_remote) = Some a ∧
    user (root a) = None ∧ sv_user (remote a) = None ∧
    (∃ u, sv_account (remote a) "bob@example.com" = Some (u, "pw-bob")) ∧
    alerts a = [mkAlert "Register failed" "Network request failed";
                mkAlert "Register failed" (error_text err_conflict)].
Proof.
  destruct (run_events orphan_events (app_init alice_remote)) as [a|] eqn:Ha;
    [|vm_compute in Ha; discriminate].
  vm_compute in Ha. injection Ha as <-.
  eexists. split_and!; [done|vm_compute..]; try done; by eexists.
Qed.

(** The state after [race_prefix]: three screens, two flows. *)
Definition race_state : App Remote :=
  default (app_init alice_remote) (run_events race_prefix (app_init alice_remote)).

Lemma race_state_reachable : reachable alice_remote race_state.
Proof.
  apply (run_events_reachable _ race_prefix (app_init alice_remote)); [constructor|].
  vm_compute. reflexivity.
Qed.

Lemma reachable_top_renders_witness :
  reachable alice_remote race_state ∧ checking (root race_state) = false ∧
  ∃ fr rest, stack race_state = fr :: rest ∧
             gate (local_route (fr_local fr)) (user (root race_state)) = Render.
Proof.
  assert (Hc : checking (root race_state) = false) by (vm_compute; reflexivity).
  split_and!; [exact race_state_reachable | exact Hc |
               exact (reachable_top_renders _ _ race_state_reachable Hc)].
Defined.

Lemma reachable_checking_witness :
  reachable alice_remote (app_init alice_remote) ∧
  (checking (root (app_init alice_remote)) = true ↔
     count_where is_startup (flows (app_init alice_remote)) = 1) ∧
  (checking (root (app_init alice_remote)) = true →
     ∀ ev, is_user_event ev = true → handle ev (app_init alice_remote) = None).
Proof.
  assert (Hr : reachable alice_remote (app_init alice_remote)) by constructor.
  split; [exact Hr | exact (reachable_checking _ _ Hr)].
Defined.

Lemma reachable_one_flow_per_screen_witness :
  reachable alice_remote race_state ∧
  mkFrame 3 (LRegister (mkRegisterForm "Bob" "bob@example.com" "pw-bob" true)) ∈ stack race_state ∧
  count_where (keyed 3) (flows race_state) = 1.
Proof.
  assert (Hin : mkFrame 3 (LRegister (mkRegisterForm "Bob" "bob@example.com" "pw-bob" true))
                  ∈ stack race_state) by (vm_compute; constructor).
  split_and!; [exact race_state_reachable | exact Hin |
               exact (reachable_one_flow_per_screen _ _ _ race_state_reachable Hin)].
Defined.

Lemma reachable_alerts_witness :
  reachable alice_remote race_state ∧
  Forall (λ al, alert_title al ∈ allowed_titles) (alerts race_state).
Proof.
  split; [exact race_state_reachable | exact (reachable_alerts _ _ race_state_reachable)].
Defined.

End Scenarios.

End App.
