(* ===== verification/Drain.v ===== *)
(** * The flows in flight always finish

    Every flow the app starts is one of the four async bodies of the
    source ([startup_flow], [Auth.login], [Auth.register],
    [Auth.logout]), each a strict sequence of at most three awaits
    (spec 5: "each flow is a strict sequence").  [depth_le n p] bounds
    the number of awaits [p] can still make on any path; a resumption
    ([step_prog]) of a flow bounded by [n] finishes it or leaves a flow
    bounded by [n - 1].

    Theorems: in every reachable state every flow in flight has at most
    three awaits left ([reachable_depth]); and if the service answers, resuming the first
    flow in flight over and over empties the list of flows within four
    resumptions per flow, ending [checking] (the startup resolver is
    one of them) in a reachable state.  The spec's open issue (a hung
    call blocks its flow forever) is the case where the service never
    answers: no [EvSettle] happens. *)

From S2P Require Import Prelude Service MemoryService Auth Screens Layout App.

Module Drain.
Import Screens Layout App.
Open Scope nat_scope.

(** [p] makes at most [n] more awaits, whatever the replies. *)
Inductive depth_le {A} : nat → prog A → Prop :=
| depth_done n a : depth_le n (Done a)
| depth_await n c k : (∀ v, depth_le n (k v)) → depth_le (S n) (Await c k).

(** The body a flow in flight is suspended in. *)
Definition flow_depth_le (n : nat) (fl : Flow) : Prop :=
  match fl with
  | FStartup p => depth_le n p
  | FLogin _ p => depth_le n p
  | FRegister _ p => depth_le n p
  | FLogout _ p => depth_le n p
  end.

(** The number of awaits any flow of the source makes. *)
Definition max_awaits : nat := 3.

Create HintDb depth discriminated.
#[export] Hint Constructors depth_le : depth.

Lemma depth_le_mono {A} n m (p : prog A) : depth_le n p → n ≤ m → depth_le m p.
Proof.
  intros Hd. revert m. induction Hd as [|n c k _ IH]; intros m Hm; [constructor|].
  destruct m as [|m]; [lia|]. constructor. intros v. apply IH. lia.
Qed.

Lemma flow_depth_le_mono n m fl : flow_depth_le n fl → n ≤ m → flow_depth_le m fl.
Proof. destruct fl; apply depth_le_mono. Qed.

(** The bodies of [auth.ts] and of the startup effect. *)
Lemma register_depth uid e p n : depth_le 3 (Auth.register uid e p n).
Proof. repeat (constructor; intros). Qed.

Lemma login_depth e p : depth_le 2 (Auth.login e p).
Proof. repeat (constructor; intros). Qed.

Lemma logout_depth : depth_le 1 Auth.logout.
Proof. repeat (constructor; intros). Qed.

Lemma startup_depth : depth_le 1 startup_flow.
Proof. repeat (constructor; intros). Qed.

#[export] Hint Resolve register_depth login_depth logout_depth startup_depth : depth.

Section Steps.
Context {Sv : Type} `{SessionService Sv} `{!ServiceEnv Sv}.

(** A resumption that leaves the flow suspended used up one await. *)
Lemma step_prog_depth {A} d (p p' : prog A) s s' :
  depth_le d p → step_prog p s = (s', inl p') → ∃ d', d = S d' ∧ depth_le d' p'.
Proof.
  intros Hd. destruct Hd as [|d c k Hk]; simpl; [done|].
  destruct (perform c s) as [s1 [v|e]]; [|done].
  destruct (k v) eqn:Hkv; intros [= _ <-]. exists d. split; [done|]. rewrite <- Hkv. apply Hk.
Qed.

Lemma settle_flow_depth d fl fl' (a a' : App Sv) :
  flow_depth_le d fl → settle_flow fl a = (a', Some fl') →
  ∃ d', d = S d' ∧ flow_depth_le d' fl'.
Proof.
  destruct fl as [p|k p|k p|k p]; simpl;
    destruct (step_prog p (remote a)) as [s' [p'|o]] eqn:E; intros Hd; try done;
    intros [= _ <-]; exact (step_prog_depth _ _ _ _ _ Hd E).
Qed.

(** Resuming flow [i] keeps the other flows and changes flow [i] into
    its continuation or removes it. *)
Lemma settle_flows i (a a' : App Sv) :
  settle i a = Some a' →
  ∃ fl a1, flows a !! i = Some fl ∧
    ((∃ fl', settle_flow fl a = (a1, Some fl') ∧ flows a' = <[i := fl']> (flows a)) ∨
     (settle_flow fl a = (a1, None) ∧ flows a' = delete i (flows a))).
Proof.
  unfold settle. destruct (flows a !! i) as [fl|] eqn:Hi; [|done]. simpl.
  destruct (settle_flow fl a) as [a1 [fl'|]] eqn:Hs; intros [= <-]; exists fl, a1; eauto 10.
Qed.

Lemma redirect_flows (a : App Sv) : flows (redirect a) = flows a.
Proof.
  unfold redirect. destruct (checking (root a)); [done|].
  destruct (stack a) as [|fr rest]; [done|]. by destruct (gate _ _).
Qed.

(** A press starts one of the bodies of [auth.ts]. *)
Lemma press_depth key uid l l' al fl :
  press key uid l = Some (l', al, Some fl) → flow_depth_le max_awaits fl.
Proof.
  destruct l as [|f|f|h]; simpl; [done| | |].
  - destruct (press_login f) as [[f' al'] [p|]] eqn:Hp; intros [= _ _ <-].
    unfold press_login, onLogin_start in Hp. repeat case_match; simplify_eq.
    eapply depth_le_mono; [apply login_depth|unfold max_awaits; lia].
  - destruct (press_register uid f) as [[f' al'] [p|]] eqn:Hp; intros [= _ _ <-].
    unfold press_register, onRegister_start in Hp. repeat case_match; simplify_eq.
    apply register_depth.
  - destruct (press_logout h) as [h' [p|]] eqn:Hp; intros [= _ _ <-].
    unfold press_logout, onLogout_start in Hp. repeat case_match; simplify_eq.
    eapply depth_le_mono; [apply logout_depth|unfold max_awaits; lia].
Qed.

(** What an event does to the flows in flight: nothing, a press adds
    the flow it starts, or one flow is resumed (kept with its
    continuation, or removed when it finished). *)
Lemma handle_flows ev (a a' : App Sv) :
  handle ev a = Some a' →
  flows a' = flows a ∨
  (∃ fr rest l' al fl, stack a = fr :: rest ∧
     press (fr_key fr) (ID_unique (next_id a)) (fr_local fr) = Some (l', al, Some fl) ∧
     flows a' = (flows a ++ [fl])%list) ∨
  (∃ i fl a1, flows a !! i = Some fl ∧
     ((∃ fl', settle_flow fl a = (a1, Some fl') ∧ flows a' = <[i := fl']> (flows a)) ∨
      (settle_flow fl a = (a1, None) ∧ flows a' = delete i (flows a)))).
Proof.
  unfold handle. intros (a1 & Ha1 & ->)%fmap_Some. rewrite redirect_flows.
  destruct ev; try (injection Ha1 as <-; by left);
    try (destruct (checking (root a)); [done|];
         destruct (stack a) as [|fr rest] eqn:Hs; [done|]; simpl in Ha1).
  all: try (destruct (type_field _ _ _); simplify_eq/=; by left).
  all: try (destruct (fr_local fr); simplify_eq/=; by left).
  all: try (destruct (link_allowed _ _); simplify_eq/=; by left).
  all: try (destruct rest; simplify_eq/=; by left).
  - destruct (press _ _ _) as [[[l' al] [fl|]]|] eqn:Hp; simplify_eq/=.
    + right; left. by exists fr, rest, l', al, fl.
    + left. by rewrite app_nil_r.
  - right; right. apply settle_flows in Ha1 as (fl & a2 & Hi & Hc). by exists i, fl, a2.
Qed.

(** Every event keeps all flows bounded. *)
Lemma handle_depth ev (a a' : App Sv) :
  Forall (flow_depth_le max_awaits) (flows a) → handle ev a = Some a' →
  Forall (flow_depth_le max_awaits) (flows a').
Proof.
  intros Hf Hh.
  destruct (handle_flows _ _ _ Hh)
    as [-> | [(fr & rest & l' & al & fl & _ & Hp & ->) | (i & fl & a1 & Hi & [(fl' & Hs & ->) | (_ & ->)])]].
  - exact Hf.
  - apply Forall_app. split; [exact Hf|]. apply Forall_singleton. by eapply press_depth.
  - apply Forall_insert; [exact Hf|].
    pose proof (Forall_lookup_1 _ _ _ _ Hf Hi) as Hd.
    destruct (settle_flow_depth _ _ _ _ _ Hd Hs) as (d' & Hd' & Hfl').
    apply (flow_depth_le_mono d'); [done|]. unfold max_awaits in *. lia.
  - by apply Forall_delete.
Qed.

Lemma run_events_app (evs1 evs2 : list Event) (a : App Sv) :
  run_events (evs1 ++ evs2) a = a1 ← run_events evs1 a; run_events evs2 a1.
Proof.
  revert a. induction evs1 as [|ev evs1 IH]; intros a; simpl; [done|].
  destruct (handle ev a); simpl; [apply IH|done].
Qed.

(** Resuming the first flow in flight. *)
Lemma handle_settle_head (a : App Sv) fl fls a1 nfl :
  flows a = fl :: fls → settle_flow fl a = (a1, nfl) →
  ∃ a', handle (EvSettle 0) a = Some a' ∧
        flows a' = match nfl with Some fl' => fl' :: fls | None => fls end.
Proof.
  intros Hfl Hs. unfold handle, settle. rewrite Hfl. simpl. rewrite Hs.
  eexists. split; [done|]. rewrite redirect_flows. simpl. by destruct nfl.
Qed.

(** Resuming the first flow over and over finishes it within [S d]
    resumptions and leaves the others in flight as they were. *)
Lemma settle_head_drains d : ∀ (a : App Sv) fl fls,
  flows a = fl :: fls → flow_depth_le d fl →
  ∃ n a', n ≤ S d ∧ run_events (repeat (EvSettle 0) n) a = Some a' ∧ flows a' = fls.
Proof.
  induction d as [|d IH]; intros a fl fls Hfl Hd;
    destruct (settle_flow fl a) as [a1 [fl'|]] eqn:Hs;
    destruct (handle_settle_head _ _ _ _ _ Hfl Hs) as (a2 & Hh & Hf2).
  1: by destruct (settle_flow_depth _ _ _ _ _ Hd Hs) as (? & ? & _).
  2: destruct (settle_flow_depth _ _ _ _ _ Hd Hs) as (d' & Hd' & Hfl').
  all: try (exists 1, a2; split_and!; [lia | simpl; by rewrite Hh | done]).
  injection Hd' as <-. destruct (IH _ _ _ Hf2 Hfl') as (n & a' & Hn & Hrun & Ha').
  exists (S n), a'. split_and!; [lia | simpl; by rewrite Hh | done].
Qed.

(** Resuming the first flow until none is left takes at most
    [S max_awaits] resumptions per flow. *)
Lemma drain_flows : ∀ fls (a : App Sv),
  flows a = fls → Forall (flow_depth_le max_awaits) fls →
  ∃ n a', n ≤ S max_awaits * List.length fls ∧
    run_events (repeat (EvSettle 0) n) a = Some a' ∧ flows a' = [].
Proof.
  induction fls as [|fl fls IH]; intros a Hfl Hd.
  - exists 0, a. split_and!; simpl; [lia|done|done].
  - apply Forall_cons in Hd as [Hd0 Hd].
    destruct (settle_head_drains _ _ _ _ Hfl Hd0) as (n1 & a1 & Hn1 & Hr1 & Hf1).
    destruct (IH a1 Hf1 Hd) as (n2 & a' & Hn2 & Hr2 & Hf2).
    exists (n1 + n2), a'. split_and!; [unfold max_awaits in *; simpl; lia| |done].
    by rewrite repeat_app, run_events_app, Hr1.
Qed.
(** ** Resumptions in any order

    [ds] lists a bound on the awaits of each flow in flight; every
    resumption of any flow lowers [sum_list_with S ds], the number of
    resumptions still possible. *)

Lemma sum_insert_lt (ds : list nat) i d d' :
  ds !! i = Some d → d' < d → sum_list_with S (<[i := d']> ds) < sum_list_with S ds.
Proof.
  revert i. induction ds as [|x ds IH]; intros [|i]; simpl; try done.
  - intros [= ->]. lia.
  - intros Hi Hlt. specialize (IH i Hi Hlt). lia.
Qed.

Lemma sum_delete_lt (ds : list nat) i d :
  ds !! i = Some d → sum_list_with S (delete i ds) < sum_list_with S ds.
Proof.
  revert i. induction ds as [|x ds IH]; intros [|i]; simpl; try done.
  - intros _. lia.
  - intros Hi. specialize (IH i Hi). lia.
Qed.

Lemma sum_replicate n d : sum_list_with S (replicate n d) = S d * n.
Proof. induction n as [|n IH]; simpl; [lia|]. rewrite IH. lia. Qed.

Lemma handle_settle i (a a' : App Sv) :
  handle (EvSettle i) a = Some a' → ∃ a1, settle i a = Some a1 ∧ flows a' = flows a1.
Proof.
  unfold handle. intros (a1 & Ha1 & ->)%fmap_Some. exists a1. by rewrite redirect_flows.
Qed.

(** One resumption lowers the number of resumptions still possible. *)
Lemma settle_weight i (a a1 : App Sv) ds :
  Forall2 flow_depth_le ds (flows a) → settle i a = Some a1 →
  ∃ ds', Forall2 flow_depth_le ds' (flows a1) ∧ sum_list_with S ds' < sum_list_with S ds.
Proof.
  intros Hds Hs. apply settle_flows in Hs as (fl & a2 & Hi & Hc).
  destruct (Forall2_lookup_r _ _ _ _ _ Hds Hi) as (d & Hd & Hdfl).
  destruct Hc as [(fl' & Hsf & ->) | (_ & ->)].
  - destruct (settle_flow_depth _ _ _ _ _ Hdfl Hsf) as (d' & -> & Hfl').
    exists (<[i := d']> ds). split; [by apply Forall2_insert|].
    apply (sum_insert_lt _ _ _ _ Hd). lia.
  - exists (delete i ds). split; [by apply Forall2_delete|]. exact (sum_delete_lt _ _ _ Hd).
Qed.

(** Any run of resumptions, of any flows in any order, is at most as
    long as the resumptions the bounds [ds] allow. *)
Lemma settles_bounded (ids : list nat) : ∀ (a a' : App Sv) ds,
  Forall2 flow_depth_le ds (flows a) → run_events (map EvSettle ids) a = Some a' →
  List.length ids ≤ sum_list_with S ds.
Proof.
  induction ids as [|i ids IH]; intros a a' ds Hds; simpl; [lia|].
  destruct (handle (EvSettle i) a) as [a1|] eqn:Hh; [|done]. simpl. intros Hrun.
  destruct (handle_settle _ _ _ Hh) as (a2 & Hs & Hf).
  destruct (settle_weight _ _ _ _ Hds Hs) as (ds' & Hds' & Hlt).
  rewrite <- Hf in Hds'. specialize (IH _ _ _ Hds' Hrun). lia.
Qed.

(** The flows of a reachable state are bounded. *)
Lemma reachable_depth (s0 : Sv) (a : App Sv) :
  reachable s0 a → Forall (flow_depth_le max_awaits) (flows a).
Proof.
  induction 1 as [|a ev a' _ IH Hh]; [|by eapply handle_depth].
  apply Forall_singleton. simpl. eapply depth_le_mono; [apply startup_depth|].
  unfold max_awaits. lia.
Qed.
End Steps.

Section Claims.
Context {Sv : Type} `{SessionService Sv} `{!ServiceEnv Sv}.

(** [C11] Every flow in flight finishes: from every reachable state,
    if the service answers, resuming the first flow in flight at most
    four times per flow leaves no flow in flight, in a reachable state
    where [checking] is over; and no run of resumptions, of any flows
    in any order, is longer than that bound. *)
Theorem reachable_drains (s0 : Sv) (a : App Sv) :
  reachable s0 a →
  (∀ ids a', run_events (map EvSettle ids) a = Some a' →
            List.length ids ≤ S max_awaits * List.length (flows a)) ∧
  ∃ n a', n ≤ S max_awaits * List.length (flows a) ∧
    run_events (repeat (EvSettle 0) n) a = Some a' ∧
    flows a' = [] ∧ reachable s0 a' ∧ checking (root a') = false.
Proof.
  intros Hr. split.
  { intros ids a' Hrun. rewrite <- sum_replicate.
    apply (settles_bounded ids a a'); [|exact Hrun].
    apply Forall2_replicate_l; [done|exact (reachable_depth s0 a Hr)]. }
  destruct (drain_flows (flows a) a eq_refl (reachable_depth s0 a Hr))
    as (n & a' & Hn & Hrun & Hf).
  assert (Hr' : reachable s0 a') by exact (run_events_reachable _ _ _ _ Hr Hrun).
  exists n, a'. split_and!; [done|done|done|done|].
  destruct (reachable_inv _ _ Hr') as [Hinv _].
  destruct (checking (root a')) eqn:Hc; [|done].
  apply (inv_checking _ Hinv) in Hc. by rewrite Hf in Hc.
Qed.
End Claims.

Section Witnesses.
Import MemoryService.

(** The two flows in flight after [race_prefix] (a sign-in and a
    create-account) drain in at most eight resumptions. *)
Lemma reachable_drains_witness :
  reachable alice_remote race_state ∧
  (∀ ids a', run_events (map EvSettle ids) race_state = Some a' →
            List.length ids ≤ S max_awaits * List.length (flows race_state)) ∧
  ∃ n a', n ≤ S max_awaits * List.length (flows race_state) ∧
    run_events (repeat (EvSettle 0) n) race_state = Some a' ∧
    flows a' = [] ∧ reachable alice_remote a' ∧ checking (root a') = false.
Proof.
  split; [exact race_state_reachable | exact (reachable_drains _ _ race_state_reachable)].
Defined.

End Witnesses.

End Drain.
