(* ===== verification/Bounds.v ===== *)
(** * How many flows can be in flight

    A handler's flow is tied to the screen instance that started it (its
    mount key).  The button of that screen is disabled while the flow is
    in flight, so one screen instance never has two flows at once, even
    after it is dismissed: once dismissed it cannot be pressed again.
    Two flows of the same handler need two screen instances (the run of
    [Scenarios.two_logins_in_flight]).

    Theorem: in every reachable state each mount key has at most one
    flow in flight, and the number of flows in flight is at most one
    more than the number of mount keys handed out ([next_key]); the one
    more is the startup resolver. *)

From S2P Require Import Prelude Service MemoryService Screens Layout App Drain.

Module Bounds.
Import Screens Layout App Drain.
Open Scope nat_scope.

(** No mount key has two flows in flight. *)
Definition keys_single (fls : list Flow) : Prop := ∀ k, count_where (keyed k) fls ≤ 1.

(** ** Counting flows by their key *)

Lemma keys_single_cons fl (fls : list Flow) : keys_single (fl :: fls) → keys_single fls.
Proof. intros H k. specialize (H k). simpl in H. lia. Qed.

(** The mount keys of the handlers' flows, in order. *)
Lemma omap_key_elem k (fls : list Flow) :
  k ∈ omap flow_key fls → 1 ≤ count_where (keyed k) fls.
Proof.
  intros (fl & Hfl & Hk)%list_elem_of_omap.
  by apply (count_where_pos _ _ fl); [|apply keyed_eq].
Qed.

(** Keys single means the keyed flows have distinct keys. *)
Lemma keys_single_nodup (fls : list Flow) : keys_single fls → NoDup (omap flow_key fls).
Proof.
  induction fls as [|fl fls IH]; intros Hs; simpl; [constructor|].
  pose proof (keys_single_cons _ _ Hs) as Hs'.
  destruct (flow_key fl) as [k|] eqn:Hk; [|by apply IH].
  constructor; [|by apply IH]. intros Hin%omap_key_elem.
  specialize (Hs k). simpl in Hs. rewrite (keyed_eq k fl Hk) in Hs. lia.
Qed.

(** A flow is the startup resolver or a handler's flow with a key. *)
Lemma length_flows (fls : list Flow) :
  List.length fls = count_where is_startup fls + List.length (omap flow_key fls).
Proof. induction fls as [|[] fls IH]; csimpl; rewrite ?IH; simpl; lia. Qed.

(** Pigeonhole: distinct keys below [nk] are at most [nk]. *)
Lemma nodup_below_length (ks : list nat) nk :
  NoDup ks → Forall (λ k, k < nk) ks → List.length ks ≤ nk.
Proof.
  intros Hnd Hlt. rewrite <- (length_seq nk 0).
  apply List.NoDup_incl_length; [by apply NoDup_ListNoDup|]. intros k Hk.
  apply in_seq. eapply Forall_forall in Hlt; [|by apply list_elem_of_In]. lia.
Qed.

Lemma omap_key_fresh (fls : list Flow) nk :
  flows_fresh fls nk → Forall (λ k, k < nk) (omap flow_key fls).
Proof.
  intros Hff. apply Forall_forall. intros k (fl & Hfl & Hk)%list_elem_of_omap.
  eapply Forall_forall in Hff; [|done]. by apply Hff.
Qed.

(** ** The invariant *)

Section Invariant.
Context {Sv : Type} `{SessionService Sv} `{!ServiceEnv Sv}.

Lemma settle_flow_key fl fl' (a a1 : App Sv) :
  settle_flow fl a = (a1, Some fl') → flow_key fl' = flow_key fl.
Proof.
  destruct fl as [p|k p|k p|k p]; simpl;
    destruct (step_prog p (remote a)) as [s' [p'|o]]; by intros [= _ <-].
Qed.

(** A press adds a flow only under a key that had none. *)
Lemma press_keys_single (a : App Sv) fr rest l' al fl :
  inv_core a → stack a = fr :: rest →
  press (fr_key fr) (ID_unique (next_id a)) (fr_local fr) = Some (l', al, Some fl) →
  keys_single (flows a) → keys_single (flows a ++ [fl])%list.
Proof.
  intros Hinv Hs Hp Hks k. rewrite count_where_app. simpl.
  apply press_cases in Hp as [[? _] | (fl0 & [= <-] & _ & Hl & _ & _ & Hk & _)]; [done|].
  destruct (decide (k = fr_key fr)) as [->|Hne].
  - pose proof (so_pending _ _ _ (inv_stack_ok _ Hinv)) as Hpend. rewrite Hs in Hpend.
    apply Forall_cons in Hpend as [Hpend _]. rewrite Hpend, Hl, (keyed_eq _ _ Hk). lia.
  - rewrite (keyed_ne _ _ _ Hk Hne). specialize (Hks k). lia.
Qed.

Lemma handle_keys_single ev (a a' : App Sv) :
  inv_core a → keys_single (flows a) → handle ev a = Some a' → keys_single (flows a').
Proof.
  intros Hinv Hks Hh.
  destruct (handle_flows _ _ _ Hh)
    as [-> | [(fr & rest & l' & al & fl & Hs & Hp & ->) | (i & fl & a1 & Hi & [(fl' & Hsf & ->) | (_ & ->)])]].
  - exact Hks.
  - exact (press_keys_single _ _ _ _ _ _ Hinv Hs Hp Hks).
  - intros k. rewrite (count_where_insert _ _ _ _ fl Hi); [apply Hks|].
    apply keyed_same. exact (settle_flow_key _ _ _ _ Hsf).
  - intros k. pose proof (count_where_delete (keyed k) _ _ _ Hi). specialize (Hks k). lia.
Qed.

Lemma reachable_keys_single (s0 : Sv) (a : App Sv) :
  reachable s0 a → keys_single (flows a).
Proof.
  induction 1 as [|a ev a' Hr IH Hh]; [intros k; simpl; lia|].
  destruct (reachable_inv _ _ Hr) as [Hinv _]. exact (handle_keys_single _ _ _ Hinv IH Hh).
Qed.

(** [C24] Bounded flows: in every reachable state each screen instance
    (mount key) has at most one flow in flight, dismissed or not, and
    the flows in flight are at most one per mount key handed out plus
    the startup resolver. *)
Theorem reachable_flows_bounded (s0 : Sv) (a : App Sv) :
  reachable s0 a →
  (∀ k, count_where (keyed k) (flows a) ≤ 1) ∧ List.length (flows a) ≤ S (next_key a).
Proof.
  intros Hr. pose proof (reachable_keys_single _ _ Hr) as Hks. split; [exact Hks|].
  destruct (reachable_inv _ _ Hr) as [[_ H1 _ _ Hff _] _].
  rewrite length_flows.
  pose proof (nodup_below_length _ _ (keys_single_nodup _ Hks) (omap_key_fresh _ _ Hff)).
  lia.
Qed.
End Invariant.

Section Witnesses.
Import MemoryService.

Lemma reachable_flows_bounded_witness :
  reachable alice_remote race_state ∧
  (∀ k, count_where (keyed k) (flows race_state) ≤ 1) ∧
  List.length (flows race_state) ≤ S (next_key race_state).
Proof.
  split; [exact race_state_reachable | exact (reachable_flows_bounded _ _ race_state_reachable)].
Defined.
End Witnesses.

End Bounds.
