(* ===== verification/Accounts.v ===== *)
(** * What the app stores on the service: trimmed emails and names

    The two forms hand their fields to the service through [trim]:
    [login.tsx] line 28 calls [login(email.trim(), password)] and
    [register.tsx] line 24 calls [register(email.trim(), password,
    name.trim())].  [auth.ts] passes them on unchanged to
    [account.create] and [createEmailPasswordSession].

    [prog_trimmed p] says every SDK call [p] can still make carries
    trimmed form input; [accounts_trimmed s0 s] says every account of
    [s] that was not already in the start state [s0] has a trimmed
    email and a trimmed user name.  Both hold in every reachable
    state, for any service that keeps the SDK laws (a call changes
    the accounts only by [account.create] of its own arguments) and
    whatever the environment does (network, expiry: no account
    changes).

    Theorem: the app never creates an account whose email or name has
    surrounding whitespace, whatever the user typed. *)

From S2P Require Import Prelude JsString Service MemoryService Auth Screens Layout App Drain.

Module Accounts.
Import JsString Screens Layout App Drain.

(** A field as [String.prototype.trim] leaves it. *)
Definition trimmed (s : string) : Prop := trim s = s.

(** The form input an SDK call carries is trimmed. *)
Definition call_trimmed (c : call) : Prop :=
  match c with
  | AccountCreate _ e _ n => trimmed e ∧ trimmed n
  | CreateEmailPasswordSession e _ => trimmed e
  | AccountGet | DeleteSession _ => True
  end.

(** Every call [p] can still make, on any path, is [call_trimmed]. *)
Fixpoint prog_trimmed {A} (p : prog A) : Prop :=
  match p with
  | Done _ => True
  | Await c k => call_trimmed c ∧ ∀ v, prog_trimmed (k v)
  end.

Definition flow_trimmed (fl : Flow) : Prop :=
  match fl with
  | FStartup p => prog_trimmed p
  | FLogin _ p => prog_trimmed p
  | FRegister _ p => prog_trimmed p
  | FLogout _ p => prog_trimmed p
  end.

Section Invariant.
Context {Sv : Type} `{SessionServiceLaws Sv} `{!ServiceEnv Sv}.
Variable s0 : Sv.

(** The screens' buttons start flows that send trimmed input. *)
Hypothesis press_trimmed : ∀ key uid l l' al fl,
  press key uid l = Some (l', al, Some fl) → flow_trimmed fl.

(** The accounts created since [s0] have a trimmed email and name. *)
Definition accounts_trimmed (s : Sv) : Prop :=
  ∀ e u p, sv_account s0 e = None → sv_account s e = Some (u, p) →
           trimmed e ∧ trimmed (user_name u).

Record trimmed_inv (a : App Sv) : Prop := {
  ti_accounts : accounts_trimmed (remote a);
  ti_flows : Forall flow_trimmed (flows a);
}.

Lemma accounts_trimmed_same (s s' : Sv) :
  sv_account s' = sv_account s → accounts_trimmed s → accounts_trimmed s'.
Proof. intros Heq Hs e u p. rewrite Heq. apply Hs. Qed.

(** A call that resolves changes the accounts only by [account.create]
    of its own email and name. *)
Lemma perform_trimmed c (s s' : Sv) o :
  call_trimmed c → accounts_trimmed s → perform c s = (s', o) → accounts_trimmed s'.
Proof.
  intros Hc Hs Hp. destruct o as [v|err]; [|by rewrite (rejected_no_effect _ _ _ _ Hp)].
  destruct c as [uid e p n|e p| |sid]; simpl in *.
  - destruct (create_sound _ _ _ _ _ _ _ Hp) as (_ & Hnew & _ & Hname & _ & Hold & _).
    intros e' u' p' Hn0 Hn1. destruct (decide (e' = e)) as [->|Hne].
    + rewrite Hnew in Hn1. injection Hn1 as <- _. by rewrite Hname.
    + rewrite Hold in Hn1 by done. exact (Hs _ _ _ Hn0 Hn1).
  - destruct (session_sound _ _ _ _ _ Hp) as (_ & _ & _ & Hacc & _).
    exact (accounts_trimmed_same _ _ Hacc Hs).
  - by destruct (get_sound _ _ _ Hp) as [-> _].
  - destruct (delete_sound _ _ _ _ Hp) as (_ & Hacc & _).
    exact (accounts_trimmed_same _ _ Hacc Hs).
Qed.

Lemma step_prog_trimmed {A} (p : prog A) (s s' : Sv) r :
  prog_trimmed p → accounts_trimmed s → step_prog p s = (s', r) →
  accounts_trimmed s' ∧ ∀ p', r = inl p' → prog_trimmed p'.
Proof.
  destruct p as [x|c k]; simpl; [by intros _ ? [= <- <-]|].
  intros [Hc Hk] Hs. destruct (perform c s) as [s1 [v|e]] eqn:Hp.
  - pose proof (perform_trimmed _ _ _ _ Hc Hs Hp).
    specialize (Hk v). destruct (k v); intros [= <- <-]; by split; [|intros ? [= <-]].
  - pose proof (perform_trimmed _ _ _ _ Hc Hs Hp). by intros [= <- <-].
Qed.

(** A resumption keeps the accounts trimmed, and the flow it leaves. *)
Lemma settle_flow_trimmed fl (a a1 : App Sv) nfl :
  flow_trimmed fl → accounts_trimmed (remote a) → settle_flow fl a = (a1, nfl) →
  accounts_trimmed (remote a1) ∧ ∀ fl', nfl = Some fl' → flow_trimmed fl'.
Proof.
  intros Hfl Hs. destruct fl as [p|k p|k p|k p]; simpl in *;
    destruct (step_prog p (remote a)) as [s' r] eqn:E;
    destruct (step_prog_trimmed _ _ _ _ Hfl Hs E) as [Hs' Hr];
    destruct r as [p'|o]; intros [= <- <-];
    (split; [unfold finish_startup, finish_login, finish_register, finish_logout;
             repeat case_match; exact Hs'|]);
    intros ? [= <-]; by apply Hr.
Qed.

Lemma redirect_remote (a : App Sv) : remote (redirect a) = remote a.
Proof.
  unfold redirect. destruct (checking (root a)); [done|].
  destruct (stack a) as [|fr rest]; [done|]. by destruct (gate _ _).
Qed.

(** A user action leaves the service alone; a press adds its flow. *)
Lemma user_event_trimmed ev fr rest (a a1 : App Sv) :
  trimmed_inv a → user_event ev fr rest a = Some a1 → trimmed_inv a1.
Proof.
  intros [Hs Hf]. destruct ev; simpl.
  all: try (destruct (type_field _ _ _); intros; simplify_eq/=; by constructor).
  all: try (destruct (fr_local fr); intros; simplify_eq/=; by constructor).
  all: try (destruct (link_allowed _ _); intros; simplify_eq/=; by constructor).
  all: try (destruct rest; intros; simplify_eq/=; by constructor).
  all: try done.
  destruct (press _ _ _) as [[[l' al] [fl|]]|] eqn:Hp; intros; simplify_eq/=;
    constructor; simpl; try done; apply Forall_app; split; try done.
  apply Forall_singleton. exact (press_trimmed _ _ _ _ _ _ Hp).
Qed.

Lemma handle_trimmed ev (a a' : App Sv) :
  trimmed_inv a → handle ev a = Some a' → trimmed_inv a'.
Proof.
  intros Hinv. unfold handle. intros (a1 & Ha1 & ->)%fmap_Some.
  cut (trimmed_inv a1).
  { intros [Hs Hf]. constructor; [by rewrite redirect_remote | by rewrite redirect_flows]. }
  destruct Hinv as [Hs Hf]. destruct ev as [fld v| | |r| |i|b|].
  all: try (destruct (checking (root a)); [congruence|];
            destruct (stack a) as [|fr rest]; [congruence|];
            refine (user_event_trimmed _ fr rest a a1 _ Ha1); by constructor).
  - unfold settle in Ha1. destruct (flows a !! i) as [fl|] eqn:Hi; simpl in Ha1; [|congruence].
    destruct (settle_flow fl a) as [a2 nfl] eqn:Hsf. injection Ha1 as <-.
    destruct (settle_flow_trimmed fl a a2 nfl (Forall_lookup_1 _ _ _ _ Hf Hi) Hs Hsf) as [Hs' Hn].
    constructor; [exact Hs'|]. simpl. destruct nfl as [fl'|].
    + apply Forall_insert; [exact Hf | by apply Hn].
    + by apply Forall_delete.
  - injection Ha1 as <-. constructor; [|exact Hf].
    apply (accounts_trimmed_same (remote a)); [apply set_online_spec | exact Hs].
  - injection Ha1 as <-. constructor; [|exact Hf].
    apply (accounts_trimmed_same (remote a)); [apply expire_spec | exact Hs].
Qed.

Lemma reachable_trimmed (a : App Sv) : reachable s0 a → trimmed_inv a.
Proof.
  induction 1 as [|a ev a' _ IH Hh].
  - constructor; [intros e u p Hn0 Hn1; simpl in Hn1; congruence|].
    repeat constructor.
  - exact (handle_trimmed _ _ _ IH Hh).
Qed.
End Invariant.

(** [C19] The app creates no account whose email or name has
    surrounding whitespace: in every reachable state, for any service
    that keeps the SDK laws, an account that was not there at the
    start has an email and a user name that [trim] leaves unchanged,
    whatever was typed into the fields ([register.tsx] line 24 trims
    both; [auth.ts] passes them to [account.create]). *)
Theorem reachable_accounts_trimmed {Sv : Type} `{SessionServiceLaws Sv} `{!ServiceEnv Sv}
    (s0 : Sv) (a : App Sv) e u p :
  reachable s0 a → sv_account s0 e = None → sv_account (remote a) e = Some (u, p) →
  trim e = e ∧ trim (user_name u) = user_name u.
Proof.
  intros Hr. apply (ti_accounts s0 a); [|exact Hr..].
  apply reachable_trimmed; [|exact Hr].
  (* the forms trim what they send: a press starts a trimmed flow *)
  intros key uid l l' al fl. unfold trimmed. destruct l as [|f|f|h]; simpl; [done| | |].
  - destruct (press_login f) as [[f' al'] [q|]] eqn:Hp; intros [= _ _ <-].
    unfold press_login, onLogin_start in Hp. repeat case_match; simplify_eq/=.
    split; [apply trim_idempotent|done].
  - destruct (press_register uid f) as [[f' al'] [q|]] eqn:Hp; intros [= _ _ <-].
    unfold press_register, onRegister_start in Hp. repeat case_match; simplify_eq/=.
    split; [split; apply trim_idempotent|]. intros _. split; [apply trim_idempotent|done].
  - destruct (press_logout h) as [h' [q|]] eqn:Hp; intros [= _ _ <-].
    unfold press_logout, onLogout_start in Hp. repeat case_match; simplify_eq/=. done.
Qed.

Section Witnesses.
Import MemoryService.

(** Carol registers with blanks around her name and email. *)
Definition carol_events : list Event :=
  [EvSettle 0; EvLink RRegister; EvType FName "  Carol "; EvType FEmail " carol@example.com  ";
   EvType FPassword "pw-carol"; EvPress; EvSettle 0].

Definition carol_state : App Remote :=
  default (app_init empty_remote) (run_events carol_events (app_init empty_remote)).

Lemma reachable_accounts_trimmed_witness :
  reachable empty_remote carol_state ∧
  sv_account empty_remote "carol@example.com" = None ∧
  sv_account (remote carol_state) "carol@example.com" =
    Some (mkUser "id0" "carol@example.com" "Carol" ∅, "pw-carol") ∧
  trim "carol@example.com" = "carol@example.com" ∧
  trim (user_name (mkUser "id0" "carol@example.com" "Carol" ∅)) =
    user_name (mkUser "id0" "carol@example.com" "Carol" ∅).
Proof.
  assert (Hr : reachable empty_remote carol_state).
  { apply (run_events_reachable _ carol_events (app_init empty_remote)); [constructor|].
    vm_compute. reflexivity. }
  assert (H0 : sv_account empty_remote "carol@example.com" = None) by reflexivity.
  assert (H1 : sv_account (remote carol_state) "carol@example.com" =
                 Some (mkUser "id0" "carol@example.com" "Carol" ∅, "pw-carol"))
    by (vm_compute; reflexivity).
  split_and!; [exact Hr | exact H0 | exact H1 | ..];
    [exact (proj1 (reachable_accounts_trimmed _ _ _ _ _ Hr H0 H1))
    | exact (proj2 (reachable_accounts_trimmed _ _ _ _ _ Hr H0 H1))].
Defined.
End Witnesses.

End Accounts.
