(* ===== verification/Journeys.v ===== *)
(** * Sign-in and sign-out from every reachable state

    The screens' handlers and the flows of [auth.ts] composed with the
    navigation of [App]: the user presses the button of the screen on
    top and the service answers each awaited call of the flow that
    starts ([EvSettle] of the last flow in flight, the one the press
    added), with nothing else happening in between.

    Theorems, for any service that keeps the SDK laws and from every
    reachable state (other flows may be in flight):
    - sign-in works: on the sign-in screen, with both fields filled and
      an account for the trimmed email and this password, the press
      and the two replies ([createEmailPasswordSession],
      [account.get]) sign the user in on the app and on the server,
      and the sign-in screen is replaced by home ([login.tsx]
      [setUser(me)], then its [<Redirect href="/home">]);
    - creating an account works: on the create-account screen, with
      every field filled and no account for the trimmed email, the
      press and the three replies store the account under the trimmed
      email and name, sign its user in, and replace the screen by
      home ([register.tsx] lines 17-26);
    - sign-out works: on home, with a live session, the press and the
      reply to [deleteSession('current')] sign the user out on both
      sides, and home is replaced by the welcome screen ([home.tsx]
      [setUser(null)], then its [<Redirect href="/">]).
    None raises an alert or leaves a flow behind.  The journeys rest
    on the completeness laws of [SessionServiceLaws] (an online call
    with valid arguments resolves); a real service that refuses for
    its own reasons (password policy, rate limits, an active session)
    takes the error paths of [Screens] instead.

    The step lemmas ([settle_last], [login_press], [register_press], [home_press],
    [home_settle]) are shared with [Scenarios]. *)

From S2P Require Import Prelude JsString Service MemoryService Auth Screens Layout App.

Module Journeys.
Import JsString Screens Layout App.
Open Scope nat_scope.

(** ** One press, one reply *)

Lemma delete_last {A} (l : list A) x : delete (List.length l) (l ++ [x])%list = l.
Proof. induction l as [|y l IH]; simpl; [done|]. by rewrite IH. Qed.

Lemma lookup_last {A} (l : list A) x : (l ++ [x])%list !! List.length l = Some x.
Proof. induction l as [|y l IH]; simpl; [done|]. exact IH. Qed.

Lemma insert_last {A} (l : list A) x y :
  <[List.length l := y]> (l ++ [x])%list = (l ++ [y])%list.
Proof. induction l as [|z l IH]; simpl; [done|]. by rewrite IH. Qed.

Section Steps.
Context {Sv : Type} `{SessionService Sv} `{!ServiceEnv Sv}.

Lemma update_key_absent k g (st : list Frame) :
  k ∉ map fr_key st → update_key k g st = st.
Proof.
  induction st as [|fr st IH]; simpl; [done|]. intros Hk.
  rewrite decide_False; [|intros <-; apply Hk; by left]. f_equal.
  apply IH. intros Hin. apply Hk. by right.
Qed.

(** The last flow in flight settles: it is replaced by what is left
    of it, or removed. *)
Lemma settle_last (a : App Sv) fls fl :
  flows a = (fls ++ [fl])%list →
  handle (EvSettle (List.length fls)) a =
    Some (redirect (let '(a', nfl) := settle_flow fl a in
                    mkApp (remote a') (root a') (stack a') (fls ++ option_list nfl)%list
                          (alerts a') (next_key a') (next_id a'))).
Proof.
  intros Hf. unfold handle, settle. rewrite Hf, lookup_last. simpl.
  destruct (settle_flow fl a) as [a' [fl'|]]; simpl;
    [by rewrite insert_last | by rewrite delete_last, app_nil_r].
Qed.

(** "Sign in" on the sign-in screen, enabled, both fields filled:
    the button is disabled and [login] of the trimmed email is in
    flight. *)
Lemma login_press (a : App Sv) fr rest f :
  checking (root a) = false → stack a = fr :: rest → fr_local fr = LLogin f →
  lf_loading f = false → lf_email f ≠ "" → lf_password f ≠ "" → user (root a) = None →
  handle EvPress a =
    Some (mkApp (remote a) (root a) (mkFrame (fr_key fr) (LLogin (set_lf_loading f true)) :: rest)
                (flows a ++ [FLogin (fr_key fr) (Auth.login (trim (lf_email f)) (lf_password f))])%list
                (alerts a) (next_key a) (next_id a)).
Proof.
  intros Hc Hs Hl Hlf He Hp Hu. unfold handle. rewrite Hc, Hs. simpl. rewrite Hl. simpl.
  rewrite (press_login_submits f Hlf He Hp). simpl.
  unfold redirect. simpl. rewrite Hc, Hu. simpl. by rewrite app_nil_r, Nat.add_0_r.
Qed.

(** "Create account" on the create-account screen, enabled, all
    fields filled: the button is disabled and [register] of the
    trimmed email and name is in flight, under a fresh [ID.unique()]. *)
Lemma register_press (a : App Sv) fr rest f :
  checking (root a) = false → stack a = fr :: rest → fr_local fr = LRegister f →
  rf_loading f = false → rf_name f ≠ "" → rf_email f ≠ "" → rf_password f ≠ "" →
  user (root a) = None →
  handle EvPress a =
    Some (mkApp (remote a) (root a) (mkFrame (fr_key fr) (LRegister (set_rf_loading f true)) :: rest)
                (flows a ++ [FRegister (fr_key fr)
                   (Auth.register (ID_unique (next_id a)) (trim (rf_email f)) (rf_password f)
                                  (trim (rf_name f)))])%list
                (alerts a) (next_key a) (S (next_id a))).
Proof.
  intros Hc Hs Hl Hlf Hn He Hp Hu. unfold handle. rewrite Hc, Hs. simpl. rewrite Hl. simpl.
  unfold press_register, onRegister_start. rewrite Hlf.
  destruct (is_falsy (rf_name f)) eqn:E1; [by apply is_falsy_empty in E1|].
  destruct (is_falsy (rf_email f)) eqn:E2; [by apply is_falsy_empty in E2|].
  destruct (is_falsy (rf_password f)) eqn:E3; [by apply is_falsy_empty in E3|]. simpl.
  unfold redirect. simpl. rewrite Hc, Hu. simpl. by rewrite app_nil_r, Nat.add_1_r.
Qed.

(** "Sign out" on home, enabled, with somebody signed in: the button is
    disabled and [logout] is in flight. *)
Lemma home_press (a : App Sv) fr rest u :
  checking (root a) = false → stack a = fr :: rest →
  fr_local fr = LHome (mkHomeState false) → user (root a) = Some u →
  handle EvPress a =
    Some (mkApp (remote a) (root a) (mkFrame (fr_key fr) (LHome (mkHomeState true)) :: rest)
                (flows a ++ [FLogout (fr_key fr) Auth.logout])%list (alerts a) (next_key a) (next_id a)).
Proof.
  intros Hc Hs Hl Hu. unfold handle. rewrite Hc, Hs. simpl. rewrite Hl. simpl.
  unfold redirect. simpl. rewrite Hc, Hu. simpl. by rewrite app_nil_r, Nat.add_0_r.
Qed.

(** The [logout] of that press settles with the reply [o] of
    [deleteSession]: [onLogout]'s rest runs on the home screen on top,
    and the flow is gone. *)
Lemma home_settle (a : App Sv) k rest fls s' o :
  stack a = mkFrame k (LHome (mkHomeState true)) :: rest → k ∉ map fr_key rest →
  flows a = (fls ++ [FLogout k Auth.logout])%list →
  perform (DeleteSession "current") (remote a) = (s', o) →
  handle (EvSettle (List.length fls)) a =
    Some (redirect
      (let '(user', h', al) := onLogout_finish o (user (root a)) (mkHomeState true) in
       mkApp s' (mkRoot user' (checking (root a))) (mkFrame k (LHome h') :: rest) fls
             (alerts a ++ al)%list (next_key a) (next_id a))).
Proof.
  intros Hs Hk Hf Hp. rewrite (settle_last _ _ _ Hf). simpl. rewrite Hp.
  destruct o as [v|e]; simpl; unfold finish_logout, home_of; simpl; rewrite Hs; simpl;
    rewrite decide_True by done; simpl;
    rewrite update_key_absent by exact Hk; by rewrite app_nil_r.
Qed.
End Steps.

(** ** The two journeys *)

Section Lawful.
Context {Sv : Type} `{SessionServiceLaws Sv} `{!ServiceEnv Sv}.

(** The screen on top of a reachable state is the only one under its
    mount key. *)
Lemma reachable_top_key (s0 : Sv) (a : App Sv) fr rest :
  reachable s0 a → stack a = fr :: rest → fr_key fr ∉ map fr_key rest.
Proof.
  intros Hr Hs. destruct (reachable_inv s0 a Hr) as [Hinv _].
  pose proof (so_nodup _ _ _ (inv_stack_ok _ Hinv)) as Hnd. rewrite Hs in Hnd.
  by apply NoDup_cons in Hnd as [Hk _].
Qed.

(** [C28] Sign-out works from every reachable state: on home, enabled,
    with a user and a live session on the server, pressing "Sign out"
    and the reply to [deleteSession('current')] leave nobody signed in
    on the app or on the server, replace home by the welcome screen
    (its [<Redirect href="/">]), and raise no alert; the other flows
    in flight are untouched (spec 4.2, 8: after logout the Auth State
    is null). *)
Theorem reachable_logout_succeeds (s0 : Sv) (a : App Sv) fr rest h u u' :
  reachable s0 a → checking (root a) = false → stack a = fr :: rest →
  fr_local fr = LHome h → hs_loading h = false → user (root a) = Some u →
  sv_online (remote a) = true → sv_user (remote a) = Some u' →
  ∃ a', run_events [EvPress; EvSettle (List.length (flows a))] a = Some a' ∧
    user (root a') = None ∧ sv_user (remote a') = None ∧
    stack a' = mkFrame (next_key a) LIndex :: rest ∧
    flows a' = flows a ∧ alerts a' = alerts a.
Proof.
  intros Hr Hc Hs Hl Hh Hu Hon Hsv.
  assert (Hl' : fr_local fr = LHome (mkHomeState false)) by (rewrite Hl; destruct h; simpl in *; by subst).
  pose proof (reachable_top_key s0 a fr rest Hr Hs) as Hk.
  destruct (delete_complete _ _ Hon Hsv) as [s' Hp].
  destruct (delete_sound _ _ _ _ Hp) as (Hs' & _ & _).
  simpl. rewrite (home_press a fr rest u Hc Hs Hl' Hu). simpl.
  rewrite (home_settle _ (fr_key fr) rest (flows a) s' (Resolved tt)); simpl; try done.
  unfold redirect. simpl. rewrite Hc. simpl. eexists. split_and!; try done.
  by rewrite app_nil_r.
Qed.

(** [C23] Sign-in works from every reachable state: on the sign-in
    screen, enabled, with both fields filled, a live network and an
    account for the trimmed email with this password, pressing "Sign
    in" and the replies to [createEmailPasswordSession] and
    [account.get] sign the account's user in on the app and on the
    server, replace the sign-in screen by a fresh home (its
    [<Redirect href="/home">]), and raise no alert; the other flows
    in flight are untouched (spec 4.1). *)
Theorem reachable_login_succeeds (s0 : Sv) (a : App Sv) fr rest f u :
  reachable s0 a → checking (root a) = false → stack a = fr :: rest →
  fr_local fr = LLogin f → lf_loading f = false → lf_email f ≠ "" → lf_password f ≠ "" →
  sv_online (remote a) = true →
  sv_account (remote a) (trim (lf_email f)) = Some (u, lf_password f) →
  ∃ a', run_events [EvPress; EvSettle (List.length (flows a)); EvSettle (List.length (flows a))] a
          = Some a' ∧
    user (root a') = Some u ∧ sv_user (remote a') = Some u ∧
    stack a' = mkFrame (next_key a) (LHome home_init) :: rest ∧
    flows a' = flows a ∧ alerts a' = alerts a.
Proof.
  intros Hr Hc Hs Hl Hlf He Hp Hon Hacc.
  assert (Hu : user (root a) = None)
    by (apply (reachable_top_guest s0 a fr rest); try done; by rewrite Hl).
  pose proof (reachable_top_key s0 a fr rest Hr Hs) as Hk.
  destruct (session_complete _ _ _ _ Hon Hacc) as (s1 & ses & Hses).
  destruct (session_sound _ _ _ _ _ Hses) as (u0 & Hacc0 & Hu1 & _ & Hon1).
  rewrite Hacc in Hacc0. injection Hacc0 as <-.
  assert (Hget : perform AccountGet s1 = (s1, Resolved u))
    by (apply get_complete; [by rewrite Hon1 | exact Hu1]).
  simpl. rewrite (login_press a fr rest f Hc Hs Hl Hlf He Hp Hu). simpl.
  erewrite (settle_last _ (flows a)) by reflexivity. simpl. rewrite Hses. simpl.
  unfold redirect at 1. simpl. rewrite Hc, Hu. simpl.
  erewrite (settle_last _ (flows a)) by reflexivity. simpl. rewrite Hget. simpl.
  unfold finish_login, login_form_of. simpl. rewrite decide_True by done. simpl.
  rewrite update_key_absent by exact Hk. unfold redirect. simpl. rewrite Hc. simpl.
  eexists. split_and!; try done; simpl; by rewrite app_nil_r.
Qed.

(** [C27] Creating an account works from every reachable state: on
    the create-account screen, enabled, with every field filled, a
    live network and no account for the trimmed email, pressing
    "Create account" and the replies to [account.create],
    [createEmailPasswordSession] and [account.get] store an account
    under the trimmed email with the password as typed and a user
    named by the trimmed name, sign that user in on the app and on
    the server, replace the screen by a fresh home, and raise no
    alert (spec 4.2). *)
Theorem reachable_register_succeeds (s0 : Sv) (a : App Sv) fr rest f :
  reachable s0 a → checking (root a) = false → stack a = fr :: rest →
  fr_local fr = LRegister f → rf_loading f = false →
  rf_name f ≠ "" → rf_email f ≠ "" → rf_password f ≠ "" →
  sv_online (remote a) = true → sv_account (remote a) (trim (rf_email f)) = None →
  ∃ a' u, run_events [EvPress; EvSettle (List.length (flows a)); EvSettle (List.length (flows a));
                      EvSettle (List.length (flows a))] a = Some a' ∧
    user (root a') = Some u ∧ sv_user (remote a') = Some u ∧
    user_email u = trim (rf_email f) ∧ user_name u = trim (rf_name f) ∧
    sv_account (remote a') (trim (rf_email f)) = Some (u, rf_password f) ∧
    stack a' = mkFrame (next_key a) (LHome home_init) :: rest ∧
    flows a' = flows a ∧ alerts a' = alerts a.
Proof.
  intros Hr Hc Hs Hl Hlf Hn He Hp Hon Hnone.
  assert (Hu : user (root a) = None)
    by (apply (reachable_top_guest s0 a fr rest); try done; by rewrite Hl).
  pose proof (reachable_top_key s0 a fr rest Hr Hs) as Hk.
  destruct (create_complete (ID_unique (next_id a)) _ (rf_password f) (trim (rf_name f)) _ Hon Hnone)
    as (s1 & u & Hcr).
  destruct (create_sound _ _ _ _ _ _ _ Hcr) as (_ & Hacc1 & Hem & Hnm & _ & _ & Hon1).
  destruct (session_complete _ _ s1 u ltac:(by rewrite Hon1) Hacc1) as (s2 & ses & Hses).
  destruct (session_sound _ _ _ _ _ Hses) as (u0 & Hacc0 & Hu2 & Hacc2 & Hon2).
  rewrite Hacc1 in Hacc0. injection Hacc0 as <-.
  assert (Hget : perform AccountGet s2 = (s2, Resolved u))
    by (apply get_complete; [by rewrite Hon2, Hon1 | exact Hu2]).
  simpl. rewrite (register_press a fr rest f Hc Hs Hl Hlf Hn He Hp Hu). simpl.
  erewrite (settle_last _ (flows a)) by reflexivity. simpl. rewrite Hcr. simpl.
  unfold redirect at 1. simpl. rewrite Hc, Hu. simpl.
  erewrite (settle_last _ (flows a)) by reflexivity. simpl. rewrite Hses. simpl.
  unfold redirect at 1. simpl. rewrite Hc, Hu. simpl.
  erewrite (settle_last _ (flows a)) by reflexivity. simpl. rewrite Hget. simpl.
  unfold finish_register, register_form_of. simpl. rewrite decide_True by done. simpl.
  rewrite update_key_absent by exact Hk. unfold redirect. simpl. rewrite Hc. simpl.
  eexists _, u. split_and!; try done; simpl; try by rewrite app_nil_r. by rewrite Hacc2.
Qed.
End Lawful.

Section Witnesses.
Import MemoryService.

(** Alice opens "Sign in" and types her email with blanks around it. *)
Definition login_ready_events : list Event :=
  [EvSettle 0; EvLink RLogin; EvType FEmail " alice@example.com "; EvType FPassword "secret-pw"].

Definition login_ready : App Remote :=
  default (app_init alice_remote) (run_events login_ready_events (app_init alice_remote)).

Definition alice_form : LoginForm := mkLoginForm " alice@example.com " "secret-pw" false.

Lemma reachable_login_succeeds_witness :
  reachable alice_remote login_ready ∧ checking (root login_ready) = false ∧
  stack login_ready = [mkFrame 2 (LLogin alice_form); mkFrame 1 LIndex] ∧
  sv_account (remote login_ready) (trim (lf_email alice_form)) = Some (alice, lf_password alice_form) ∧
  ∃ a', run_events [EvPress; EvSettle (List.length (flows login_ready));
                    EvSettle (List.length (flows login_ready))] login_ready = Some a' ∧
    user (root a') = Some alice ∧ sv_user (remote a') = Some alice ∧
    stack a' = [mkFrame (next_key login_ready) (LHome home_init); mkFrame 1 LIndex] ∧
    flows a' = flows login_ready ∧ alerts a' = alerts login_ready.
Proof.
  assert (Hr : reachable alice_remote login_ready).
  { apply (run_events_reachable _ login_ready_events (app_init alice_remote)); [constructor|].
    vm_compute. reflexivity. }
  assert (Hc : checking (root login_ready) = false) by (vm_compute; reflexivity).
  assert (Hs : stack login_ready = [mkFrame 2 (LLogin alice_form); mkFrame 1 LIndex])
    by (vm_compute; reflexivity).
  assert (Hon : sv_online (remote login_ready) = true) by (vm_compute; reflexivity).
  assert (Hacc : sv_account (remote login_ready) (trim (lf_email alice_form)) =
                   Some (alice, lf_password alice_form)) by (vm_compute; reflexivity).
  split_and!; [exact Hr | exact Hc | exact Hs | exact Hacc |].
  exact (reachable_login_succeeds _ _ _ _ alice_form alice Hr Hc Hs eq_refl eq_refl
           ltac:(discriminate) ltac:(discriminate) Hon Hacc).
Defined.

(** Dana opens "Create account" and types her name with blanks. *)
Definition register_ready_events : list Event :=
  [EvSettle 0; EvLink RRegister; EvType FName " Dana "; EvType FEmail "dana@example.com";
   EvType FPassword "pw-dana"].

Definition register_ready : App Remote :=
  default (app_init alice_remote) (run_events register_ready_events (app_init alice_remote)).

Definition dana_form : RegisterForm := mkRegisterForm " Dana " "dana@example.com" "pw-dana" false.

Lemma reachable_register_succeeds_witness :
  reachable alice_remote register_ready ∧ checking (root register_ready) = false ∧
  stack register_ready = [mkFrame 2 (LRegister dana_form); mkFrame 1 LIndex] ∧
  sv_online (remote register_ready) = true ∧
  sv_account (remote register_ready) (trim (rf_email dana_form)) = None ∧
  ∃ a' u, run_events [EvPress; EvSettle (List.length (flows register_ready));
                      EvSettle (List.length (flows register_ready));
                      EvSettle (List.length (flows register_ready))] register_ready = Some a' ∧
    user (root a') = Some u ∧ sv_user (remote a') = Some u ∧
    user_email u = trim (rf_email dana_form) ∧ user_name u = trim (rf_name dana_form) ∧
    sv_account (remote a') (trim (rf_email dana_form)) = Some (u, rf_password dana_form) ∧
    stack a' = [mkFrame (next_key register_ready) (LHome home_init); mkFrame 1 LIndex] ∧
    flows a' = flows register_ready ∧ alerts a' = alerts register_ready.
Proof.
  assert (Hr : reachable alice_remote register_ready).
  { apply (run_events_reachable _ register_ready_events (app_init alice_remote)); [constructor|].
    vm_compute. reflexivity. }
  assert (Hc : checking (root register_ready) = false) by (vm_compute; reflexivity).
  assert (Hs : stack register_ready = [mkFrame 2 (LRegister dana_form); mkFrame 1 LIndex])
    by (vm_compute; reflexivity).
  assert (Hon : sv_online (remote register_ready) = true) by (vm_compute; reflexivity).
  assert (Hnone : sv_account (remote register_ready) (trim (rf_email dana_form)) = None)
    by (vm_compute; reflexivity).
  split_and!; [exact Hr | exact Hc | exact Hs | exact Hon | exact Hnone |].
  exact (reachable_register_succeeds _ _ _ _ dana_form Hr Hc Hs eq_refl eq_refl
           ltac:(discriminate) ltac:(discriminate) ltac:(discriminate) Hon Hnone).
Defined.

(** Alice's session is alive at startup: the app opens on home. *)
Definition home_alice : App Remote :=
  default (app_init alice_signed_in) (run_events [EvSettle 0] (app_init alice_signed_in)).

Lemma reachable_logout_succeeds_witness :
  reachable alice_signed_in home_alice ∧ checking (root home_alice) = false ∧
  stack home_alice = [mkFrame 2 (LHome home_init)] ∧ user (root home_alice) = Some alice ∧
  sv_online (remote home_alice) = true ∧ sv_user (remote home_alice) = Some alice ∧
  ∃ a', run_events [EvPress; EvSettle (List.length (flows home_alice))] home_alice = Some a' ∧
    user (root a') = None ∧ sv_user (remote a') = None ∧
    stack a' = [mkFrame (next_key home_alice) LIndex] ∧
    flows a' = flows home_alice ∧ alerts a' = alerts home_alice.
Proof.
  assert (Hr : reachable alice_signed_in home_alice).
  { apply (run_events_reachable _ [EvSettle 0] (app_init alice_signed_in)); [constructor|].
    vm_compute. reflexivity. }
  assert (Hc : checking (root home_alice) = false) by (vm_compute; reflexivity).
  assert (Hs : stack home_alice = [mkFrame 2 (LHome home_init)]) by (vm_compute; reflexivity).
  assert (Hu : user (root home_alice) = Some alice) by (vm_compute; reflexivity).
  assert (Hon : sv_online (remote home_alice) = true) by (vm_compute; reflexivity).
  assert (Hsv : sv_user (remote home_alice) = Some alice) by (vm_compute; reflexivity).
  split_and!; [exact Hr | exact Hc | exact Hs | exact Hu | exact Hon | exact Hsv |].
  exact (reachable_logout_succeeds _ _ _ _ home_init _ _ Hr Hc Hs eq_refl eq_refl Hu Hon Hsv).
Defined.
End Witnesses.

End Journeys.
