(* ===== verification/Views.v ===== *)
(** * What the app shows: the JSX of the screens and of
      [src/components/TextInputField.tsx]

    Each screen component returns a [<Redirect>] or a tree of React
    Native elements; the tree is kept here as the list of its
    interactive and textual leaves, in the order they appear ([View]
    containers and [style] props only lay them out and are dropped):
    [WText] for a [<Text>], [WInput] for a [<TextInput>] with the props
    it receives, [WButton] for a [<TouchableOpacity>] with its label,
    [disabled] flag and [onPress] handler, [WLink] for an expo-router
    [<Link>], [WSpinner] for the [<ActivityIndicator>] of the root
    layout.  [TextInputField] renders its [label] above a [TextInput]
    that receives every other prop ([...rest]).

    The theorems relate the view to the state machine of [App]: the
    password is the one masked field, what is typed is what the field
    shows, the submit button is disabled exactly while its screen is
    loading, and the spinner is shown exactly while [checking]. *)

From S2P Require Import Prelude JsString Service MemoryService Screens Layout App.

Module Views.
Import Screens Layout App.

#[export] Instance Field_eq_dec : EqDecision Field.
Proof. solve_decision. Defined.

(** The props a screen gives [TextInputField] besides [label]; the
    component passes them on to [TextInput] as [...rest]. *)
Record InputProps := mkInputProps {
  ip_value : string;
  ip_onChangeText : Field;
  ip_secureTextEntry : bool;
  ip_autoCapitalize : option string;
  ip_keyboardType : option string;
}.

(** The [onPress] of a button: the test-credentials filler or the
    screen's own async handler ([onLogin], [onRegister], [onLogout]). *)
Inductive Handler := HFillTest | HSubmit.

Inductive widget :=
| WText (s : string)
| WInput (p : InputProps)
| WButton (label : string) (disabled : bool) (onPress : Handler)
| WLink (label : string) (href : route)
| WSpinner.

(** What a screen component returns. *)
Inductive output := ORedirect (to : route) | OWidgets (ws : list widget).

(** [TextInputField({ label, style, ...rest })], lines 6-25. *)
Definition TextInputField (label : string) (rest : InputProps) : list widget :=
  [WText label; WInput rest].

(** [index.tsx], lines 6-24. *)
Definition Index (user : option User) : output :=
  match user with
  | Some _ => ORedirect RHome
  | None => OWidgets [WText "Welcome"; WLink "Sign in" RLogin;
                      WLink "Create an account" RRegister]
  end.

(** [login.tsx], lines 14 and 37-50. *)
Definition Login (user : option User) (f : LoginForm) : output :=
  match user with
  | Some _ => ORedirect RHome
  | None => OWidgets (
      [WText "Sign in"] ++
      TextInputField "Email"
        (mkInputProps (lf_email f) FEmail false (Some "none") (Some "email-address")) ++
      TextInputField "Password" (mkInputProps (lf_password f) FPassword true None None) ++
      [WButton "Use Test Credentials" false HFillTest;
       WButton (if lf_loading f then "Signing in…" else "Sign in") (lf_loading f) HSubmit;
       WLink "Create an account" RRegister])%list
  end.

(** [register.tsx], lines 15 and 33-43. *)
Definition Register (user : option User) (f : RegisterForm) : output :=
  match user with
  | Some _ => ORedirect RHome
  | None => OWidgets (
      [WText "Create your account"] ++
      TextInputField "Name" (mkInputProps (rf_name f) FName false None None) ++
      TextInputField "Email"
        (mkInputProps (rf_email f) FEmail false (Some "none") (Some "email-address")) ++
      TextInputField "Password" (mkInputProps (rf_password f) FPassword true None None) ++
      [WButton (if rf_loading f then "Creating…" else "Create account") (rf_loading f) HSubmit])%list
  end.

(** [home.tsx], lines 11 and 25-33. *)
Definition Home (user : option User) (h : HomeState) : output :=
  match user with
  | None => ORedirect RIndex
  | Some u => OWidgets [WText (greeting u); WText (user_email u);
      WButton (if hs_loading h then "Signing out…" else "Sign out") (hs_loading h) HSubmit]
  end.

(** The component the Stack mounts for a screen's local state. *)
Definition screen (l : Local) (user : option User) : output :=
  match l with
  | LIndex => Index user
  | LLogin f => Login user f
  | LRegister f => Register user f
  | LHome h => Home user h
  end.

(** [RootLayout]'s return, lines 31-79: the spinner while [checking],
    then the screen on top of the Stack. *)
Definition RootLayout {Sv} (a : App Sv) : output :=
  if checking (root a) then OWidgets [WSpinner] else
  match stack a with
  | fr :: _ => screen (fr_local fr) (user (root a))
  | [] => OWidgets []
  end.

(** The value a rendered form shows in the field [fld]: the [value]
    prop of the first input whose [onChangeText] writes [fld]. *)
Fixpoint field_value (fld : Field) (ws : list widget) : option string :=
  match ws with
  | [] => None
  | WInput p :: ws' =>
      if decide (ip_onChangeText p = fld) then Some (ip_value p) else field_value fld ws'
  | _ :: ws' => field_value fld ws'
  end.

(** [in_cases H]: split [H : w ∈ ws] over a rendered list into one
    goal per element. *)
Ltac in_cases H :=
  apply list_elem_of_In in H; cbn [In app TextInputField] in H;
  repeat destruct H as [H|H]; simplify_eq; try contradiction.

(** [in_pick]: prove [w ∈ ws] for a rendered list by finding [w]. *)
Ltac in_pick :=
  apply list_elem_of_In; cbn [In app TextInputField];
  repeat first [left; reflexivity | right].

(** A screen returns [<Redirect>] exactly when its gate says so. *)
Lemma screen_redirect l user r :
  screen l user = ORedirect r ↔ gate (local_route l) user = Redirect r.
Proof. destruct l, user; simpl; split; congruence. Qed.

Lemma screen_render l user :
  gate (local_route l) user = Render → ∃ ws, screen l user = OWidgets ws.
Proof. destruct l, user; simpl; try discriminate; eauto. Qed.

(** No screen shows the root layout's spinner. *)
Lemma screen_no_spinner l user ws : screen l user = OWidgets ws → WSpinner ∉ ws.
Proof. destruct l, user; simpl; intros [= <-] Hw; in_cases Hw. Qed.

(** [C20] The password is the one masked field: on every screen an
    input is rendered with [secureTextEntry] exactly when its
    [onChangeText] writes the password. *)
Theorem password_masked l user ws p :
  screen l user = OWidgets ws → WInput p ∈ ws →
  (ip_onChangeText p = FPassword ↔ ip_secureTextEntry p = true).
Proof. destruct l, user; simpl; intros [= <-] Hp; in_cases Hp; simpl; split; congruence. Qed.

(** [C21] Typing into a field is a round trip through the view: after
    [onChangeText] of [fld] with [v] the re-rendered screen shows [v] in
    [fld] and every other field as before. *)
Theorem typed_value_roundtrip fld v l l' ws :
  screen l None = OWidgets ws → type_field fld v l = Some l' →
  ∃ ws', screen l' None = OWidgets ws' ∧ field_value fld ws' = Some v ∧
         ∀ fld', fld' ≠ fld → field_value fld' ws' = field_value fld' ws.
Proof.
  destruct l, fld; simpl; intros [= <-] [= <-]; eexists; (split; [done|]);
    (split; [done|]); intros [] ?; done.
Qed.

(** [C22] The submit button of a screen is disabled exactly while its
    [loading] is set, and a press on it then changes nothing and starts
    no flow. *)
Theorem submit_button_state l user ws lbl d :
  screen l user = OWidgets ws → WButton lbl d HSubmit ∈ ws →
  d = local_loading l ∧ (d = true → ∀ k uid, press k uid l = Some (l, [], None)).
Proof.
  destruct l as [|f|f|h], user; simpl; intros [= <-] Hw; in_cases Hw; (split; [done|]);
    intros Hl k uid; simpl.
  - by rewrite (proj1 (press_loading_noop f register_init "" home_init) Hl).
  - by rewrite (proj1 (proj2 (press_loading_noop login_init f uid home_init)) Hl).
  - by rewrite (proj2 (proj2 (press_loading_noop login_init register_init "" h)) Hl).
Qed.

Section Reachable.
Context {Sv : Type} `{SessionService Sv} `{!ServiceEnv Sv}.

(** [C18] In every reachable state the app shows widgets, never a bare
    [<Redirect>], and the spinner is all it shows exactly while
    [checking] (spec 4.3: no screen is rendered before the session
    status is known). *)
Theorem reachable_spinner_iff_checking (s0 : Sv) (a : App Sv) :
  reachable s0 a →
  ∃ ws, RootLayout a = OWidgets ws ∧ (checking (root a) = true ↔ WSpinner ∈ ws).
Proof.
  intros Hr. apply reachable_inv in Hr as [_ Htop]. unfold RootLayout.
  destruct (checking (root a)).
  - eexists. split; [done|]. split; [intros; by left|done].
  - destruct (Htop eq_refl) as (fr & rest & -> & Hg).
    destruct (screen_render _ _ Hg) as [ws Hws]. exists ws. split; [done|].
    split; [done|]. intros Hw. by apply (screen_no_spinner _ _ _ Hws) in Hw.
Qed.
End Reachable.

Section Witnesses.
Import MemoryService.

(** The sign-in form as [fillTestCredentials] leaves it. *)
Definition filled_login : Local := LLogin (fillTestCredentials login_init).

Lemma password_masked_witness :
  ∃ ws, screen filled_login None = OWidgets ws ∧
    WInput (mkInputProps "12345678" FPassword true None None) ∈ ws ∧
    (ip_onChangeText (mkInputProps "12345678" FPassword true None None) = FPassword ↔
     ip_secureTextEntry (mkInputProps "12345678" FPassword true None None) = true).
Proof.
  eexists. assert (Hs : screen filled_login None = OWidgets
    [WText "Sign in"; WText "Email";
     WInput (mkInputProps "jimmuell@aol.com" FEmail false (Some "none") (Some "email-address"));
     WText "Password"; WInput (mkInputProps "12345678" FPassword true None None);
     WButton "Use Test Credentials" false HFillTest; WButton "Sign in" false HSubmit;
     WLink "Create an account" RRegister]) by reflexivity.
  assert (Hin : WInput (mkInputProps "12345678" FPassword true None None) ∈
    [WText "Sign in"; WText "Email";
     WInput (mkInputProps "jimmuell@aol.com" FEmail false (Some "none") (Some "email-address"));
     WText "Password"; WInput (mkInputProps "12345678" FPassword true None None);
     WButton "Use Test Credentials" false HFillTest; WButton "Sign in" false HSubmit;
     WLink "Create an account" RRegister]) by in_pick.
  split_and!; [exact Hs | exact Hin | exact (password_masked _ _ _ _ Hs Hin)].
Defined.

Lemma typed_value_roundtrip_witness :
  ∃ ws l', screen filled_login None = OWidgets ws ∧
    type_field FEmail "bob@example.com" filled_login = Some l' ∧
    ∃ ws', screen l' None = OWidgets ws' ∧ field_value FEmail ws' = Some "bob@example.com" ∧
      ∀ fld', fld' ≠ FEmail → field_value fld' ws' = field_value fld' ws.
Proof.
  do 2 eexists. assert (Hs : screen filled_login None = OWidgets
    (match screen filled_login None with OWidgets ws => ws | _ => [] end)) by reflexivity.
  assert (Ht : type_field FEmail "bob@example.com" filled_login =
    Some (LLogin (lf_setEmail (fillTestCredentials login_init) "bob@example.com"))) by reflexivity.
  split_and!; [exact Hs | exact Ht | exact (typed_value_roundtrip _ _ _ _ _ Hs Ht)].
Defined.

Lemma submit_button_state_witness :
  screen (LHome (mkHomeState true)) (Some alice) =
    OWidgets [WText (greeting alice); WText (user_email alice);
              WButton "Signing out…" true HSubmit] ∧
  WButton "Signing out…" true HSubmit ∈
    [WText (greeting alice); WText (user_email alice); WButton "Signing out…" true HSubmit] ∧
  (true = local_loading (LHome (mkHomeState true)) ∧
  (true = true → ∀ k uid, press k uid (LHome (mkHomeState true)) =
                          Some (LHome (mkHomeState true), [], None))).
Proof.
  assert (Hs : screen (LHome (mkHomeState true)) (Some alice) =
    OWidgets [WText (greeting alice); WText (user_email alice);
              WButton "Signing out…" true HSubmit]) by reflexivity.
  assert (Hin : WButton "Signing out…" true HSubmit ∈
    [WText (greeting alice); WText (user_email alice); WButton "Signing out…" true HSubmit])
    by in_pick.
  split; [exact Hs|]; split; [exact Hin | exact (submit_button_state _ _ _ _ _ Hs Hin)].
Defined.

Lemma reachable_spinner_iff_checking_witness :
  reachable alice_remote (app_init alice_remote) ∧
  ∃ ws, RootLayout (app_init alice_remote) = OWidgets ws ∧
        (checking (root (app_init alice_remote)) = true ↔ WSpinner ∈ ws).
Proof.
  assert (Hr : reachable alice_remote (app_init alice_remote)) by constructor.
  split; [exact Hr | exact (reachable_spinner_iff_checking _ _ Hr)].
Defined.
End Witnesses.

End Views.
