(* ===== verification/Navigation.v ===== *)
(** * The shape of the navigation stack

    Screens reach the Stack in three ways: a [<Link>] pushes the
    sign-in screen from the welcome screen, or the create-account
    screen from the welcome or the sign-in screen; a [<Redirect>]
    replaces the screen on top by home or welcome; a dismissal pops
    the top.  So the routes of the stack, read from the top, satisfy
    [shape_ok]: every modal (sign-in, create-account) sits right above
    the screen it was opened from, and the bottom is never a modal.
    The property is a boolean of the list of routes, checked by
    [vm_compute] on concrete stacks.

    Theorems: the invariant holds in every reachable state, and with it
    two gaps of spec 5 hold in every state, not only on one run, while
    a sign-in is pending on top: its "Create an account" link still
    opens a create-account screen with an enabled button (the start of
    the register/login race of [App]); and dismissing the modal and
    following the welcome screen's "Sign in" link mounts a fresh
    sign-in screen with an enabled button, the pending flow still in
    flight and its screen gone.  A concrete run shows the stack
    growing by one welcome screen per sign-in and sign-out. *)

From S2P Require Import Prelude Service MemoryService Screens Layout App.

Module Navigation.
Import Screens Layout App.
Open Scope nat_scope.

(** The routes of a stack, top first. *)
Definition routes (st : list Frame) : list route := map (λ fr, local_route (fr_local fr)) st.

Definition is_modal (r : route) : bool :=
  match r with RLogin | RRegister => true | _ => false end.

(** [r] may sit right above [below]: the modals above the screens that
    link to them, the other screens above anything. *)
Definition opened_from (r below : route) : bool :=
  match r, below with
  | RLogin, RIndex => true
  | RRegister, (RIndex | RLogin) => true
  | (RLogin | RRegister), _ => false
  | _, _ => true
  end.

Fixpoint shape_ok (rs : list route) : bool :=
  match rs with
  | [] => true
  | [r] => negb (is_modal r)
  | r :: ((r' :: _) as rs') => opened_from r r' && shape_ok rs'
  end.

(** ** The shape under the stack operations *)

Lemma shape_tail r rs : shape_ok (r :: rs) = true → shape_ok rs = true.
Proof. destruct rs as [|r' rs]; simpl; [done|]. by intros [_ ?]%andb_prop. Qed.

Lemma shape_push r r' rs :
  shape_ok (r' :: rs) = true → opened_from r r' = true → shape_ok (r :: r' :: rs) = true.
Proof. intros Hs Ho. simpl. rewrite Ho. exact Hs. Qed.

(** A screen that is not a modal may replace the top. *)
Lemma shape_replace_top r r0 rs :
  shape_ok (r0 :: rs) = true → is_modal r = false → shape_ok (r :: rs) = true.
Proof.
  destruct rs as [|r' rs]; simpl; [by intros _ ->|].
  intros [_ Hs]%andb_prop Hm. rewrite Hs, andb_true_r. by destruct r, r'.
Qed.

Lemma link_opened_from l r : link_allowed l r = true → opened_from r (local_route l) = true.
Proof. by destruct l, r. Qed.

Lemma gate_redirect_not_modal r u r' : gate r u = Redirect r' → is_modal r' = false.
Proof. destruct r, u; simpl; by intros [= <-]. Qed.

Lemma routes_update_key k g (st : list Frame) :
  (∀ l, local_route (g l) = local_route l) → routes (update_key k g st) = routes st.
Proof.
  intros Hg. unfold routes, update_key. rewrite map_map. apply map_ext. intros fr.
  unfold compose. case_decide; simpl; [apply Hg|done].
Qed.

Section Invariant.
Context {Sv : Type} `{SessionService Sv} `{!ServiceEnv Sv}.

Lemma redirect_shape (b : App Sv) :
  shape_ok (routes (stack b)) = true → shape_ok (routes (stack (redirect b))) = true.
Proof.
  intros Hs. unfold redirect. destruct (checking (root b)); [done|].
  destruct (stack b) as [|fr rest] eqn:Hst; [by rewrite Hst|].
  destruct (gate _ _) as [r|] eqn:Hg; [|by rewrite Hst]. simpl.
  apply (shape_replace_top _ _ _ Hs). rewrite local_route_mount.
  exact (gate_redirect_not_modal _ _ _ Hg).
Qed.

(** Resuming a flow keeps the routes of the stack. *)
Lemma settle_routes i (a a1 : App Sv) :
  settle i a = Some a1 → routes (stack a1) = routes (stack a).
Proof.
  unfold settle. destruct (flows a !! i) as [fl|]; [|done]. simpl.
  destruct (settle_flow fl a) as [b nfl] eqn:Hsf. intros [= <-]. simpl.
  apply settle_flow_cases in Hsf
    as [(s' & fl' & _ & -> & _) | [(_ & _ & s' & o & ->) | (_ & _ & s' & k & g & al & u' & _ & Hg & _ & -> & _)]];
    [done|done|]. by apply routes_update_key.
Qed.

Lemma user_event_shape ev fr rest (a a1 : App Sv) :
  shape_ok (routes (fr :: rest)) = true → user_event ev fr rest a = Some a1 →
  shape_ok (routes (stack a1)) = true.
Proof.
  intros Hs. destruct ev as [fld v| | |r| | | |]; simpl; try done.
  all: try (destruct rest as [|fr' rest]; [done|]; intros [= <-]; exact (shape_tail _ _ Hs)).
  - destruct (type_field fld v (fr_local fr)) as [l'|] eqn:Ht; [|done]. intros [= <-].
    simpl. apply type_field_same in Ht as [-> _]. exact Hs.
  - destruct (fr_local fr) eqn:Hl; try done. intros [= <-].
    unfold routes in *; simpl in *. by rewrite Hl in Hs.
  - destruct (press _ _ _) as [[[l' al] nfl]|] eqn:Hp; [|done]. intros [= <-]. simpl.
    apply press_cases in Hp as [(_ & Hr & _) | (_ & _ & _ & _ & _ & Hr & _)];
      unfold routes in *; simpl in *; by rewrite Hr.
  - destruct (link_allowed (fr_local fr) r) eqn:Hl; [|done]. intros [= <-].
    unfold routes; simpl. rewrite local_route_mount.
    apply shape_push; [exact Hs|]. by apply link_opened_from.
Qed.

Lemma handle_shape ev (a a' : App Sv) :
  shape_ok (routes (stack a)) = true → handle ev a = Some a' →
  shape_ok (routes (stack a')) = true.
Proof.
  intros Hs. unfold handle. intros (a1 & Ha1 & ->)%fmap_Some. apply redirect_shape.
  destruct ev; try (injection Ha1 as <-; exact Hs);
    try (by rewrite (settle_routes _ _ _ Ha1)).
  all: destruct (checking (root a)); [done|]; destruct (stack a) as [|fr rest]; [done|].
  all: exact (user_event_shape _ _ _ _ _ Hs Ha1).
Qed.

Lemma reachable_shape (s0 : Sv) (a : App Sv) :
  reachable s0 a → shape_ok (routes (stack a)) = true.
Proof. induction 1 as [|a ev a' _ IH Hh]; [done|]. exact (handle_shape _ _ _ IH Hh). Qed.

End Invariant.

(** ** The sign-in screen does not lock navigation *)

Section Navigation.
Context {Sv : Type} `{SessionService Sv} `{!ServiceEnv Sv}.

(** [C12] While a sign-in is in flight the "Create an account" link
    stays live: in every reachable state whose top screen is the
    sign-in screen with its button disabled, following the link keeps
    the pending sign-in flow and shows a create-account screen whose
    button is enabled (the precondition of the run of
    [register_returns_other_user], for every state). *)
Theorem reachable_link_during_signin (s0 : Sv) (a : App Sv) fr rest f :
  reachable s0 a → checking (root a) = false →
  stack a = fr :: rest → fr_local fr = LLogin f → lf_loading f = true →
  count_where (keyed (fr_key fr)) (flows a) = 1 ∧
  ∃ a', handle (EvLink RRegister) a = Some a' ∧ flows a' = flows a ∧
        stack a' = mkFrame (next_key a) (LRegister register_init) :: fr :: rest.
Proof.
  intros Hr Hc Hs Hl Hload.
  split; [apply (reachable_top_pending s0 a fr rest Hr Hs); by rewrite Hl|].
  assert (Hu : user (root a) = None) by (apply (reachable_top_guest s0 a fr rest Hr Hc Hs); by rewrite Hl).
  unfold handle. rewrite Hc, Hs. simpl. rewrite Hl. simpl.
  eexists. split; [done|]. unfold redirect. simpl. rewrite Hc, Hu. by split.
Qed.
End Navigation.

Section NavigationWitness.
Import MemoryService.

(** Alice's sign-in is pending on the sign-in screen. *)
Definition signin_pending : App Remote :=
  default (app_init alice_remote) (run_events (take 5 race_prefix) (app_init alice_remote)).

Lemma signin_pending_reachable : reachable alice_remote signin_pending.
Proof.
  apply (run_events_reachable _ (take 5 race_prefix) (app_init alice_remote)); [constructor|].
  vm_compute. reflexivity.
Qed.

Lemma reachable_link_during_signin_witness :
  reachable alice_remote signin_pending ∧ checking (root signin_pending) = false ∧
  stack signin_pending =
    mkFrame 2 (LLogin (mkLoginForm "alice@example.com" "secret-pw" true)) ::
    [mkFrame 1 LIndex] ∧
  count_where (keyed 2) (flows signin_pending) = 1 ∧
  ∃ a', handle (EvLink RRegister) signin_pending = Some a' ∧ flows a' = flows signin_pending ∧
        stack a' = mkFrame (next_key signin_pending) (LRegister register_init) ::
                   mkFrame 2 (LLogin (mkLoginForm "alice@example.com" "secret-pw" true)) ::
                   [mkFrame 1 LIndex].
Proof.
  pose proof signin_pending_reachable as Hr.
  assert (Hc : checking (root signin_pending) = false) by (vm_compute; reflexivity).
  assert (Hs : stack signin_pending =
    mkFrame 2 (LLogin (mkLoginForm "alice@example.com" "secret-pw" true)) ::
    [mkFrame 1 LIndex]) by (vm_compute; reflexivity).
  split; [exact Hr|]. split; [exact Hc|]. split; [exact Hs|].
  exact (reachable_link_during_signin _ _ _ _ _ Hr Hc Hs eq_refl eq_refl).
Defined.
End NavigationWitness.

Section Reopen.
Context {Sv : Type} `{SessionService Sv} `{!ServiceEnv Sv}.

(** A key that is not among a stack's mount keys finds no screen. *)
Lemma local_of_absent k (st : list Frame) : k ∉ map fr_key st → local_of k st = None.
Proof.
  intros Hk. destruct (local_of k st) as [l|] eqn:Hl; [|done].
  destruct (local_of_Some _ _ _ Hl) as (fr & Hin & <- & _). destruct Hk.
  apply list_elem_of_fmap. by exists fr.
Qed.

(** [C10] The controls of spec 5 do not prevent a second sign-in, in
    any reachable state: while a sign-in is pending on top, dismissing
    the modal and following the welcome screen's "Sign in" link mounts
    a fresh sign-in screen whose button is enabled, while the pending
    flow stays in flight and its own screen is gone (its [finally]
    will find no screen to re-enable). *)
Theorem reachable_reopen_signin (s0 : Sv) (a : App Sv) fr rest f :
  reachable s0 a → checking (root a) = false →
  stack a = fr :: rest → fr_local fr = LLogin f → lf_loading f = true →
  count_where (keyed (fr_key fr)) (flows a) = 1 ∧
  ∃ a', run_events [EvBack; EvLink RLogin] a = Some a' ∧ flows a' = flows a ∧
    stack a' = mkFrame (next_key a) (LLogin login_init) :: rest ∧
    local_of (fr_key fr) (stack a') = None.
Proof.
  intros Hr Hc Hs Hl Hload.
  split; [apply (reachable_top_pending s0 a fr rest Hr Hs); by rewrite Hl|].
  assert (Hu : user (root a) = None)
    by (apply (reachable_top_guest s0 a fr rest Hr Hc Hs); by rewrite Hl).
  pose proof (reachable_shape s0 a Hr) as Hsh. rewrite Hs in Hsh. unfold routes in Hsh.
  simpl in Hsh. rewrite Hl in Hsh.
  destruct rest as [|fr2 rest]; [discriminate|]. simpl in Hsh.
  destruct (fr_local fr2) eqn:Hl2; simpl in Hsh; try discriminate.
  destruct (reachable_inv s0 a Hr) as [Hinv _].
  pose proof (inv_stack_ok _ Hinv) as [Hnd Hfr _ _]. rewrite Hs in Hnd, Hfr.
  assert (H1 : handle EvBack a = Some (with_stack (fr2 :: rest) a)).
  { unfold handle. rewrite Hc, Hs. simpl. unfold redirect. simpl. by rewrite Hc, Hl2, Hu. }
  exists (mkApp (remote a) (root a) (mkFrame (next_key a) (LLogin login_init) :: fr2 :: rest)
                (flows a) (alerts a) (S (next_key a)) (next_id a)).
  split_and!.
  - simpl. rewrite H1. simpl. unfold handle. simpl. rewrite Hc. simpl. rewrite Hl2. simpl.
    unfold redirect. simpl. by rewrite Hc, Hu.
  - done.
  - done.
  - cbn [stack]. rewrite local_of_cons_ne.
    + apply local_of_absent. by apply NoDup_cons in Hnd as [? _].
    + apply Forall_cons in Hfr as [Hlt _]. simpl. lia.
Qed.
End Reopen.

Section Witnesses.
Import MemoryService.

Lemma reachable_reopen_signin_witness :
  reachable alice_remote signin_pending ∧ checking (root signin_pending) = false ∧
  stack signin_pending =
    mkFrame 2 (LLogin (mkLoginForm "alice@example.com" "secret-pw" true)) :: [mkFrame 1 LIndex] ∧
  count_where (keyed 2) (flows signin_pending) = 1 ∧
  ∃ a', run_events [EvBack; EvLink RLogin] signin_pending = Some a' ∧
    flows a' = flows signin_pending ∧
    stack a' = mkFrame (next_key signin_pending) (LLogin login_init) :: [mkFrame 1 LIndex] ∧
    local_of 2 (stack a') = None.
Proof.
  pose proof signin_pending_reachable as Hr.
  assert (Hc : checking (root signin_pending) = false) by (vm_compute; reflexivity).
  assert (Hs : stack signin_pending =
    mkFrame 2 (LLogin (mkLoginForm "alice@example.com" "secret-pw" true)) :: [mkFrame 1 LIndex])
    by (vm_compute; reflexivity).
  split; [exact Hr|]. split; [exact Hc|]. split; [exact Hs|].
  exact (reachable_reopen_signin _ _ _ _ _ Hr Hc Hs eq_refl eq_refl).
Defined.
End Witnesses.

(** ** The stack keeps the screens a redirect left below *)

Section Growth.
Import MemoryService.

(** One sign-in and sign-out: open "Sign in", fill it, sign in (the
    sign-in screen is replaced by home), sign out (home is replaced by a
    new welcome screen). *)
Definition signin_signout : list Event :=
  [EvLink RLogin; EvType FEmail "alice@example.com"; EvType FPassword "secret-pw";
   EvPress; EvSettle 0; EvSettle 0; EvPress; EvSettle 0].

(** Every cycle leaves one more welcome screen in the stack: after
    three cycles there are four, with nobody signed in, no alert and no
    flow in flight. *)
Lemma stack_grows_per_cycle :
  option_map (λ a, (routes (stack a), user (root a), alerts a, flows a))
    (run_events (EvSettle 0 :: signin_signout ++ signin_signout ++ signin_signout)
                (app_init alice_remote)) =
  Some ([RIndex; RIndex; RIndex; RIndex], None, [], []).
Proof. vm_compute. reflexivity. Qed.
End Growth.

End Navigation.
