(* ===== verification/Scenarios.v ===== *)
(** * Runs of the whole app that the spec rules out

    The alerts the app has shown never influence what it does next:
    [Alert.alert] is output only.  [handle_alerts] states it (the
    result of an event on a state is the result on the same state
    without alerts, with the old alerts put back in front), and it
    turns one concrete round of events into a statement about any
    number of rounds.

    Then:
    - sign-out is stuck for good, in every reachable state and for
      any service that keeps the SDK laws: once the server has no
      session while the app shows home with a user, every press of
      "Sign out" followed by the reply leaves the app exactly as it
      was plus one more "Logout failed" alert (spec 8: "after logout,
      Auth State is null regardless of its prior value"); the run
      where Alice's session expires is its witness;
    - two sign-ins in flight at once: the sign-in modal is dismissed
      while its flow is pending and opened again, the new screen's
      button is enabled, and a second [login] starts (spec 5: "no
      operation may run concurrently with itself"). *)

From S2P Require Import Prelude Service MemoryService Auth Screens Layout App Drain Journeys.

Module Scenarios.
Import Screens Layout App Drain Journeys.
Open Scope nat_scope.

Section Alerts.
Context {Sv : Type} `{SessionService Sv} `{!ServiceEnv Sv}.

Definition with_alerts (al : list Alert) (a : App Sv) : App Sv :=
  mkApp (remote a) (root a) (stack a) (flows a) al (next_key a) (next_id a).

Lemma with_alerts_alerts (a : App Sv) : with_alerts (alerts a) a = a.
Proof. by destruct a. Qed.

Lemma with_alerts_twice al al' (a : App Sv) :
  with_alerts al (with_alerts al' a) = with_alerts al a.
Proof. done. Qed.

(** [tail_alerts al b]: [b] with [al] put in front of its alerts. *)
Definition tail_alerts (al : list Alert) (b : App Sv) : App Sv :=
  with_alerts (al ++ alerts b)%list b.

Lemma redirect_alerts al (a : App Sv) :
  redirect (with_alerts al a) = with_alerts al (redirect a).
Proof.
  unfold redirect. simpl. destruct (checking (root a)); [done|].
  destruct (stack a) as [|fr rest]; [done|]. by destruct (gate _ _).
Qed.

Lemma settle_flow_alerts fl (a : App Sv) :
  settle_flow fl a =
  (λ '(b, nfl), (tail_alerts (alerts a) b, nfl)) (settle_flow fl (with_alerts [] a)).
Proof.
  destruct fl as [p|k p|k p|k p]; simpl;
    destruct (step_prog p (remote a)) as [s' [p'|o]];
    unfold tail_alerts, with_alerts, with_remote,
      finish_startup, finish_login, finish_register, finish_logout; simpl;
    repeat case_match; simplify_eq; rewrite ?app_nil_r; by destruct a.
Qed.

Lemma redirect_keeps_alerts (b : App Sv) : alerts (redirect b) = alerts b.
Proof.
  unfold redirect. destruct (checking (root b)); [done|].
  destruct (stack b) as [|fr rest]; [done|]. by destruct (gate _ _).
Qed.

Lemma redirect_tail al (b : App Sv) :
  redirect (tail_alerts al b) = tail_alerts al (redirect b).
Proof. unfold tail_alerts. by rewrite redirect_alerts, redirect_keeps_alerts. Qed.

(** The result of an event before the render is [tail_alerts] of the
    result without alerts; the render commutes with it. *)
Local Ltac close_alerts a :=
  simpl; f_equal; rewrite <- redirect_tail; f_equal;
  unfold tail_alerts, with_alerts, with_stack, with_remote; simpl; by rewrite app_nil_r.

(** Alerts are output only: an event does on [a] what it does on [a]
    without its alerts, the old alerts staying in front. *)
Lemma handle_alerts ev (a : App Sv) :
  handle ev a = tail_alerts (alerts a) <$> handle ev (with_alerts [] a).
Proof.
  unfold handle. destruct ev; simpl.
  1-5: destruct (checking (root a)); [done|]; destruct (stack a) as [|fr rest]; [done|]; simpl.
  - destruct (type_field _ _ _); [close_alerts a|done].
  - destruct (fr_local fr); try done. close_alerts a.
  - destruct (press _ _ _) as [[[l' al] nfl]|]; [|done]. simpl. f_equal.
    rewrite <- redirect_tail. f_equal; unfold tail_alerts, with_alerts; simpl.
    all: by rewrite ?app_assoc.
  - destruct (link_allowed _ _); [close_alerts a|done].
  - destruct rest; [done|close_alerts a].
  - unfold settle. simpl. destruct (flows a !! i) as [fl|]; simpl; [|done].
    rewrite (settle_flow_alerts fl a). destruct (settle_flow fl (with_alerts [] a)) as [b nfl].
    simpl. f_equal. rewrite <- redirect_tail. f_equal; unfold tail_alerts, with_alerts.
    all: simpl; by destruct nfl.
  - close_alerts a.
  - close_alerts a.
Qed.
Lemma tail_alerts_tail al al' (b : App Sv) :
  tail_alerts al (tail_alerts al' b) = tail_alerts (al ++ al') b.
Proof. unfold tail_alerts, with_alerts. simpl. by rewrite app_assoc. Qed.

Lemma with_alerts_tail al (b : App Sv) : with_alerts [] (tail_alerts al b) = with_alerts [] b.
Proof. done. Qed.

(** A run of events does on [a] what it does on [a] without alerts. *)
Lemma run_events_alerts evs (a : App Sv) :
  run_events evs a = tail_alerts (alerts a) <$> run_events evs (with_alerts [] a).
Proof.
  revert a. induction evs as [|ev evs IH]; intros a; simpl.
  - f_equal. unfold tail_alerts, with_alerts. simpl. rewrite app_nil_r. by destruct a.
  - rewrite handle_alerts. destruct (handle ev (with_alerts [] a)) as [b|]; simpl; [|done].
    rewrite (IH (tail_alerts (alerts a) b)), (IH b), with_alerts_tail.
    destruct (run_events evs (with_alerts [] b)) as [c|]; simpl; [|done].
    f_equal. by rewrite tail_alerts_tail.
Qed.

(** A round of events that leaves a state as it was but for new
    alerts [al] does so again, on top of any alerts. *)
Lemma round_repeats evs al (a : App Sv) :
  run_events evs (with_alerts [] a) = Some (with_alerts al a) →
  ∀ n al0, run_events (List.concat (repeat evs n)) (with_alerts al0 a) =
           Some (with_alerts (al0 ++ List.concat (repeat al n)) a).
Proof.
  intros Hround n. induction n as [|n IH]; intros al0; simpl.
  - by rewrite app_nil_r.
  - rewrite run_events_app, run_events_alerts, with_alerts_twice, Hround. simpl.
    unfold tail_alerts. rewrite with_alerts_twice. simpl. rewrite IH. by rewrite app_assoc.
Qed.
End Alerts.

Lemma concat_repeat_singleton {A} (x : A) n : List.concat (repeat [x] n) = repeat x n.
Proof. induction n as [|n IH]; simpl; [done|]. by rewrite IH. Qed.

(** ** Sign-out once the session is gone, in every state *)

Section StuckSignOut.
(** Any service that keeps the laws of the SDK calls ... *)
Context {Sv : Type} `{SessionServiceLaws Sv}.
(** ... and any environment (network, expiry) acting on it. *)
Context `{!ServiceEnv Sv}.

(** [C9] Sign-out is stuck for good, in every reachable state: when the
    server no longer has a session while the app shows home with a
    user, for any service that keeps the SDK laws, every round of
    pressing "Sign out" and receiving the reply, however many, leaves
    the app exactly as it was but for one more "Logout failed" alert
    per round (spec 8: "after logout, Auth State is null regardless of
    its prior value"). *)
Theorem reachable_logout_stuck (s0 : Sv) (a : App Sv) fr rest h u :
  reachable s0 a → checking (root a) = false → stack a = fr :: rest →
  fr_local fr = LHome h → hs_loading h = false →
  user (root a) = Some u → sv_user (remote a) = None →
  ∃ e, ∀ n, run_events (List.concat (repeat [EvPress; EvSettle (List.length (flows a))] n)) a =
            Some (with_alerts (alerts a ++ repeat (mkAlert "Logout failed" (error_text e)) n)%list a).
Proof.
  intros Hr Hc Hs Hl Hh Hu Hg.
  assert (Hl' : fr_local fr = LHome (mkHomeState false)) by (rewrite Hl; destruct h; simpl in *; by subst).
  pose proof (reachable_top_key s0 a fr rest Hr Hs) as Hk.
  destruct (delete_guest "current" (remote a) Hg) as [e Hp]. exists e. intros n.
  (* one round on [a] without its alerts: press, then the rejected reply *)
  assert (Hround : run_events [EvPress; EvSettle (List.length (flows a))] (with_alerts [] a) =
                   Some (with_alerts [mkAlert "Logout failed" (error_text e)] a)).
  { simpl. rewrite (home_press (with_alerts [] a) fr rest u Hc Hs Hl' Hu). simpl.
    rewrite (home_settle _ (fr_key fr) rest (flows a) (remote a) (Rejected e)); simpl; try done.
    unfold redirect. simpl. rewrite Hc, Hu. simpl.
    unfold with_alerts. f_equal. destruct fr as [k l]. simpl in *. subst l. rewrite Hs.
    destruct h as [hl]. simpl in Hh. subst hl.
    destruct (root a) as [u0 c0]. simpl in *. by subst. }
  rewrite <- (concat_repeat_singleton (mkAlert "Logout failed" (error_text e)) n).
  rewrite <- (round_repeats _ _ _ Hround n (alerts a)).
  by rewrite with_alerts_alerts.
Qed.
End StuckSignOut.

(** ** Two runs on the in-memory service *)

Section Runs.
Import MemoryService.

(** Alice's session is alive when the app starts; the startup resolver
    signs her in; then the server ends the session. *)
Definition expire_events : list Event := [EvSettle 0; EvExpire].

(** The state after [expire_events]: home with Alice, no session on
    the server. *)
Definition expired_home : App Remote :=
  default (app_init alice_signed_in) (run_events expire_events (app_init alice_signed_in)).

Lemma reachable_logout_stuck_witness :
  reachable alice_signed_in expired_home ∧ checking (root expired_home) = false ∧
  stack expired_home = [mkFrame 2 (LHome (mkHomeState false))] ∧
  user (root expired_home) = Some alice ∧ sv_user (remote expired_home) = None ∧
  ∃ e, ∀ n, run_events (List.concat (repeat [EvPress; EvSettle (List.length (flows expired_home))] n))
                       expired_home =
            Some (with_alerts (alerts expired_home ++
                               repeat (mkAlert "Logout failed" (error_text e)) n)%list expired_home).
Proof.
  assert (Hr : reachable alice_signed_in expired_home).
  { apply (run_events_reachable _ expire_events (app_init alice_signed_in)); [constructor|].
    vm_compute. reflexivity. }
  assert (Hc : checking (root expired_home) = false) by (vm_compute; reflexivity).
  assert (Hs : stack expired_home = [mkFrame 2 (LHome (mkHomeState false))])
    by (vm_compute; reflexivity).
  assert (Hu : user (root expired_home) = Some alice) by (vm_compute; reflexivity).
  assert (Hg : sv_user (remote expired_home) = None) by (vm_compute; reflexivity).
  split; [exact Hr|]. split; [exact Hc|]. split; [exact Hs|]. split; [exact Hu|].
  split; [exact Hg|].
  exact (reachable_logout_stuck _ _ _ _ _ _ Hr Hc Hs eq_refl eq_refl Hu Hg).
Defined.

(** Alice fills the sign-in form and presses "Sign in"; while her flow
    is pending she dismisses the modal (swipe down or the system back
    action), opens "Sign in" again, fills it and presses again. *)
Definition dismiss_events : list Event :=
  [EvSettle 0; EvLink RLogin; EvType FEmail "alice@example.com";
   EvType FPassword "secret-pw"; EvPress; EvBack; EvLink RLogin;
   EvType FEmail "alice@example.com"; EvType FPassword "secret-pw"; EvPress].

(** Two sign-ins are in flight at once: the first screen's
    [disabled={loading}] went away with the screen, the new screen's
    button is enabled, and a second [login] starts while the first is
    pending (spec 5: "no operation may run concurrently with itself",
    "the triggering controls are disabled for the duration"). *)
Theorem two_logins_in_flight :
  ∃ a, run_events dismiss_events (app_init alice_remote) = Some a ∧
    map flow_key (flows a) = [Some 2; Some 3] ∧
    (∀ fl, fl ∈ flows a → flow_route fl = Some RLogin) ∧
    local_of 2 (stack a) = None ∧ is_Some (local_of 3 (stack a)).
Proof.
  destruct (run_events dismiss_events (app_init alice_remote)) as [a|] eqn:Ha;
    [|vm_compute in Ha; discriminate].
  vm_compute in Ha. injection Ha as <-.
  eexists. split_and!; [done|vm_compute; reflexivity| |vm_compute; reflexivity|by eexists].
  intros fl Hfl. repeat (apply elem_of_cons in Hfl as [->|Hfl]; [done|]).
  by apply elem_of_nil in Hfl.
Qed.
End Runs.


End Scenarios.
